(** * TestPerformanceReport.py: the concurrent probe engine

    A shallow embedding of [src/TestPerformanceReport.py]: the per-host
    probe ([TestPerformance.__init__], [tcp_time], [get_http],
    [time_content], [test_all]), the queue workers ([do_work], [worker])
    and the coordinator ([main]).

    Conventions.
    - A Python float is an IEEE 754 binary64 number.  The finite ones are
      rationals, so clock readings ([time.time()]) and durations are in
      [Q], and a float operation of the source is the exact operation
      followed by [round64], the rounding to the nearest float, ties to
      even: [t1 - t0] is [fsub t1 t0], [z_s + options.timeout] is [fadd]
      after the conversion [float_of_int], and [statistics.mean] sums its
      data exactly, divides once and rounds once.  Overflow is modelled
      where a run of the program can reach it, in the conversion of an
      integer option to a float ([OverflowError]); the readings of a clock
      stay far below [2^1024], so their differences and means do.
    - A Python [str] is the [string] of the bytes of its UTF-8 encoding.
    - The network is a [World]: for every operation the code performs it
      gives the outcome, and for the timed ones the two clock readings the
      code takes around it.  [optparse] and the file system are given in
      the same way, as the outcome of [parser.parse_args()] and of reading
      the host file.
    - Threads are interleaved by an explicit schedule; every theorem about
      concurrent code quantifies over all schedules.
    - An exception is a value [Raise e] of [result]; nothing in the source
      catches one, except the [TimeoutError] that [worker] raises itself. *)

From Stdlib Require Import ZArith QArith Qround Qabs Qpower Lia Lqa.
From stdpp Require Import base option list gmap strings.

Local Open Scope Z_scope.
Local Open Scope string_scope.
Local Open Scope list_scope.

(** ** Python values, exceptions, clock readings *)

Inductive exn :=
| gaierror            (* socket.gethostbyname: the name does not resolve *)
| OSError             (* socket.connect: refused, unreachable, ... *)
| RequestException    (* requests.head, requests.get, Response.content *)
| TooManyRedirects    (* requests: more than 30 redirects *)
| StatisticsError     (* statistics.mean of no data *)
| OverflowError       (* an int too large to convert to float *)
| SystemExit          (* parser.parse_args(): optparse rejected the command line *)
| FileNotFoundError   (* open(options.hostname_file): no such file *)
| PermissionError     (* open(options.hostname_file): not readable *)
| UnicodeDecodeError  (* for hostname in f: the file is not text *)
| TypeError.          (* open(None): no -i option was given *)

Inductive result (A : Type) :=
| Ok (a : A)
| Raise (e : exn).
Arguments Ok {A} a.
Arguments Raise {A} e.

(** ** Python floats

    A finite binary64 number is [m * 2^e] with [|m| < 2^53] and
    [-1074 <= e].  A rational [x] other than 0 is rounded at the exponent
    [expo x], which leaves 53 bits above it (fewer for a subnormal), to the
    nearest multiple of [2^(expo x)], the even one in a tie. *)

Definition pow2 (e : Z) : Q := (2 ^ e)%Q.

(** The integer part of the binary logarithm of [x > 0]. *)
Definition flog2 (x : Q) : Z :=
  let d := Z.log2 (Qnum x) - Z.log2 (Zpos (Qden x)) in
  if Qle_bool (pow2 d) x then d else d - 1.

(** The nearest integer, the even one in a tie. *)
Definition rne (y : Q) : Z :=
  let f := Qfloor y in
  match Qcompare (y - inject_Z f) (1 # 2) with
  | Lt => f
  | Gt => f + 1
  | Eq => if Z.even f then f else f + 1
  end.

Definition expo (x : Q) : Z := Z.max (flog2 (Qabs x) - 52) (-1074).

Definition mant (x : Q) : Z := rne (x / pow2 (expo x)).

Definition round64 (x : Q) : Q :=
  if Qeq_bool x 0 then 0%Q else Qred (inject_Z (mant x) * pow2 (expo x)).

(** [x - y] and [x + y] on floats that are far enough from [2^1024] for
    the result to be finite, as clock readings are. *)
Definition fsub (x y : Q) : Q := round64 (x - y).
Definition fadd (x y : Q) : Q := round64 (x + y).

(** [float(n)], as the addition of a float and an int performs it. *)
Definition float_of_int (n : Z) : result Q :=
  let x := round64 (inject_Z n) in
  if Qle_bool (pow2 1024) (Qabs x) then Raise OverflowError else Ok x.

(** An operation between two readings of the clock: [t0] is read before it,
    [t1] after it; a failing operation raises before the second reading. *)
Inductive timed (A : Type) :=
| TDone (t0 t1 : Q) (a : A)
| TFail (e : exn).
Arguments TDone {A} t0 t1 a.
Arguments TFail {A} e.

(** [t1 - t0], what the code appends or stores after a timed operation. *)
Definition duration {A} (t : timed A) : option Q :=
  match t with
  | TDone t0 t1 _ => Some (fsub t1 t0)
  | TFail _ => None
  end.

(** The values stored in [performance_output]. *)
Inductive pyval :=
| VFloat (x : Q)
| VInt (n : Z)
| VStr (s : string).

(** [requests.Response]: the final status and the statuses of the redirect
    responses that led to it ([Response.history], oldest first). *)
Record Response := { status_code : Z; history : list Z }.

(** ** statistics.mean

    [mean] adds the data as exact fractions, divides the sum by their
    number and converts the quotient to a float. *)

Definition Qsum (xs : list Q) : Q := foldr Qplus 0%Q xs.

Definition mean (xs : list Q) : result Q :=
  match xs with
  | [] => Raise StatisticsError
  | _ => Ok (round64 (Qsum xs / inject_Z (Z.of_nat (length xs))))
  end.

(** ** Events *)

(** Who performs an event inside one probe: the thread running the probe,
    or the [i]-th sample thread it started. *)
Inductive tid :=
| Prober
| Sampler (i : nat).

Inductive event :=
| EvResolve (host : string)                                   (* socket.gethostbyname *)
| EvConnect (ip : string) (port : Z) (i : nat)                (* s.connect((ip, port)) *)
| EvHead (url : string) (headers : gmap string string) (allow_redirects : bool)
| EvGet (url : string) (headers : gmap string string) (stream : bool) (i : nat)
| EvContent (i : nat)                                         (* response.content *)
| EvStart (i : nat)                                           (* Thread.start *)
| EvJoin (i : nat)                                            (* Thread.join *)
| EvMean (xs : list Q).                                       (* statistics.mean *)

Definition entry : Type := tid * event.

(** ** The world *)

Record World := {
  gethostbyname : string -> timed string;
  connect : string -> Z -> nat -> timed unit;
  requests_head : string -> gmap string string -> result Response;
  requests_get : string -> gmap string string -> nat -> timed Response;
  content : string -> nat -> timed unit
}.

(** ** Options (optparse) *)

Record Options := {
  hostname_file : option string;
  num_threads : Z;
  timeout : Z;
  json : bool;
  user_agent : option string;     (* None: the default, False *)
  test_threads : Z
}.

(** ** Sample fan-out

    Both fan-outs of the source have the same shape:
<<
    self.times = []; self.threads = []
    for test_thread in range(options.test_threads):
        [r = requests.get(...)]                  # content fan-out only
        t = threading.Thread(target=op); t.start(); self.threads.append(t)
    for thread in self.threads: thread.join()
    ... = mean(self.times)
>>
    [pre i] is what the starting thread does itself in iteration [i]
    before it starts the sample thread, [op i] the body of that thread.  A
    sample thread whose operation raises dies without appending. *)

Inductive fan_pc :=
| Starting                    (* in the first loop *)
| Joining (k : nat)           (* in the second loop, about to join thread k *)
| Returned (r : result Q).    (* past mean(...), or left by an exception *)

Record fan := {
  fan_threads : list bool;    (* self.*_threads; true once the thread ended *)
  fan_times : list Q;         (* self.*_times *)
  fan_log : list entry;
  fan_pc_of : fan_pc
}.

Section FanOut.
Variable N : nat.                              (* len(range(test_threads)) *)
Variable pre : nat -> result unit.
Variable pre_ev : nat -> list event.
Variable op : nat -> timed unit.
Variable op_ev : nat -> event.

Definition fan_init : fan :=
  {| fan_threads := []; fan_times := []; fan_log := []; fan_pc_of := Starting |}.

Definition tag (t : tid) (evs : list event) : list entry := (λ e, (t, e)) <$> evs.

(** One step of the thread that runs the fan-out; [None] when it is
    blocked in [join] or has left the fan-out. *)
Definition prober_step (s : fan) : option fan :=
  match fan_pc_of s with
  | Starting =>
      let i := length (fan_threads s) in
      if (i <? N)%nat then
        match pre i with
        | Raise e =>
            Some {| fan_threads := fan_threads s; fan_times := fan_times s;
                    fan_log := fan_log s ++ tag Prober (pre_ev i);
                    fan_pc_of := Returned (Raise e) |}
        | Ok _ =>
            Some {| fan_threads := fan_threads s ++ [false]; fan_times := fan_times s;
                    fan_log := fan_log s ++ tag Prober (pre_ev i ++ [EvStart i]);
                    fan_pc_of := Starting |}
        end
      else
        Some {| fan_threads := fan_threads s; fan_times := fan_times s;
                fan_log := fan_log s; fan_pc_of := Joining 0 |}
  | Joining k =>
      match fan_threads s !! k with
      | Some true =>
          Some {| fan_threads := fan_threads s; fan_times := fan_times s;
                  fan_log := fan_log s ++ [(Prober, EvJoin k)];
                  fan_pc_of := Joining (S k) |}
      | Some false => None
      | None =>
          Some {| fan_threads := fan_threads s; fan_times := fan_times s;
                  fan_log := fan_log s ++ [(Prober, EvMean (fan_times s))];
                  fan_pc_of := Returned (mean (fan_times s)) |}
      end
  | Returned _ => None
  end.

(** The whole body of sample thread [i], taken as one step: the timed
    operation and the append of [t1 - t0], a float subtraction. *)
Definition sampler_step (i : nat) (s : fan) : option fan :=
  match fan_threads s !! i with
  | Some false =>
      Some {| fan_threads := <[i := true]> (fan_threads s);
              fan_times := fan_times s ++ option_list (duration (op i));
              fan_log := fan_log s ++ [(Sampler i, op_ev i)];
              fan_pc_of := fan_pc_of s |}
  | _ => None
  end.

Definition fan_step (t : tid) (s : fan) : option fan :=
  match t with
  | Prober => prober_step s
  | Sampler i => sampler_step i s
  end.

(** A schedule names the thread to run next; a thread that cannot move
    is skipped. *)
Definition fan_exec (sched : list tid) (s : fan) : fan :=
  foldl (λ s t, default s (fan_step t s)) s sched.

(** Letting everything run to the end: the prober through its first
    loop, every sample thread, the prober through its second loop. *)
Definition drain : list tid :=
  replicate (S N) Prober ++ (Sampler <$> seq 0 N) ++ replicate (S N) Prober.

Definition fan_out (sched : list tid) : fan := fan_exec (sched ++ drain) fan_init.

(** What the fan-out leaves to its caller.  [fan_out] always ends in
    [Returned] (lemma [fan_out_returns]), so the last branch is never
    taken. *)
Definition fan_result (s : fan) : result Q :=
  match fan_pc_of s with
  | Returned r => r
  | _ => mean (fan_times s)
  end.
End FanOut.

(** ** TestPerformance: the probe of one host *)

Record TestPerformance := {
  hostname : string;
  performance_output : gmap string pyval;
  c_header : gmap string string;
  ip_address : string
}.

Definition set_output (o : TestPerformance) (k : string) (v : pyval) : TestPerformance :=
  {| hostname := hostname o;
     performance_output := <[k := v]> (performance_output o);
     c_header := c_header o;
     ip_address := ip_address o |}.

(** What the scheduler and the clock decide for one step of a worker: the
    reading of [time.time()] in the timeout check, and the interleaving of
    the sample threads of the two fan-outs. *)
Record choice := {
  now : Q;
  tcp_sched : list tid;
  content_sched : list tid
}.

Section Probe.
Variable w : World.
Variable options : Options.

(** [range(options.test_threads)] *)
Definition samples : nat := Z.to_nat (test_threads options).

(** [TestPerformance.__init__] *)
Definition init (host : string) : list entry * result TestPerformance :=
  let c_header0 : gmap string string := {[ "host" := host ]} in
  let c_header1 :=
    match user_agent options with
    | Some (String a ua) => <["User-agent" := String a ua]> c_header0
    | _ => c_header0          (* False, or the empty string: falsy *)
    end in
  match gethostbyname w host with
  | TFail e => ([(Prober, EvResolve host)], Raise e)
  | TDone dns_start dns_end ip =>
      ([(Prober, EvResolve host)],
       Ok {| hostname := host;
             performance_output :=
               <["IP of Domain" := VStr ip]>
                 (<["DNS Time" := VFloat (fsub dns_end dns_start)]> ∅);
             c_header := c_header1;
             ip_address := ip |})
  end.

(** [tcp_time]: the operation of a TCP sample thread; the append of
    [tcp_end - tcp_start] is in [sampler_step]. *)
Definition tcp_time (o : TestPerformance) (i : nat) : timed unit :=
  connect w (ip_address o) 80 i.

Definition ip_to_url (o : TestPerformance) : string :=
  "http://" +:+ ip_address o +:+ "/".

(** [time_content]: the operation of a content sample thread.  Its
    argument is the response of the [i]-th GET. *)
Definition time_content (o : TestPerformance) (i : nat) : timed unit :=
  content w (ip_to_url o) i.

(** The [requests.get(..., stream=True)] the probing thread issues in
    iteration [i] of the content loop, before it starts the thread. *)
Definition get_stream (o : TestPerformance) (i : nat) : result unit :=
  match requests_get w (ip_to_url o) (c_header o) i with
  | TDone _ _ _ => Ok ()
  | TFail e => Raise e
  end.

Definition content_fan (o : TestPerformance) (sched : list tid) : fan :=
  fan_out samples (get_stream o)
    (λ i, [EvGet (ip_to_url o) (c_header o) true i])
    (time_content o) EvContent sched.

(** [get_http] *)
Definition get_http (o : TestPerformance) (sched : list tid)
  : list entry * (TestPerformance * result unit) :=
  let head_ev := (Prober, EvHead (ip_to_url o) (c_header o) true) in
  match requests_head w (ip_to_url o) (c_header o) with
  | Raise e => ([head_ev], (o, Raise e))
  | Ok host_head =>
      let host_code := status_code host_head in
      let o1 := set_output o "HTTP Response Code" (VInt host_code) in
      let o2 := set_output o1 "Number of Redirects"
                  (VInt (Z.of_nat (length (history host_head)))) in
      if (host_code =? 200)%Z then
        let f := content_fan o sched in
        match fan_result f with
        | Raise e => (head_ev :: fan_log f, (o2, Raise e))
        | Ok m =>
            (head_ev :: fan_log f,
             (set_output o2 "Average Content Load Time" (VFloat m), Ok ()))
        end
      else ([head_ev], (o2, Ok ()))
  end.

Definition tcp_fan (o : TestPerformance) (sched : list tid) : fan :=
  fan_out samples (λ _, Ok ()) (λ _, [])
    (tcp_time o) (EvConnect (ip_address o) 80) sched.

(** [test_all] *)
Definition test_all (o : TestPerformance) (c : choice)
  : list entry * (TestPerformance * result unit) :=
  let f := tcp_fan o (tcp_sched c) in
  match fan_result f with
  | Raise e => (fan_log f, (o, Raise e))
  | Ok m =>
      let o1 := set_output o "Average TCP Time" (VFloat m) in
      let '(l, r) := get_http o1 (content_sched c) in
      (fan_log f ++ l, r)
  end.

(** The first two lines of [do_work]: build the object, run [test_all];
    the value is the [performance_output] that the third line stores. *)
Definition probe (host : string) (c : choice)
  : list entry * result (gmap string pyval) :=
  match init host with
  | (l, Raise e) => (l, Raise e)
  | (l, Ok o) =>
      match test_all o c with
      | (l', (o', Ok _)) => (l ++ l', Ok (performance_output o'))
      | (l', (_, Raise e)) => (l ++ l', Raise e)
      end
  end.
End Probe.

(** ** The queue workers and the coordinator *)

(** Where a worker thread is in [worker]. *)
Inductive wstate :=
| WHead                                         (* top of the loop: the timeout check *)
| WGet                                          (* in q.get() *)
| WWork (h : string)                            (* do_work(h): before the probe *)
| WStore (h : string) (out : gmap string pyval) (* about to assign host_perfs[h] *)
| WTaskDone (h : string)                        (* about to call q.task_done() *)
| WBroke                                        (* got None: left the loop *)
| WDied (h : string) (e : exn)                  (* an exception left do_work(h) *)
| WCrashed (e : exn).                           (* an exception left the timeout check *)

(** Where the main thread is in [main], from the start of the workers on. *)
Inductive mstate :=
| MStart                       (* starting the workers *)
| MPut (rest : list string)    (* q.put(item) for the remaining items *)
| MJoinQ                       (* q.join() *)
| MPoison (k : nat)            (* q.put(None), k done *)
| MJoinT (k : nat)             (* t.join(), k done *)
| MDone.                       (* past the joins: the results are written out *)

Inductive pool_event :=
| PCheck (wk : nat) (t : Q)                            (* the check read the clock *)
| PExit (wk : nat)                                     (* print(...); os._exit(1) *)
| PGet (wk : nat) (item : option string)               (* q.get() returned *)
| PProbe (wk : nat) (h : string) (log : list entry)    (* what the probe of h did *)
| PStore (wk : nat) (h : string) (out : gmap string pyval)
| PTaskDone (wk : nat).

Record pool := {
  q : list (option string);          (* queue.Queue: the items *)
  unfinished_tasks : nat;            (* queue.Queue.unfinished_tasks *)
  threads : list wstate;
  host_perfs : gmap string (gmap string pyval);
  trace : list pool_event;
  main_pc : mstate;
  exited : bool                      (* os._exit(1) was called *)
}.

Inductive actor :=
| AMain
| AWorker (wk : nat) (c : choice).

Definition Qltb (x y : Q) : bool := negb (Qle_bool y x).

Definition joinable (st : wstate) : bool :=
  match st with
  | WBroke | WDied _ _ | WCrashed _ => true
  | _ => false
  end.

(** The timeout check at the top of the loop of [worker]:
<<
    if options.timeout:
        try:
            if z_s + options.timeout < time.time():
                raise TimeoutError
        except TimeoutError:
            print(...); os._exit(1)
>>
    The sum is evaluated first: the integer is converted to a float, which
    raises [OverflowError] when it is too large, and added to [z_s]; the
    clock is read after that.  Nothing catches the [OverflowError]. *)
Inductive check :=
| Skipped                (* options.timeout is 0 *)
| Fired                  (* TimeoutError: os._exit(1) *)
| Passed                 (* the comparison is false *)
| Broken (e : exn).      (* the sum raised *)

Definition timeout_check (options : Options) (z_s now : Q) : check :=
  if (timeout options =? 0)%Z then Skipped
  else match float_of_int (timeout options) with
       | Raise e => Broken e
       | Ok t => if Qltb (fadd z_s t) now then Fired else Passed
       end.

Section Pool.
Variable w : World.
Variable options : Options.
Variable z_s : Q.                   (* time.time() at the start of main *)
Variable host_list : list string.

Definition pool_init : pool :=
  {| q := []; unfinished_tasks := 0; threads := []; host_perfs := ∅;
     trace := []; main_pc := MStart; exited := false |}.

(** The worker moves to state [st]. *)
Definition goes (wk : nat) (st : wstate) (evs : list pool_event) (s : pool) : pool :=
  {| q := q s; unfinished_tasks := unfinished_tasks s;
     threads := <[wk := st]> (threads s); host_perfs := host_perfs s;
     trace := trace s ++ evs; main_pc := main_pc s; exited := exited s |}.

(** The main thread moves to [pc]. *)
Definition main_goes (pc : mstate) (s : pool) : pool :=
  {| q := q s; unfinished_tasks := unfinished_tasks s;
     threads := threads s; host_perfs := host_perfs s;
     trace := trace s; main_pc := pc; exited := exited s |}.

(** [q.put(item)] *)
Definition put (item : option string) (s : pool) : pool :=
  {| q := q s ++ [item]; unfinished_tasks := S (unfinished_tasks s);
     threads := threads s; host_perfs := host_perfs s;
     trace := trace s; main_pc := main_pc s; exited := exited s |}.

(** One step of worker [wk]; [None] when it is blocked in [q.get()], has
    ended, or the process has exited. *)
Definition worker_step (wk : nat) (c : choice) (s : pool) : option pool :=
  if exited s then None else
  match threads s !! wk with
  | Some WHead =>
      match timeout_check options z_s (now c) with
      | Skipped => Some (goes wk WGet [] s)
      | Fired =>
          Some {| q := q s; unfinished_tasks := unfinished_tasks s;
                  threads := threads s; host_perfs := host_perfs s;
                  trace := trace s ++ [PCheck wk (now c); PExit wk];
                  main_pc := main_pc s; exited := true |}
      | Passed => Some (goes wk WGet [PCheck wk (now c)] s)
      | Broken e => Some (goes wk (WCrashed e) [] s)
      end
  | Some WGet =>
      match q s with
      | [] => None
      | item :: rest =>
          let st := match item with Some h => WWork h | None => WBroke end in
          Some {| q := rest; unfinished_tasks := unfinished_tasks s;
                  threads := <[wk := st]> (threads s); host_perfs := host_perfs s;
                  trace := trace s ++ [PGet wk item];
                  main_pc := main_pc s; exited := exited s |}
      end
  | Some (WWork h) =>
      match probe w options h c with
      | (l, Ok out) => Some (goes wk (WStore h out) [PProbe wk h l] s)
      | (l, Raise e) => Some (goes wk (WDied h e) [PProbe wk h l] s)
      end
  | Some (WStore h out) =>
      Some {| q := q s; unfinished_tasks := unfinished_tasks s;
              threads := <[wk := WTaskDone h]> (threads s);
              host_perfs := <[h := out]> (host_perfs s);
              trace := trace s ++ [PStore wk h out];
              main_pc := main_pc s; exited := exited s |}
  | Some (WTaskDone h) =>
      Some {| q := q s; unfinished_tasks := Nat.pred (unfinished_tasks s);
              threads := <[wk := WHead]> (threads s);
              host_perfs := host_perfs s;
              trace := trace s ++ [PTaskDone wk];
              main_pc := main_pc s; exited := exited s |}
  | _ => None
  end.

(** One step of the main thread; [None] when it is blocked in a join, is
    done, or the process has exited. *)
Definition main_step (s : pool) : option pool :=
  if exited s then None else
  match main_pc s with
  | MStart =>
      if (length (threads s) <? Z.to_nat (num_threads options))%nat then
        Some {| q := q s; unfinished_tasks := unfinished_tasks s;
                threads := threads s ++ [WHead]; host_perfs := host_perfs s;
                trace := trace s; main_pc := MStart; exited := exited s |}
      else Some (main_goes (MPut host_list) s)
  | MPut (item :: rest) => Some (main_goes (MPut rest) (put (Some item) s))
  | MPut [] => Some (main_goes MJoinQ s)
  | MJoinQ =>
      match unfinished_tasks s with
      | O => Some (main_goes (MPoison 0) s)
      | S _ => None
      end
  | MPoison k =>
      if (k <? Z.to_nat (num_threads options))%nat
      then Some (main_goes (MPoison (S k)) (put None s))
      else Some (main_goes (MJoinT 0) s)
  | MJoinT k =>
      match threads s !! k with
      | Some st => if joinable st then Some (main_goes (MJoinT (S k)) s) else None
      | None => Some (main_goes MDone s)
      end
  | MDone => None
  end.

Definition pool_step (a : actor) (s : pool) : option pool :=
  match a with
  | AMain => main_step s
  | AWorker wk c => worker_step wk c s
  end.

Definition pool_exec (sched : list actor) (s : pool) : pool :=
  foldl (λ s a, default s (pool_step a s)) s sched.

Definition run (sched : list actor) : pool := pool_exec sched pool_init.
End Pool.

(** ** main: reading the configuration *)

(** [str.isspace], on the UTF-8 encoding of a character: the characters
    U+0009 to U+000D, U+001C to U+0020 in one byte; U+0085 and U+00A0 in
    two; U+1680, U+2000 to U+200A, U+2028, U+2029, U+202F, U+205F and
    U+3000 in three. *)
Definition ord (a : Ascii.ascii) : N := Ascii.N_of_ascii a.

Definition is_space1 (c : Ascii.ascii) : bool :=
  ((9 <=? ord c) && (ord c <=? 13) || (28 <=? ord c) && (ord c <=? 32))%N.

Definition is_space2 (b c : Ascii.ascii) : bool :=
  ((ord b =? 194) && ((ord c =? 133) || (ord c =? 160)))%N.

Definition is_space3 (a b c : Ascii.ascii) : bool :=
  ((ord a =? 225) && (ord b =? 154) && (ord c =? 128)
   || (ord a =? 226) && (ord b =? 128) &&
        ((128 <=? ord c) && (ord c <=? 138) ||
         (ord c =? 168) || (ord c =? 169) || (ord c =? 175))
   || (ord a =? 226) && (ord b =? 129) && (ord c =? 159)
   || (ord a =? 227) && (ord b =? 128) && (ord c =? 128))%N.

(** [str.rstrip()] on the bytes in reverse order. *)
Fixpoint rstrip_rev (r : list Ascii.ascii) : list Ascii.ascii :=
  match r with
  | [] => []
  | c :: r1 =>
      if is_space1 c then rstrip_rev r1 else
      match r1 with
      | [] => r
      | b :: r2 =>
          if is_space2 b c then rstrip_rev r2 else
          match r2 with
          | [] => r
          | a :: r3 => if is_space3 a b c then rstrip_rev r3 else r
          end
      end
  end.

(** [str.rstrip()] *)
Definition rstrip (s : string) : string :=
  String.string_of_list_ascii (rev (rstrip_rev (rev (String.list_ascii_of_string s)))).

(** Reading the host file:
<<
    with open(options.hostname_file) as f:
        for hostname in f:
            host_list.append(hostname.rstrip())
>>
    [fs] gives the lines of a file that can be opened and read, and the
    exception otherwise. *)
Definition read_hosts (fs : string -> result (list string)) (options : Options)
  : result (list string) :=
  match hostname_file options with
  | None => Raise TypeError
  | Some name =>
      match fs name with
      | Raise e => Raise e
      | Ok lines => Ok (rstrip <$> lines)
      end
  end.

(** [main], up to the end of the joins.  [parse_args] is what
    [parser.parse_args()] gives for the command line: the options, or the
    exit of a command line that [optparse] rejects, as it does a value of
    [-t], [-o] or [-T] that is not an integer.  Between it and the start
    of the workers [main] reads the host file, and nothing else. *)
Definition main (w : World) (parse_args : result Options)
    (fs : string -> result (list string)) (z_s : Q) (sched : list actor)
  : result pool :=
  match parse_args with
  | Raise e => Raise e
  | Ok options =>
      match read_hosts fs options with
      | Raise e => Raise e
      | Ok host_list => Ok (run w options z_s host_list sched)
      end
  end.

(** ** Invariants of the fan-out *)

Definition sampler_of (e : entry) : option nat :=
  match e.1 with
  | Sampler i => Some i
  | Prober => None
  end.

(** The sample threads that have ended, in the order in which they did. *)
Definition done_order (s : fan) : list nat := omap sampler_of (fan_log s).

Definition prober_of (e : entry) : option event :=
  match e.1 with
  | Prober => Some e.2
  | Sampler _ => None
  end.

(** What the thread that runs the fan-out did itself, in order. *)
Definition prober_log (s : fan) : list event := omap prober_of (fan_log s).

Section FanInv.
Variable N : nat.
Variable pre : nat -> result unit.
Variable pre_ev : nat -> list event.
Variable op : nat -> timed unit.
Variable op_ev : nat -> event.

Definition all_ended (s : fan) : Prop :=
  length (fan_threads s) = N ∧ ∀ j, (j < N)%nat → fan_threads s !! j = Some true.

(** The events of [n] iterations of the first loop, of [k] of the second. *)
Definition starts (n : nat) : list event := seq 0 n ≫= λ i, pre_ev i ++ [EvStart i].
Definition joins (k : nat) : list event := EvJoin <$> seq 0 k.

Definition fan_inv (s : fan) : Prop :=
  (length (fan_threads s) ≤ N)%nat ∧
  (∀ j, (j < length (fan_threads s))%nat → pre j = Ok ()) ∧
  NoDup (done_order s) ∧
  (∀ i, i ∈ done_order s ↔ fan_threads s !! i = Some true) ∧
  fan_times s = omap (λ i, duration (op i)) (done_order s) ∧
  (∀ i e, (Sampler i, e) ∈ fan_log s → e = op_ev i) ∧
  match fan_pc_of s with
  | Starting => prober_log s = starts (length (fan_threads s))
  | Joining k =>
      length (fan_threads s) = N ∧ (k ≤ N)%nat ∧
      (∀ j, (j < k)%nat → fan_threads s !! j = Some true) ∧
      prober_log s = starts N ++ joins k
  | Returned r =>
      (∃ e, r = Raise e ∧ (length (fan_threads s) < N)%nat ∧
            pre (length (fan_threads s)) = Raise e ∧
            prober_log s = starts (length (fan_threads s)) ++
                           pre_ev (length (fan_threads s))) ∨
      (all_ended s ∧ r = mean (fan_times s) ∧
       (∃ l, fan_log s = l ++ [(Prober, EvMean (fan_times s))] ∧
             omap sampler_of l ≡ₚ seq 0 N) ∧
       prober_log s = starts N ++ joins N ++ [EvMean (fan_times s)])
  end.
End FanInv.


(** ** Vocabulary of the statements *)

(** The durations of the samples that succeed, in the order in which the
    sample threads are started. *)
Definition successes (N : nat) (op : nat -> timed unit) : list Q :=
  omap (λ i, duration (op i)) (seq 0 N).

Definition tcp_successes (w : World) (options : Options) (o : TestPerformance) : list Q :=
  successes (samples options) (tcp_time w o).

Definition content_successes (w : World) (options : Options) (o : TestPerformance) : list Q :=
  successes (samples options) (time_content w o).

(** [x] is a float. *)
Definition is_float (x : Q) : Prop := (round64 x == x)%Q.

(** [m] is what [statistics.mean] gives for the non-empty [xs]: their
    arithmetic mean, rounded to the nearest float. *)
Definition is_mean (m : Q) (xs : list Q) : Prop :=
  xs ≠ [] ∧ (m == round64 (Qsum xs / inject_Z (Z.of_nat (length xs))))%Q.

Definition is_head (e : entry) : bool :=
  match e.2 with EvHead _ _ _ => true | _ => false end.

Definition is_connect (e : entry) : bool :=
  match e.2 with EvConnect _ _ _ => true | _ => false end.

Definition is_get (e : entry) : bool :=
  match e.2 with EvGet _ _ _ _ => true | _ => false end.

Definition is_content (e : entry) : bool :=
  match e.2 with EvContent _ => true | _ => false end.

(** The events a fan-out with these parameters can log. *)
Definition fan_event (pre_ev : nat -> list event) (op_ev : nat -> event) (e : event) : Prop :=
  (∃ i, e ∈ pre_ev i) ∨ (∃ i, e = EvStart i) ∨ (∃ k, e = EvJoin k) ∨
  (∃ xs, e = EvMean xs) ∨ (∃ i, e = op_ev i).


(** ** A model of the redirect handling of [requests]

    [requests] is not part of this repository; [get_http] only reads
    [status_code] and [len(history)] of what [requests.head(...,
    allow_redirects=True)] returns.  To run [get_http] against a server
    that answers with redirects, this follows the library's documented
    behaviour: a response with a [Location] header and status 301, 302,
    303, 307 or 308 is followed, every followed response is appended to
    [history], and more than 30 redirects raise [TooManyRedirects]. *)

Record RawResponse := { raw_status : Z; raw_location : option string }.

Definition is_redirect_status (st : Z) : bool :=
  bool_decide (st ∈ [301; 302; 303; 307; 308]).

Fixpoint resolve_redirects (fuel : nat) (server : string -> result RawResponse)
    (url : string) (hist : list Z) : result Response :=
  match server url with
  | Raise e => Raise e
  | Ok r =>
      match raw_location r with
      | Some url' =>
          if is_redirect_status (raw_status r) then
            match fuel with
            | O => Raise TooManyRedirects
            | S fuel' => resolve_redirects fuel' server url' (hist ++ [raw_status r])
            end
          else Ok {| status_code := raw_status r; history := hist |}
      | None => Ok {| status_code := raw_status r; history := hist |}
      end
  end.

Definition requests_over (server : string -> result RawResponse)
    (url : string) (headers : gmap string string) : result Response :=
  resolve_redirects 30 server url [].

(** ** Worlds and options of the examples *)

Definition opts (workers tests limit : Z) : Options :=
  {| hostname_file := Some "hosts.txt"; num_threads := workers; timeout := limit;
     json := false; user_agent := None; test_threads := tests |}.

Definition ok200 : Response := {| status_code := 200; history := [] |}.

(** Every name but [bad.example] resolves, to 10.0.0.1, in 0.125 s.  The
    clock readings of the examples are floats. *)
Definition mk_world (tcp : nat -> timed unit) (head : string -> gmap string string -> result Response)
    (get : nat -> timed Response) (body : nat -> timed unit) : World :=
  {| gethostbyname h :=
       if String.eqb h "bad.example" then TFail gaierror else TDone 0 (1 # 8) "10.0.0.1";
     connect _ _ i := tcp i;
     requests_head := head;
     requests_get _ _ i := get i;
     content _ i := body i |}.

(** TCP sample [i] takes [(i+1)/8] s; HEAD answers 200; a GET takes 5 s
    until the response headers are in, its body 1 s more. *)
Definition world_ok : World :=
  mk_world (λ i, TDone 0 (Z.of_nat (S i) # 8) ())
           (λ _ _, Ok ok200)
           (λ _, TDone 0 5 ok200)
           (λ _, TDone 5 6 ()).

(** TCP sample [i] takes the float nearest to [(i+1)/10] s. *)
Definition world_tenths : World :=
  mk_world (λ i, TDone 0 (round64 (Z.of_nat (S i) # 10)) ())
           (λ _ _, Ok ok200)
           (λ _, TDone 0 5 ok200)
           (λ _, TDone 5 6 ()).

(** Every TCP connect is refused. *)
Definition world_no_tcp : World :=
  mk_world (λ _, TFail OSError) (λ _ _, Ok ok200)
           (λ _, TDone 0 5 ok200) (λ _, TDone 5 6 ()).

(** HEAD answers 200 but every body read fails. *)
Definition world_no_content : World :=
  mk_world (λ i, TDone 0 (Z.of_nat (S i) # 8) ()) (λ _ _, Ok ok200)
           (λ _, TDone 0 5 ok200) (λ _, TFail RequestException).

(** The second GET of the content loop fails. *)
Definition world_get_fails : World :=
  mk_world (λ i, TDone 0 (Z.of_nat (S i) # 8) ()) (λ _ _, Ok ok200)
           (λ i, match i with 1%nat => TFail RequestException | _ => TDone 0 5 ok200 end)
           (λ _, TDone 5 6 ()).

(** A server that chains three redirects to a final 200. *)
Definition chain3 (url : string) : result RawResponse :=
  if String.eqb url "http://10.0.0.1/" then Ok {| raw_status := 301; raw_location := Some "http://a/" |}
  else if String.eqb url "http://a/" then Ok {| raw_status := 302; raw_location := Some "http://b/" |}
  else if String.eqb url "http://b/" then Ok {| raw_status := 307; raw_location := Some "http://c/" |}
  else Ok {| raw_status := 200; raw_location := None |}.

Definition world_redirects : World :=
  mk_world (λ i, TDone 0 (Z.of_nat (S i) # 8) ()) (requests_over chain3)
           (λ _, TDone 0 5 ok200) (λ _, TDone 5 6 ()).

(** A server that answers 500. *)
Definition world_500 : World :=
  mk_world (λ i, TDone 0 (Z.of_nat (S i) # 8) ())
           (λ _ _, Ok {| status_code := 500; history := [] |})
           (λ _, TDone 0 5 ok200) (λ _, TDone 5 6 ()).

Definition no_choice : choice := {| now := 0; tcp_sched := []; content_sched := [] |}.


(** The operation of a content sample as the specification words it:
    "start a new streaming GET and measure time until the full response
    body is consumed".  The clock is read before the GET is started and
    after the body has been consumed. *)
Definition spec_content_sample (w : World) (o : TestPerformance) (i : nat) : option Q :=
  match requests_get w (ip_to_url o) (c_header o) i, content w (ip_to_url o) i with
  | TDone get_start _ _, TDone _ body_end _ => Some (fsub body_end get_start)
  | _, _ => None
  end.

(** The object [__init__] builds for [good.example] in the example worlds. *)
Definition good_object : TestPerformance :=
  {| hostname := "good.example";
     performance_output :=
       <["IP of Domain" := VStr "10.0.0.1"]> (<["DNS Time" := VFloat (fsub (1 # 8) 0)]> ∅);
     c_header := {[ "host" := "good.example" ]};
     ip_address := "10.0.0.1" |}.

Definition hosts_txt (lines : list string) (name : string) : result (list string) :=
  if String.eqb name "hosts.txt" then Ok lines else Raise FileNotFoundError.


Definition nl : string := String (Ascii.ascii_of_nat 10) EmptyString.


(** ** Invariants of the pool *)

(** The hostnames [main] has still to put into the queue. *)
Definition to_put (host_list : list string) (m : mstate) : list string :=
  match m with
  | MStart => host_list
  | MPut rest => rest
  | _ => []
  end.

(** The hostnames in the queue. *)
Definition queued (q : list (option string)) : list string := omap id q.

(** The hostname a worker has taken from the queue and not stored. *)
Definition holds (st : wstate) : list string :=
  match st with
  | WWork h | WStore h _ | WDied h _ => [h]
  | _ => []
  end.

(** A worker owes a [task_done] for an item it got and has not marked. *)
Definition owed (st : wstate) : nat :=
  match st with
  | WWork _ | WStore _ _ | WTaskDone _ | WDied _ _ => 1
  | _ => 0
  end.

(** The keys of the assignments to [host_perfs], in order. *)
Definition store_key (e : pool_event) : option string :=
  match e with
  | PStore _ h _ => Some h
  | _ => None
  end.

Definition stored (tr : list pool_event) : list string := omap store_key tr.

(** Number of occurrences. *)
Fixpoint occ (h : string) (l : list string) : nat :=
  match l with
  | [] => 0
  | x :: l' => (if decide (x = h) then 1 else 0) + occ h l'
  end.

Definition total (f : wstate -> nat) (ts : list wstate) : nat := sum_list_with f ts.

(** [main] has not come back from [q.join()]. *)
Definition dispatching (m : mstate) : bool :=
  match m with
  | MStart | MPut _ | MJoinQ => true
  | _ => false
  end.

(** Every input hostname is in one place: stored, held by a worker, in the
    queue, or still to be put; [unfinished_tasks] counts the items put and
    not marked done; the keys of [host_perfs] are those assigned. *)
Definition accounted (host_list : list string) (s : pool) : Prop :=
  (∀ h, (occ h (stored (trace s)) + total (λ st, occ h (holds st)) (threads s) +
         occ h (queued (q s)) + occ h (to_put host_list (main_pc s)))%nat
        = occ h host_list) ∧
  (if dispatching (main_pc s)
   then unfinished_tasks s = (length (queued (q s)) + total owed (threads s))%nat
   else queued (q s) = [] ∧ total owed (threads s) = 0%nat) ∧
  dom (host_perfs s) = list_to_set (stored (trace s)).

(** What is stored came out of a probe that ran to its end, earlier and
    in the same worker. *)
Definition stored_ok (w : World) (options : Options) (s : pool) : Prop :=
  (∀ i wk h out, trace s !! i = Some (PStore wk h out) →
     ∃ c l j, probe w options h c = (l, Ok out) ∧ (j < i)%nat ∧
              trace s !! j = Some (PProbe wk h l)) ∧
  (∀ wk h out, threads s !! wk = Some (WStore h out) →
     ∃ c l j, probe w options h c = (l, Ok out) ∧
              trace s !! j = Some (PProbe wk h l)) ∧
  (∀ h out, host_perfs s !! h = Some out →
     ∃ i wk, trace s !! i = Some (PStore wk h out)).

(** The five fields every stored record has. *)
Definition complete (out : gmap string pyval) : Prop :=
  (∃ x, out !! "DNS Time" = Some (VFloat x)) ∧
  (∃ ip, out !! "IP of Domain" = Some (VStr ip)) ∧
  (∃ m, out !! "Average TCP Time" = Some (VFloat m)) ∧
  (∃ st, out !! "HTTP Response Code" = Some (VInt st)) ∧
  (∃ n, out !! "Number of Redirects" = Some (VInt n)).


(** A schedule under which one worker serves a queue of up to two hosts
    and the run ends: every step that is not enabled is skipped. *)
Definition one_worker_sched : list actor :=
  replicate 6 AMain ++ replicate 12 (AWorker 0 no_choice) ++
  replicate 4 AMain ++ replicate 2 (AWorker 0 no_choice) ++ replicate 3 AMain.


(** ** main: the name of the JSON file

    With [-j] the results go to a file named after the host file:
<<
    s_name = options.hostname_file.split('.')
    if len(s_name) > 1: j_name = ".".join(s_name[:-1])
    else:               j_name = s_name[0]
    ... open(j_name + '_results.json', 'w')
>> *)

Definition is_dot (a : Ascii.ascii) : bool := Ascii.eqb a (Ascii.ascii_of_nat 46).

(** [s.split('.')]: never empty; two dots in a row give an empty piece. *)
Fixpoint split_dot (s : string) : list string :=
  match s with
  | EmptyString => [EmptyString]
  | String a s' =>
      if is_dot a then EmptyString :: split_dot s'
      else match split_dot s' with
           | piece :: pieces => String a piece :: pieces
           | [] => [String a EmptyString]
           end
  end.

(** ['.'.join(pieces)] *)
Fixpoint join_dot (pieces : list string) : string :=
  match pieces with
  | [] => EmptyString
  | [piece] => piece
  | piece :: rest => piece +:+ "." +:+ join_dot rest
  end.

Definition json_name (hostname_file : string) : string :=
  let s_name := split_dot hostname_file in
  let j_name :=
    if (1 <? length s_name)%nat
    then join_dot (take (length s_name - 1) s_name)     (* s_name[:-1] *)
    else default EmptyString (head s_name) in           (* s_name[0] *)
  j_name +:+ "_results.json".

(** A string with a dot in it. *)
Fixpoint has_dot (s : string) : bool :=
  match s with
  | EmptyString => false
  | String a s' => is_dot a || has_dot s'
  end.


(** ** Outcomes up to the value of a mean

    The mean of the same samples, collected in different orders, is the
    same number; floats are compared as numbers. *)

Definition val_equiv (v v' : pyval) : Prop :=
  match v, v' with
  | VFloat x, VFloat y => (x == y)%Q
  | _, _ => v = v'
  end.

Definition out_equiv (out out' : gmap string pyval) : Prop :=
  ∀ k, option_Forall2 val_equiv (out !! k) (out' !! k).

Definition outcome_equiv (r r' : result (gmap string pyval)) : Prop :=
  match r, r' with
  | Ok out, Ok out' => out_equiv out out'
  | Raise e, Raise e' => e = e'
  | _, _ => False
  end.


(** ** Invariants of the end of the run *)

(** What [main] has joined has ended, and once [main] is past the joins
    every worker has; a process that has exited is not past the joins. *)
Definition joined_ok (s : pool) : Prop :=
  match main_pc s with
  | MJoinT k => ∀ j st, (j < k)%nat → threads s !! j = Some st → joinable st = true
  | MDone => ∀ j st, threads s !! j = Some st → joinable st = true
  | _ => True
  end ∧
  (exited s = true → main_pc s ≠ MDone).

Definition broke (st : wstate) : nat :=
  match st with
  | WBroke => 1
  | _ => 0
  end.

(** The number of [None] items [main] has put. *)
Definition poisoned (K : nat) (m : mstate) : nat :=
  match m with
  | MPoison k => k
  | MJoinT _ | MDone => K
  | _ => 0
  end.

(** [K] workers are started; no [None] is in the queue before [q.join()]
    returns; afterwards each [None] put is in the queue or has ended a
    worker, and none is ever marked done. *)
Definition sentinel_inv (K : nat) (s : pool) : Prop :=
  (length (threads s) ≤ K)%nat ∧
  (main_pc s ≠ MStart → length (threads s) = K) ∧
  match main_pc s with MPoison k => (k ≤ K)%nat | _ => True end ∧
  if dispatching (main_pc s)
  then length (queued (q s)) = length (q s) ∧ total broke (threads s) = 0%nat
  else (length (q s) + total broke (threads s))%nat = poisoned K (main_pc s) ∧
       unfinished_tasks s = poisoned K (main_pc s).


(** ** A schedule under which the run comes to its end

    [main] runs until it waits in [q.join()]; worker 0 serves the whole
    queue, five steps an item; [main] puts the [None] items; every worker
    takes one and leaves; [main] joins them. *)
Definition serve_all (K n : nat) (c : choice) : list actor :=
  replicate K AMain ++ [AMain] ++              (* the workers are started *)
  replicate n AMain ++ [AMain] ++              (* the items are put; q.join() *)
  replicate (5 * n) (AWorker 0 c) ++           (* worker 0 serves the queue *)
  [AMain] ++ replicate K AMain ++ [AMain] ++   (* q.join() returns; the Nones *)
  (seq 0 K ≫= λ i, [AWorker i c; AWorker i c]) ++   (* every worker leaves *)
  replicate (S K) AMain.                       (* the joins *)

(** The state of the pool, but for its trace. *)
Definition state_is (qv : list (option string)) (u : nat) (ts : list wstate)
    (hp : gmap string (gmap string pyval)) (pc : mstate) (s : pool) : Prop :=
  q s = qv ∧ unfinished_tasks s = u ∧ threads s = ts ∧ host_perfs s = hp ∧
  main_pc s = pc ∧ exited s = false.

(** The record the probe of [h] gives under [c]. *)
Definition out_of (w : World) (options : Options) (c : choice) (h : string)
  : gmap string pyval :=
  match (probe w options h c).2 with
  | Ok out => out
  | Raise _ => ∅
  end.

Definition stored_all (w : World) (options : Options) (c : choice)
    (hosts : list string) (hp : gmap string (gmap string pyval))
  : gmap string (gmap string pyval) :=
  foldl (λ m h, <[h := out_of w options c h]> m) hp hosts.

(** The first [i] of [K] workers have left their loop, the others are at
    the top of it. *)
Definition breaks (K i : nat) (ts : list wstate) : Prop :=
  length ts = K ∧
  ∀ j, (j < K)%nat → ts !! j = Some (if decide (j < i)%nat then WBroke else WHead).

(** * Properties *)

(** ** Floats *)

Lemma pow2_pos e : (0 < pow2 e)%Q.
Proof. apply Qpower_0_lt. reflexivity. Qed.

Lemma pow2_add a b : (pow2 (a + b) == pow2 a * pow2 b)%Q.
Proof. apply Qpower_plus. discriminate. Qed.

Lemma pow2_le a b : a <= b -> (pow2 a <= pow2 b)%Q.
Proof. intros H. apply Qpower_le_compat_l; [exact H | discriminate]. Qed.

Lemma pow2_lt a b : a < b -> (pow2 a < pow2 b)%Q.
Proof. intros H. apply Qpower_lt_compat_l; [exact H | reflexivity]. Qed.

Lemma pow2_lt_inv a b : (pow2 a < pow2 b)%Q -> a < b.
Proof. intros H. apply (Qpower_lt_compat_l_inv 2); [exact H | reflexivity]. Qed.

Lemma pow2_Z n : 0 <= n -> (pow2 n == inject_Z (2 ^ n))%Q.
Proof. intros H. unfold pow2. rewrite Zpower_Qpower by exact H. reflexivity. Qed.

Lemma pow2_sub a b : (pow2 (a - b) == pow2 a / pow2 b)%Q.
Proof.
  unfold Z.sub. rewrite pow2_add. unfold pow2. rewrite Qpower_opp. reflexivity.
Qed.

(** multiplying and dividing by a power of two *)
Lemma div_pow2_le x y e : (x <= y * pow2 e)%Q -> (x / pow2 e <= y)%Q.
Proof. intros H. apply Qle_shift_div_r; [apply pow2_pos | exact H]. Qed.

Lemma div_pow2_ge x y e : (y * pow2 e <= x)%Q -> (y <= x / pow2 e)%Q.
Proof. intros H. apply Qle_shift_div_l; [apply pow2_pos | exact H]. Qed.

Lemma div_pow2_lt x y e : (x < y * pow2 e)%Q -> (x / pow2 e < y)%Q.
Proof. intros H. apply Qlt_shift_div_r; [apply pow2_pos | exact H]. Qed.

Lemma flog2_spec x : (0 < x)%Q -> (pow2 (flog2 x) <= x)%Q /\ (x < pow2 (flog2 x + 1))%Q.
Proof.
  intros Hx. destruct x as [p q].
  assert (0 < p) as Hp. { unfold Qlt in Hx. simpl in Hx. lia. }
  set (a := Z.log2 p). set (b := Z.log2 (Zpos q)).
  destruct (Z.log2_spec p Hp) as [Ha1 Ha2]. fold a in Ha1, Ha2.
  destruct (Z.log2_spec (Zpos q) ltac:(lia)) as [Hb1 Hb2]. fold b in Hb1, Hb2.
  assert (0 <= a) as Ha0 by apply Z.log2_nonneg.
  assert (0 <= b) as Hb0 by apply Z.log2_nonneg.
  assert (p # q == inject_Z p / inject_Z (Zpos q))%Q as Hpq by apply Qmake_Qdiv.
  assert (0 < inject_Z (Zpos q))%Q as Hq0. { unfold Qlt. simpl. lia. }
  (* x < 2^(a-b+1) *)
  assert (p # q < pow2 (a - b + 1))%Q as Hup.
  { rewrite Hpq. apply Qlt_shift_div_r; [exact Hq0|].
    apply Qlt_le_trans with (inject_Z (2 ^ (a + 1))).
    - rewrite <- Zlt_Qlt. lia.
    - rewrite <- pow2_Z by lia.
      replace (a + 1) with ((a - b + 1) + b) by lia. rewrite pow2_add.
      apply Qmult_le_l; [apply pow2_pos|].
      rewrite pow2_Z by lia. rewrite <- Zle_Qle. exact Hb1. }
  assert (pow2 (a - b - 1) <= p # q)%Q as Hlo.
  { rewrite Hpq. apply Qle_shift_div_l; [exact Hq0|].
    apply Qle_trans with (inject_Z (2 ^ a)).
    - rewrite <- pow2_Z by lia.
      replace a with ((a - b - 1) + (b + 1)) at 2 by lia. rewrite pow2_add.
      apply Qmult_le_l; [apply pow2_pos|].
      rewrite pow2_Z by lia. rewrite <- Zle_Qle. lia.
    - rewrite <- Zle_Qle. exact Ha1. }
  unfold flog2. cbn [Qnum Qden]. fold a b.
  destruct (Qle_bool (pow2 (a - b)) (p # q)) eqn:E.
  - apply Qle_bool_iff in E. split; [exact E | exact Hup].
  - split; [exact Hlo|].
    replace (a - b - 1 + 1) with (a - b) by lia.
    apply Qnot_le_lt. intros H. apply Qle_bool_iff in H. congruence.
Qed.

Lemma flog2_unique x k : (pow2 k <= x)%Q -> (x < pow2 (k + 1))%Q -> flog2 x = k.
Proof.
  intros H1 H2.
  assert (0 < x)%Q as Hx by (eapply Qlt_le_trans; [apply (pow2_pos k) | exact H1]).
  destruct (flog2_spec x Hx) as [H3 H4].
  assert (flog2 x < k + 1).
  { apply pow2_lt_inv. eapply Qle_lt_trans; [exact H3 | exact H2]. }
  assert (k < flog2 x + 1).
  { apply pow2_lt_inv. eapply Qle_lt_trans; [exact H1 | exact H4]. }
  lia.
Qed.

Lemma flog2_mono x y : (0 < x)%Q -> (x <= y)%Q -> flog2 x <= flog2 y.
Proof.
  intros Hx Hxy.
  assert (0 < y)%Q as Hy by (eapply Qlt_le_trans; eassumption).
  destruct (flog2_spec x Hx) as [H1 _]. destruct (flog2_spec y Hy) as [_ H2].
  assert (flog2 x < flog2 y + 1); [|lia].
  apply pow2_lt_inv. eapply Qle_lt_trans; [exact H1|]. eapply Qle_lt_trans; eassumption.
Qed.

Lemma flog2_proper x y : (0 < x)%Q -> (x == y)%Q -> flog2 x = flog2 y.
Proof.
  intros Hx Hxy. destruct (flog2_spec x Hx) as [H1 H2].
  symmetry. apply flog2_unique; rewrite <- Hxy; assumption.
Qed.

Lemma rne_bounds y : Qfloor y <= rne y <= Qfloor y + 1.
Proof.
  unfold rne. destruct (Qcompare _ _); [destruct (Z.even _)| |]; lia.
Qed.

Lemma rne_Z n : rne (inject_Z n) = n.
Proof.
  unfold rne. rewrite Qfloor_Z.
  assert (Qcompare (inject_Z n - inject_Z n) (1 # 2) = Lt) as ->; [|reflexivity].
  apply Qlt_alt. assert ((inject_Z n - inject_Z n)%Q == 0%Q)%Q as -> by ring. reflexivity.
Qed.

Lemma rne_proper x y : (x == y)%Q -> rne x = rne y.
Proof.
  intros H. unfold rne. rewrite (Qfloor_comp _ _ H).
  assert (Qcompare (x - inject_Z (Qfloor y)) (1 # 2) = Qcompare (y - inject_Z (Qfloor y)) (1 # 2)) as ->;
    [|reflexivity].
  apply Qcompare_comp; [rewrite H; reflexivity | reflexivity].
Qed.

Lemma rne_mono x y : (x <= y)%Q -> rne x <= rne y.
Proof.
  intros H. pose proof (Qfloor_resp_le _ _ H) as Hf.
  destruct (Z.eq_dec (Qfloor x) (Qfloor y)) as [E|E].
  - unfold rne. rewrite E.
    destruct (Qcompare_spec (x - inject_Z (Qfloor y)) (1 # 2)) as [Ex|Ex|Ex];
    destruct (Qcompare_spec (y - inject_Z (Qfloor y)) (1 # 2)) as [Ey|Ey|Ey];
      try (destruct (Z.even (Qfloor y))); try lia; exfalso; lra.
  - pose proof (rne_bounds x). pose proof (rne_bounds y). lia.
Qed.

Lemma expo_ge x : -1074 <= expo x.
Proof. unfold expo. lia. Qed.

Lemma Qabs_gt0 x : ~ (x == 0)%Q -> (0 < Qabs x)%Q.
Proof.
  intros H. destruct (Qlt_le_dec 0 x) as [Hx|Hx].
  - rewrite Qabs_pos by lra. exact Hx.
  - rewrite Qabs_neg by exact Hx.
    destruct (Qle_lt_or_eq _ _ Hx) as [Hlt|Heq]; [lra | contradiction].
Qed.

Lemma expo_proper x y : ~ (x == 0)%Q -> (x == y)%Q -> expo x = expo y.
Proof.
  intros Hx H. unfold expo. f_equal. f_equal. apply flog2_proper.
  - apply Qabs_gt0, Hx.
  - rewrite H. reflexivity.
Qed.

Lemma round64_0 x : (x == 0)%Q -> round64 x = 0%Q.
Proof. intros H. unfold round64. apply Qeq_bool_iff in H. rewrite H. reflexivity. Qed.

Lemma round64_eq x : ~ (x == 0)%Q -> (round64 x == inject_Z (mant x) * pow2 (expo x))%Q.
Proof.
  intros H. unfold round64. destruct (Qeq_bool x 0) eqn:E.
  - apply Qeq_bool_iff in E. contradiction.
  - apply Qred_correct.
Qed.

Lemma round64_proper x y : (x == y)%Q -> round64 x = round64 y.
Proof.
  intros H. unfold round64.
  assert (Qeq_bool x 0 = Qeq_bool y 0) as E.
  { destruct (Qeq_bool x 0) eqn:Ex, (Qeq_bool y 0) eqn:Ey; try reflexivity.
    - apply Qeq_bool_iff in Ex.
      assert (y == 0)%Q as Hy by (rewrite <- H; exact Ex).
      apply Qeq_bool_iff in Hy. congruence.
    - apply Qeq_bool_iff in Ey.
      assert (x == 0)%Q as Hx by (rewrite H; exact Ey).
      apply Qeq_bool_iff in Hx. congruence. }
  rewrite <- E. destruct (Qeq_bool x 0) eqn:Ex; [reflexivity|].
  assert (~ (x == 0)%Q) as Hx.
  { intros H0. apply Qeq_bool_iff in H0. congruence. }
  apply Qred_complete. unfold mant.
  rewrite <- (expo_proper x y Hx H).
  rewrite (rne_proper (x / pow2 (expo x)) (y / pow2 (expo x))); [reflexivity|].
  unfold Qdiv. apply Qmult_comp; [exact H | reflexivity].
Qed.

Lemma Qabs_lt_both x b : (Qabs x < b)%Q -> (- b < x)%Q /\ (x < b)%Q.
Proof.
  intros H. destruct (Qlt_le_dec x 0) as [Hx|Hx].
  - rewrite Qabs_neg in H by lra. split; lra.
  - rewrite Qabs_pos in H by lra. split; lra.
Qed.

(** the magnitude of a number below its exponent window *)
Lemma below_window x : ~ (x == 0)%Q -> (Qabs x < pow2 (expo x + 53))%Q.
Proof.
  intros Hx. destruct (flog2_spec (Qabs x) (Qabs_gt0 x Hx)) as [_ H].
  eapply Qlt_le_trans; [exact H|]. apply pow2_le. unfold expo. lia.
Qed.

Lemma above_window x : ~ (x == 0)%Q -> -1074 < expo x -> (pow2 (expo x + 52) <= Qabs x)%Q.
Proof.
  intros Hx He. destruct (flog2_spec (Qabs x) (Qabs_gt0 x Hx)) as [H _].
  replace (expo x + 52) with (flog2 (Qabs x)); [exact H|]. unfold expo in *. lia.
Qed.

Lemma rne_pow2 n : 0 <= n -> rne (pow2 n) = 2 ^ n.
Proof. intros H. rewrite (rne_proper _ _ (pow2_Z n H)). apply rne_Z. Qed.

Lemma rne_opp_pow2 n : 0 <= n -> rne (- pow2 n) = - 2 ^ n.
Proof.
  intros H. rewrite (rne_proper (- pow2 n) (inject_Z (- 2 ^ n))); [apply rne_Z|].
  rewrite pow2_Z by exact H. rewrite inject_Z_opp. reflexivity.
Qed.

Lemma mant_bounds x : ~ (x == 0)%Q -> - 2 ^ 53 <= mant x <= 2 ^ 53.
Proof.
  intros Hx. destruct (Qabs_lt_both _ _ (below_window x Hx)) as [H1 H2].
  rewrite pow2_add in H1, H2. unfold mant. split.
  - rewrite <- (rne_opp_pow2 53) by lia. apply rne_mono, div_pow2_ge.
    assert ((- pow2 53 * pow2 (expo x))%Q == (- (pow2 (expo x) * pow2 53))%Q)%Q as -> by ring.
    lra.
  - rewrite <- (rne_pow2 53) by lia. apply rne_mono, div_pow2_le.
    assert ((pow2 53 * pow2 (expo x))%Q == (pow2 (expo x) * pow2 53)%Q)%Q as -> by ring.
    lra.
Qed.

Lemma mant_normal_pos x : (0 < x)%Q -> -1074 < expo x -> 2 ^ 52 <= mant x.
Proof.
  intros Hx He.
  assert (~ (x == 0)%Q) as Hx0 by lra.
  pose proof (above_window x Hx0 He) as H. rewrite Qabs_pos in H by lra.
  rewrite pow2_add in H. unfold mant.
  rewrite <- (rne_pow2 52) by lia. apply rne_mono, div_pow2_ge.
  assert ((pow2 52 * pow2 (expo x))%Q == (pow2 (expo x) * pow2 52)%Q)%Q as -> by ring.
  exact H.
Qed.

Lemma mant_normal_neg x : (x < 0)%Q -> -1074 < expo x -> mant x <= - 2 ^ 52.
Proof.
  intros Hx He.
  assert (~ (x == 0)%Q) as Hx0 by lra.
  pose proof (above_window x Hx0 He) as H. rewrite Qabs_neg in H by lra.
  rewrite pow2_add in H. unfold mant.
  rewrite <- (rne_opp_pow2 52) by lia. apply rne_mono, div_pow2_le.
  assert ((- pow2 52 * pow2 (expo x))%Q == (- (pow2 (expo x) * pow2 52))%Q)%Q as -> by ring.
  lra.
Qed.

Lemma mant_nonneg x : (0 <= x)%Q -> 0 <= mant x.
Proof.
  intros Hx. unfold mant. apply Z.le_trans with (rne (inject_Z 0)); [rewrite rne_Z; lia|].
  apply rne_mono, div_pow2_ge.
  change (inject_Z 0) with 0%Q. lra.
Qed.

Lemma mant_nonpos x : (x <= 0)%Q -> mant x <= 0.
Proof.
  intros Hx. unfold mant. apply Z.le_trans with (rne (inject_Z 0)); [|rewrite rne_Z; lia].
  apply rne_mono, div_pow2_le.
  change (inject_Z 0) with 0%Q. lra.
Qed.

Lemma round64_nonneg x : (0 <= x)%Q -> (0 <= round64 x)%Q.
Proof.
  intros Hx. destruct (Qeq_dec x 0) as [E|E].
  - rewrite (round64_0 x E). lra.
  - rewrite (round64_eq x E). apply Qmult_le_0_compat.
    + change 0%Q with (inject_Z 0). rewrite <- Zle_Qle. by apply mant_nonneg.
    + apply Qlt_le_weak, pow2_pos.
Qed.

Lemma round64_nonpos x : (x <= 0)%Q -> (round64 x <= 0)%Q.
Proof.
  intros Hx. destruct (Qeq_dec x 0) as [E|E].
  - rewrite (round64_0 x E). lra.
  - rewrite (round64_eq x E).
    pose proof (mant_nonpos x Hx) as Hm. rewrite Zle_Qle in Hm.
    change (inject_Z 0) with 0%Q in Hm.
    pose proof (pow2_pos (expo x)). nra.
Qed.

Lemma round64_upper x : ~ (x == 0)%Q -> (round64 x <= pow2 (expo x + 53))%Q.
Proof.
  intros Hx. rewrite (round64_eq x Hx).
  destruct (mant_bounds x Hx) as [_ Hm]. rewrite Zle_Qle in Hm.
  rewrite <- pow2_Z in Hm by lia.
  rewrite Z.add_comm, pow2_add.
  apply Qmult_le_compat_r; [exact Hm | apply Qlt_le_weak, pow2_pos].
Qed.

Lemma round64_lower x : ~ (x == 0)%Q -> (- pow2 (expo x + 53) <= round64 x)%Q.
Proof.
  intros Hx. rewrite (round64_eq x Hx).
  destruct (mant_bounds x Hx) as [Hm _]. rewrite Zle_Qle in Hm.
  rewrite inject_Z_opp, <- pow2_Z in Hm by lia.
  rewrite Z.add_comm, pow2_add.
  assert (- (pow2 53 * pow2 (expo x)) == - pow2 53 * pow2 (expo x))%Q as -> by ring.
  apply Qmult_le_compat_r; [exact Hm | apply Qlt_le_weak, pow2_pos].
Qed.

Lemma round64_normal_pos x :
  (0 < x)%Q -> -1074 < expo x -> (pow2 (expo x + 52) <= round64 x)%Q.
Proof.
  intros Hx He. rewrite (round64_eq x) by lra.
  pose proof (mant_normal_pos x Hx He) as Hm. rewrite Zle_Qle in Hm.
  rewrite <- pow2_Z in Hm by lia.
  rewrite Z.add_comm, pow2_add.
  apply Qmult_le_compat_r; [exact Hm | apply Qlt_le_weak, pow2_pos].
Qed.

Lemma round64_normal_neg x :
  (x < 0)%Q -> -1074 < expo x -> (round64 x <= - pow2 (expo x + 52))%Q.
Proof.
  intros Hx He. rewrite (round64_eq x) by lra.
  pose proof (mant_normal_neg x Hx He) as Hm. rewrite Zle_Qle in Hm.
  rewrite inject_Z_opp, <- pow2_Z in Hm by lia.
  rewrite Z.add_comm, pow2_add.
  assert (- (pow2 52 * pow2 (expo x)) == - pow2 52 * pow2 (expo x))%Q as -> by ring.
  apply Qmult_le_compat_r; [exact Hm | apply Qlt_le_weak, pow2_pos].
Qed.

Lemma round64_same_expo x y :
  ~ (x == 0)%Q -> ~ (y == 0)%Q -> expo x = expo y -> (x <= y)%Q ->
  (round64 x <= round64 y)%Q.
Proof.
  intros Hx Hy He Hxy. rewrite (round64_eq x Hx), (round64_eq y Hy), <- He.
  apply Qmult_le_compat_r; [|apply Qlt_le_weak, pow2_pos].
  rewrite <- Zle_Qle. unfold mant. rewrite <- He. apply rne_mono.
  apply Qmult_le_compat_r; [exact Hxy|]. apply Qlt_le_weak, Qinv_lt_0_compat, pow2_pos.
Qed.

Lemma expo_mono x y : ~ (x == 0)%Q -> (Qabs x <= Qabs y)%Q -> expo x <= expo y.
Proof.
  intros Hx Hxy. unfold expo.
  pose proof (flog2_mono _ _ (Qabs_gt0 x Hx) Hxy). lia.
Qed.

Lemma round64_mono x y : (x <= y)%Q -> (round64 x <= round64 y)%Q.
Proof.
  intros Hxy.
  destruct (Qlt_le_dec 0 x) as [Hx|Hx].
  - (* 0 < x <= y *)
    assert (~ (x == 0)%Q) as Hx0 by lra. assert (~ (y == 0)%Q) as Hy0 by lra.
    assert (expo x <= expo y) as He.
    { apply expo_mono; [exact Hx0|]. rewrite !Qabs_pos by lra. exact Hxy. }
    destruct (Z.eq_dec (expo x) (expo y)) as [E|E]; [by apply round64_same_expo|].
    eapply Qle_trans; [apply round64_upper, Hx0|].
    eapply Qle_trans; [|apply round64_normal_pos; [lra | pose proof (expo_ge x); lia]].
    apply pow2_le. lia.
  - destruct (Qlt_le_dec y 0) as [Hy|Hy].
    + (* x <= y < 0 *)
      assert (~ (x == 0)%Q) as Hx0 by lra. assert (~ (y == 0)%Q) as Hy0 by lra.
      assert (expo y <= expo x) as He.
      { apply expo_mono; [exact Hy0|]. rewrite !Qabs_neg by lra. lra. }
      destruct (Z.eq_dec (expo x) (expo y)) as [E|E]; [by apply round64_same_expo|].
      eapply Qle_trans; [|apply round64_lower, Hy0].
      eapply Qle_trans; [apply round64_normal_neg; [lra | pose proof (expo_ge y); lia]|].
      apply Qopp_le_compat, pow2_le. lia.
    + eapply Qle_trans; [apply round64_nonpos, Hx | apply round64_nonneg, Hy].
Qed.

(** A number [m * 2^e] with at most 53 bits in [m] is a float. *)
Lemma float_fix_small m e :
  Z.abs m < 2 ^ 53 -> -1074 <= e ->
  (round64 (inject_Z m * pow2 e) == inject_Z m * pow2 e)%Q.
Proof.
  intros Hm He. set (v := (inject_Z m * pow2 e)%Q).
  destruct (Z.eq_dec m 0) as [->|Hm0].
  { assert (v == 0)%Q as Hv by (unfold v; change (inject_Z 0) with 0%Q; ring).
    rewrite (round64_0 v Hv). by rewrite Hv. }
  assert (Qabs v == inject_Z (Z.abs m) * pow2 e)%Q as Habs.
  { unfold v. rewrite Qabs_Qmult. rewrite (Qabs_pos (pow2 e)) by apply Qlt_le_weak, pow2_pos.
    reflexivity. }
  set (l := Z.log2 (Z.abs m)).
  destruct (Z.log2_spec (Z.abs m) ltac:(lia)) as [Hl1 Hl2]. fold l in Hl1, Hl2.
  assert (0 <= l) as Hl0 by apply Z.log2_nonneg.
  assert (l < 53) as Hl53 by (apply Z.log2_lt_pow2; lia).
  assert (~ (v == 0)%Q) as Hv0.
  { intros Hv. assert (Qabs v == 0)%Q as H0 by (rewrite Hv; reflexivity).
    rewrite Habs in H0. pose proof (pow2_pos e).
    assert (0 < inject_Z (Z.abs m))%Q as Hpos.
    { change 0%Q with (inject_Z 0). rewrite <- Zlt_Qlt. lia. }
    nra. }
  assert (flog2 (Qabs v) = l + e) as Hlog.
  { apply flog2_unique; rewrite Habs.
    - rewrite pow2_add. apply Qmult_le_compat_r; [|apply Qlt_le_weak, pow2_pos].
      rewrite pow2_Z by lia. by rewrite <- Zle_Qle.
    - replace (l + e + 1) with ((l + 1) + e) by lia. rewrite pow2_add.
      apply Qmult_lt_compat_r; [apply pow2_pos|].
      rewrite pow2_Z by lia. by rewrite <- Zlt_Qlt. }
  assert (expo v <= e) as Hexpo by (unfold expo; rewrite Hlog; lia).
  set (e' := expo v) in *.
  assert (v / pow2 e' == inject_Z (m * 2 ^ (e - e')))%Q as Hdiv.
  { rewrite inject_Z_mult, <- pow2_Z by lia. rewrite pow2_sub. unfold v.
    field. pose proof (pow2_pos e'). lra. }
  rewrite (round64_eq v Hv0). fold e'. unfold mant. fold e'.
  rewrite (rne_proper _ _ Hdiv), rne_Z.
  rewrite inject_Z_mult, <- pow2_Z by lia. rewrite pow2_sub. unfold v.
  field. pose proof (pow2_pos e'). lra.
Qed.

Lemma float_fix m e :
  - 2 ^ 53 <= m <= 2 ^ 53 -> -1074 <= e ->
  (round64 (inject_Z m * pow2 e) == inject_Z m * pow2 e)%Q.
Proof.
  intros Hm He.
  destruct (Z.eq_dec (Z.abs m) (2 ^ 53)) as [E|E]; [|apply float_fix_small; [lia | done]].
  assert (m = 2 * (m / 2) /\ Z.abs (m / 2) < 2 ^ 53) as [Hm2 Hm'].
  { destruct (Z.abs_eq_or_opp m) as [H|H]; rewrite H in E.
    - rewrite E. split; reflexivity.
    - assert (m = - 2 ^ 53) as -> by lia. split; reflexivity. }
  assert (inject_Z m * pow2 e == inject_Z (m / 2) * pow2 (e + 1))%Q as Hv.
  { rewrite Hm2 at 1. rewrite inject_Z_mult, pow2_add.
    change (pow2 1) with 2%Q. change (inject_Z 2) with 2%Q. ring. }
  rewrite (round64_proper _ _ Hv), Hv. apply float_fix_small; [exact Hm' | lia].
Qed.

Lemma round64_idem x : (round64 (round64 x) == round64 x)%Q.
Proof.
  destruct (Qeq_dec x 0) as [E|E].
  - rewrite (round64_0 x E). reflexivity.
  - rewrite (round64_proper _ _ (round64_eq x E)), (round64_eq x E).
    apply float_fix; [apply mant_bounds, E | apply expo_ge].
Qed.

Lemma round64_Z n : - 2 ^ 53 <= n <= 2 ^ 53 -> (round64 (inject_Z n) == inject_Z n)%Q.
Proof.
  intros Hn. assert (inject_Z n == inject_Z n * pow2 0)%Q as Hv.
  { change (pow2 0) with 1%Q. ring. }
  rewrite (round64_proper _ _ Hv). rewrite float_fix by (done || lia). symmetry. exact Hv.
Qed.

#[global] Instance round64_Proper : Proper (Qeq ==> Qeq) round64.
Proof. intros x y H. by rewrite (round64_proper x y H). Qed.

(** ** statistics.mean *)

Lemma Qsum_app xs ys : (Qsum (xs ++ ys) == Qsum xs + Qsum ys)%Q.
Proof.
  induction xs as [|x xs IH]; simpl.
  - ring.
  - rewrite IH. ring.
Qed.

Lemma Qsum_perm xs ys : xs ≡ₚ ys → (Qsum xs == Qsum ys)%Q.
Proof.
  induction 1 as [|x xs ys _ IH|x y xs|xs ys zs _ IH1 _ IH2]; simpl.
  - reflexivity.
  - rewrite IH. reflexivity.
  - ring.
  - rewrite IH1. exact IH2.
Qed.

Lemma mean_ok xs m : mean xs = Ok m → is_mean m xs.
Proof.
  destruct xs as [|x xs]; [discriminate|].
  intros [= <-]. split; [discriminate | reflexivity].
Qed.

Lemma mean_raise xs e : mean xs = Raise e → xs = [] ∧ e = StatisticsError.
Proof. destruct xs; [intros [= <-]; done | discriminate]. Qed.

Lemma mean_perm_ok xs ys m : xs ≡ₚ ys → mean xs = Ok m → is_mean m ys.
Proof.
  intros Hp [Hne Hm]%mean_ok. split.
  - intros ->. by apply Permutation_nil_r in Hp.
  - rewrite Hm. rewrite (Permutation_length Hp).
    apply round64_Proper. by rewrite (Qsum_perm _ _ Hp).
Qed.

Lemma mean_perm_raise xs ys e : xs ≡ₚ ys → mean xs = Raise e → ys = [] ∧ e = StatisticsError.
Proof.
  intros Hp [-> ->]%mean_raise. split; [|done]. by apply Permutation_nil_l in Hp.
Qed.

(** ** The fan-out *)

Section FanOutFacts.
Variable N : nat.
Variable pre : nat -> result unit.
Variable pre_ev : nat -> list event.
Variable op : nat -> timed unit.
Variable op_ev : nat -> event.

Local Abbreviation step := (fan_step N pre pre_ev op op_ev).
Local Abbreviation exec := (fan_exec N pre pre_ev op op_ev).
Local Abbreviation inv := (fan_inv N pre pre_ev op op_ev).

Lemma omap_sampler_tag evs : omap sampler_of (tag Prober evs) = [].
Proof. induction evs; [done|]. simpl. exact IHevs. Qed.

Lemma omap_prober_tag evs : omap prober_of (tag Prober evs) = evs.
Proof. induction evs; [done|]. simpl. f_equal. exact IHevs. Qed.

Lemma starts_S n : starts pre_ev (S n) = starts pre_ev n ++ pre_ev n ++ [EvStart n].
Proof. unfold starts. rewrite seq_S, bind_app. simpl. by rewrite app_nil_r. Qed.

Lemma joins_S k : joins (S k) = joins k ++ [EvJoin k].
Proof. unfold joins. by rewrite seq_S, fmap_app. Qed.

Lemma ended_perm s :
  NoDup (done_order s) →
  (∀ i, i ∈ done_order s ↔ fan_threads s !! i = Some true) →
  all_ended N s →
  done_order s ≡ₚ seq 0 N.
Proof.
  intros Hnd Hin [Hlen Hall].
  apply NoDup_Permutation; [done | apply NoDup_seq |].
  intros i. rewrite Hin, elem_of_seq. split.
  - intros Hi. apply lookup_lt_Some in Hi. lia.
  - intros Hi. apply Hall. lia.
Qed.

Lemma fan_init_inv : inv (fan_init).
Proof.
  unfold fan_inv, fan_init, done_order; simpl.
  split_and!; try done; try lia.
  - constructor.
  - intros i. split; [intros Hi; by apply elem_of_nil in Hi | done].
  - intros i e Hi. by apply elem_of_nil in Hi.
Qed.

Lemma prober_step_inv s s' : inv s → prober_step N pre pre_ev s = Some s' → inv s'.
Proof.
  intros (Hlen & Hpre & Hnd & Hin & Htimes & Hsam & Hpc) Hstep.
  unfold prober_step in Hstep. unfold fan_inv, done_order, prober_log in *.
  destruct (fan_pc_of s) as [|k|r] eqn:Epc; [| |done].
  - destruct (Nat.ltb_spec (length (fan_threads s)) N) as [Hlt|Hge].
    + destruct (pre (length (fan_threads s))) as [[]|e] eqn:Epre;
        injection Hstep as <-; simpl;
        rewrite ?omap_app, ?omap_sampler_tag, ?omap_prober_tag, ?app_nil_r.
      * rewrite length_app; simpl. split_and!; try done; try lia.
        -- intros j Hj. destruct (decide (j = length (fan_threads s))) as [->|]; [done|].
           apply Hpre. lia.
        -- intros i. rewrite Hin. split.
           ++ intros Hi. by apply lookup_app_l_Some.
           ++ intros Hi. apply lookup_app_Some in Hi as [Hi|[_ Hi]]; [done|].
              destruct (i - length (fan_threads s))%nat; simplify_eq/=.
        -- intros i e [Hi|Hi]%elem_of_app; [by apply Hsam|].
           unfold tag in Hi. apply list_elem_of_fmap in Hi as (? & [=] & _).
        -- rewrite Nat.add_1_r, starts_S, Hpc. done.
      * split_and!; try done.
        -- intros i e' [Hi|Hi]%elem_of_app; [by apply Hsam|].
           unfold tag in Hi. apply list_elem_of_fmap in Hi as (? & [=] & _).
        -- left. exists e. split_and!; try done. by rewrite Hpc.
    + injection Hstep as <-. simpl.
      assert (length (fan_threads s) = N) as HN by lia.
      split_and!; try done; try (intros; lia).
      rewrite Hpc, HN. unfold joins. simpl. by rewrite app_nil_r.
  - destruct Hpc as (HN & HkN & Hk & Hlog).
    destruct (fan_threads s !! k) as [[]|] eqn:Ek; [|done|];
      injection Hstep as <-; simpl;
      rewrite !omap_app; simpl; rewrite ?app_nil_r.
    + apply lookup_lt_Some in Ek as Hlt.
      split_and!; try done; try lia.
      * intros i e [Hi|Hi]%elem_of_app; [by apply Hsam|].
        apply list_elem_of_singleton in Hi. done.
      * intros j Hj. destruct (decide (j = k)) as [->|]; [done|]. apply Hk. lia.
      * by rewrite Hlog, joins_S, app_assoc.
    + apply lookup_ge_None in Ek.
      assert (k = N) as -> by lia.
      assert (all_ended N s) as Hall.
      { split; [done|]. intros j Hj. by apply Hk. }
      split_and!; try done.
      * intros i e [Hi|Hi]%elem_of_app; [by apply Hsam|].
        apply list_elem_of_singleton in Hi. done.
      * right. split_and!; try done.
        -- exists (fan_log s). split; [done|]. by apply ended_perm.
        -- by rewrite Hlog, app_assoc.
Qed.

Lemma sampler_step_inv i s s' : inv s → sampler_step op op_ev i s = Some s' → inv s'.
Proof.
  intros (Hlen & Hpre & Hnd & Hin & Htimes & Hsam & Hpc) Hstep.
  unfold sampler_step in Hstep. unfold fan_inv, done_order, prober_log in *.
  destruct (fan_threads s !! i) as [[]|] eqn:Ei; try done.
  injection Hstep as <-. simpl.
  rewrite !omap_app; simpl. rewrite length_insert, app_nil_r.
  assert (i ∉ omap sampler_of (fan_log s)) as Hni.
  { rewrite Hin. congruence. }
  assert (∀ j, <[i:=true]> (fan_threads s) !! j = Some true ↔
               j = i ∨ fan_threads s !! j = Some true) as Hlk.
  { intros j. destruct (decide (j = i)) as [->|Hne].
    - rewrite list_lookup_insert_eq by (by eapply lookup_lt_Some). tauto.
    - rewrite list_lookup_insert_ne by done. split; [by right | intros [?|?]; done]. }
  split_and!; try done.
  - apply NoDup_app. split_and!; [done| |apply NoDup_singleton].
    intros j Hj ->%list_elem_of_singleton. done.
  - intros j. rewrite elem_of_app, list_elem_of_singleton, Hlk, Hin. tauto.
  - rewrite Htimes. by destruct (duration (op i)).
  - intros j e [Hj|Hj]%elem_of_app; [by apply Hsam|].
    apply list_elem_of_singleton in Hj. congruence.
  - destruct (fan_pc_of s) as [|k|r]; [done| |].
    + destruct Hpc as (HN & HkN & Hk & Hlog). split_and!; try done.
      intros j Hj. apply Hlk. right. by apply Hk.
    + destruct Hpc as [Hpc|[[_ Hall] _]]; [by left|].
      apply lookup_lt_Some in Ei as Hi. rewrite Hall in Ei by lia. done.
Qed.

Lemma fan_step_inv t s s' : inv s → step t s = Some s' → inv s'.
Proof.
  destruct t; [apply prober_step_inv | apply sampler_step_inv].
Qed.

Lemma fan_exec_inv sched s : inv s → inv (exec sched s).
Proof.
  revert s. induction sched as [|t sched IH]; intros s Hs; [done|].
  simpl. apply IH. destruct (step t s) as [s'|] eqn:E; [|done].
  simpl. by eapply fan_step_inv.
Qed.

Lemma fan_exec_app l1 l2 s : exec (l1 ++ l2) s = exec l2 (exec l1 s).
Proof. apply foldl_app. Qed.
Lemma returned_stable sched s r :
  fan_pc_of s = Returned r → fan_pc_of (exec sched s) = Returned r.
Proof.
  revert s. induction sched as [|t sched IH]; intros s Hs; [done|].
  simpl. apply IH. destruct t as [|i]; simpl.
  - unfold prober_step. by rewrite Hs.
  - unfold sampler_step. by destruct (fan_threads s !! i) as [[]|].
Qed.

Lemma started_stable sched s :
  fan_pc_of s ≠ Starting → fan_pc_of (exec sched s) ≠ Starting.
Proof.
  revert s. induction sched as [|t sched IH]; intros s Hs; [done|].
  simpl. apply IH. destruct t as [|i]; simpl.
  - unfold prober_step. destruct (fan_pc_of s) as [|k|r] eqn:E; [done| |simpl; by rewrite E].
    destruct (fan_threads s !! k) as [[]|]; simpl; by rewrite ?E.
  - unfold sampler_step. by destruct (fan_threads s !! i) as [[]|].
Qed.

(** The first loop ends: after enough steps the prober has left it. *)
Lemma first_loop_ends n s :
  (N - length (fan_threads s) < n)%nat →
  fan_pc_of (exec (replicate n Prober) s) ≠ Starting.
Proof.
  revert s. induction n as [|n IH]; intros s Hn; [lia|].
  simpl. destruct (fan_pc_of s) as [|k|r] eqn:Epc.
  - unfold prober_step. rewrite Epc.
    destruct (Nat.ltb_spec (length (fan_threads s)) N) as [Hlt|Hge].
    + destruct (pre (length (fan_threads s))) as [[]|e]; simpl.
      * apply IH. simpl. rewrite length_app. simpl. lia.
      * by apply started_stable.
    + by apply started_stable.
  - apply started_stable. unfold prober_step. rewrite Epc.
    destruct (fan_threads s !! k) as [[]|]; simpl; by rewrite ?Epc.
  - apply started_stable. unfold prober_step. rewrite Epc. simpl. by rewrite Epc.
Qed.

(** Running sample threads changes neither the prober's position nor the
    number of threads, and ends the threads it runs. *)
Lemma samplers_run l s :
  let s' := exec (Sampler <$> l) s in
  fan_pc_of s' = fan_pc_of s ∧
  length (fan_threads s') = length (fan_threads s) ∧
  ∀ j, (j < length (fan_threads s))%nat →
       j ∈ l ∨ fan_threads s !! j = Some true →
       fan_threads s' !! j = Some true.
Proof.
  revert s. induction l as [|i l IH]; intros s; simpl.
  - split_and!; try done. intros j _ [Hj|Hj]; [by apply elem_of_nil in Hj | done].
  - set (s1 := default s (sampler_step op op_ev i s)).
    assert (fan_pc_of s1 = fan_pc_of s ∧
            length (fan_threads s1) = length (fan_threads s) ∧
            ∀ j, (j < length (fan_threads s))%nat →
                 j = i ∨ fan_threads s !! j = Some true →
                 fan_threads s1 !! j = Some true) as (Hpc & Hlen & Hj1).
    { unfold s1, sampler_step.
      destruct (fan_threads s !! i) as [[]|] eqn:Ei; simpl.
      - split_and!; try done. intros j _ [->|Hj]; done.
      - rewrite length_insert. split_and!; try done. intros j Hlt [->|Hj].
        + by apply list_lookup_insert_eq.
        + destruct (decide (j = i)) as [->|]; [congruence|].
          by rewrite list_lookup_insert_ne.
      - split_and!; try done. intros j Hlt [->|Hj]; [|done].
        apply lookup_ge_None in Ei. lia. }
    destruct (IH s1) as (Hpc' & Hlen' & Hj').
    change (list_fmap nat tid Sampler l) with (Sampler <$> l).
    split_and!; [congruence | congruence |].
    intros j Hlt Hj. apply Hj'; [lia|].
    rewrite elem_of_cons in Hj. destruct Hj as [[->|Hj]|Hj]; [| by left |].
    + right. apply Hj1; [done | by left].
    + right. apply Hj1; [done | by right].
Qed.

(** The second loop ends once every thread has ended. *)
Lemma second_loop_ends n k s :
  fan_pc_of s = Joining k → all_ended N s → (N - k < n)%nat →
  ∃ r, fan_pc_of (exec (replicate n Prober) s) = Returned r.
Proof.
  revert k s. induction n as [|n IH]; intros k s Hpc Hall Hn; [lia|].
  simpl. unfold prober_step. rewrite Hpc.
  destruct Hall as [Hlen Hall].
  destruct (fan_threads s !! k) as [[]|] eqn:Ek; simpl.
  - apply lookup_lt_Some in Ek as Hk.
    eapply (IH (S k)); [done | by split | lia].
  - apply lookup_lt_Some in Ek as Hk. rewrite Hall in Ek by lia. done.
  - eexists. by apply returned_stable.
Qed.

(** The fan-out always comes back to its caller, under every schedule. *)
Lemma fan_out_returns sched :
  ∃ r, fan_pc_of (fan_out N pre pre_ev op op_ev sched) = Returned r.
Proof.
  unfold fan_out, drain. rewrite !fan_exec_app.
  set (s0 := exec sched (fan_init)).
  assert (inv s0) as H0 by apply fan_exec_inv, fan_init_inv.
  set (s1 := exec (replicate (S N) Prober) s0).
  assert (inv s1) as H1 by by apply fan_exec_inv.
  assert (fan_pc_of s1 ≠ Starting) as Hne by (apply first_loop_ends; lia).
  destruct (fan_pc_of s1) as [|k|r] eqn:Epc; [done| |].
  - destruct (samplers_run (seq 0 N) s1) as (Hpc & Hlen & Hall).
    set (s2 := exec (Sampler <$> seq 0 N) s1) in *.
    destruct H1 as (_ & _ & _ & _ & _ & _ & H1). rewrite Epc in H1. destruct H1 as [HN _].
    eapply (second_loop_ends _ k); [congruence | | lia].
    split; [congruence|]. intros j Hj. apply Hall; [lia|].
    left. apply elem_of_seq. lia.
  - exists r. by do 2 apply returned_stable.
Qed.

Lemma fan_out_inv sched : inv (fan_out N pre pre_ev op op_ev sched).
Proof. apply fan_exec_inv, fan_init_inv. Qed.

(** What comes back when no [pre] raises: every one of the [N] threads
    was started and has ended, the value is the mean of the durations of
    the samples that succeeded, in the order in which the threads ended,
    and the mean is the last thing that happened. *)
Lemma fan_out_ok sched :
  (∀ j, (j < N)%nat → pre j = Ok ()) →
  let s := fan_out N pre pre_ev op op_ev sched in
  all_ended N s ∧
  fan_pc_of s = Returned (mean (fan_times s)) ∧
  done_order s ≡ₚ seq 0 N ∧
  fan_times s = omap (λ i, duration (op i)) (done_order s) ∧
  (∃ l, fan_log s = l ++ [(Prober, EvMean (fan_times s))] ∧
        omap sampler_of l ≡ₚ seq 0 N) ∧
  prober_log s = starts pre_ev N ++ joins N ++ [EvMean (fan_times s)].
Proof.
  intros Hpre s.
  destruct (fan_out_returns sched) as [r Hr].
  destruct (fan_out_inv sched) as (Hlen & _ & Hnd & Hin & Htimes & _ & Hpc).
  fold s in Hr, Hlen, Hnd, Hin, Htimes, Hpc. rewrite Hr in Hpc.
  destruct Hpc as [(e & _ & Hlt & He & _)|(Hall & -> & Hlog & Hpl)].
  - rewrite Hpre in He by done. done.
  - split_and!; try done. by apply ended_perm.
Qed.

(** What comes back when [pre k] is the first to raise: the exception,
    with [k] threads started, no join and no mean. *)
Lemma fan_out_raise sched k e :
  (k < N)%nat → pre k = Raise e → (∀ j, (j < k)%nat → pre j = Ok ()) →
  let s := fan_out N pre pre_ev op op_ev sched in
  fan_pc_of s = Returned (Raise e) ∧ length (fan_threads s) = k ∧
  prober_log s = starts pre_ev k ++ pre_ev k.
Proof.
  intros Hk He Hpre s.
  destruct (fan_out_returns sched) as [r Hr].
  destruct (fan_out_inv sched) as (Hlen & Hpre' & _ & _ & _ & _ & Hpc).
  fold s in Hr, Hlen, Hpre', Hpc. rewrite Hr in Hpc.
  assert (length (fan_threads s) ≤ k)%nat as Hle.
  { destruct (decide (length (fan_threads s) ≤ k)%nat); [done|].
    rewrite Hpre' in He by lia. done. }
  destruct Hpc as [(e' & -> & Hlt & He' & Hpl)|([Hall _] & _)]; [|lia].
  destruct (decide (length (fan_threads s) = k)) as [Heq|Hne].
  - rewrite Heq in He', Hpl. split_and!; [congruence | done | done].
  - rewrite Hpre in He' by lia. done.
Qed.

(** Every entry of the log: a sample thread only ever performs its own
    operation; everything else is done by the thread running the fan-out. *)
Lemma fan_out_sampler_entries sched i e :
  (Sampler i, e) ∈ fan_log (fan_out N pre pre_ev op op_ev sched) → e = op_ev i.
Proof.
  destruct (fan_out_inv sched) as (_ & _ & _ & _ & _ & Hsam & _). apply Hsam.
Qed.
Lemma fan_result_returned s r : fan_pc_of s = Returned r → fan_result s = r.
Proof. unfold fan_result. by intros ->. Qed.

Lemma prober_entry_log s e : (Prober, e) ∈ fan_log s → e ∈ prober_log s.
Proof.
  intros He. unfold prober_log. apply list_elem_of_omap. by exists (Prober, e).
Qed.

Lemma elem_of_starts n e :
  e ∈ starts pre_ev n → (∃ i, e ∈ pre_ev i) ∨ ∃ i, e = EvStart i.
Proof.
  unfold starts. intros (i & He & _)%list_elem_of_bind.
  apply elem_of_app in He as [He|He%list_elem_of_singleton]; eauto.
Qed.

Lemma elem_of_joins k e : e ∈ joins k → ∃ j, e = EvJoin j.
Proof. unfold joins. intros (j & -> & _)%list_elem_of_fmap. eauto. Qed.

(** Nothing else is ever logged by a fan-out. *)
Lemma fan_out_events sched t e :
  (t, e) ∈ fan_log (fan_out N pre pre_ev op op_ev sched) → fan_event pre_ev op_ev e.
Proof.
  intros He. unfold fan_event.
  destruct t as [|i].
  - apply prober_entry_log in He.
    destruct (fan_out_returns sched) as [r Hr].
    destruct (fan_out_inv sched) as (_ & _ & _ & _ & _ & _ & Hpc).
    rewrite Hr in Hpc.
    destruct Hpc as [(e' & _ & _ & _ & Hpl)|(_ & _ & _ & Hpl)]; rewrite Hpl in He.
    + apply elem_of_app in He as [He|He].
      * apply elem_of_starts in He as [?|?]; eauto.
      * eauto.
    + apply elem_of_app in He as [He|He].
      * apply elem_of_starts in He as [?|?]; eauto.
      * apply elem_of_app in He as [He|He%list_elem_of_singleton].
        -- apply elem_of_joins in He. eauto.
        -- eauto 10.
  - apply fan_out_sampler_entries in He. eauto 10.
Qed.

(** The durations collected are those of the successful samples, whatever
    the order in which the threads ended. *)
Lemma fan_out_times sched :
  (∀ j, (j < N)%nat → pre j = Ok ()) →
  let s := fan_out N pre pre_ev op op_ev sched in
  fan_times s ≡ₚ successes N op ∧ fan_result s = mean (fan_times s).
Proof.
  intros Hpre s.
  destruct (fan_out_ok sched Hpre) as (_ & Hpc & Hperm & Htimes & _).
  fold s in Hpc, Hperm, Htimes. split.
  - rewrite Htimes. unfold successes. by rewrite Hperm.
  - by apply fan_result_returned.
Qed.

(** Either no [pre] raises, or there is a first one that does. *)
Lemma first_raise :
  (∀ j, (j < N)%nat → pre j = Ok ()) ∨
  ∃ k e, (k < N)%nat ∧ pre k = Raise e ∧ ∀ j, (j < k)%nat → pre j = Ok ().
Proof.
  induction N as [|n IH].
  - left. intros j Hj. lia.
  - destruct IH as [Hok|(k & e & Hk & He & Hlt)].
    + destruct (pre n) as [[]|e] eqn:En.
      * left. intros j Hj. destruct (decide (j = n)) as [->|]; [done|]. apply Hok. lia.
      * right. exists n, e. split_and!; [lia | done | done].
    + right. exists k, e. split_and!; [lia | done | done].
Qed.

(** A fan-out that comes back with a value started all its samples and
    gives the mean of those that succeeded. *)
Lemma fan_result_ok sched m :
  fan_result (fan_out N pre pre_ev op op_ev sched) = Ok m →
  (∀ j, (j < N)%nat → pre j = Ok ()) ∧ is_mean m (successes N op).
Proof.
  intros Hm. destruct first_raise as [Hok|(k & e & Hk & He & Hlt)].
  - split; [done|]. destruct (fan_out_times sched Hok) as [Hp Hr].
    rewrite Hr in Hm. by eapply mean_perm_ok.
  - destruct (fan_out_raise sched k e Hk He Hlt) as (Hpc & _).
    apply fan_result_returned in Hpc. congruence.
Qed.
End FanOutFacts.

Lemma filter_none {A} (P : A → Prop) `{!∀ x, Decision (P x)} (l : list A) :
  (∀ x, x ∈ l → ¬ P x) → filter P l = [].
Proof.
  induction l as [|x l IH]; intros Hl; [done|].
  rewrite filter_cons_False by (apply Hl; left).
  apply IH. intros y Hy. apply Hl. by right.
Qed.

(** ** The probe of one host *)

Section ProbeFacts.
Variable w : World.
Variable options : Options.

Local Abbreviation N_samples := (samples options).

(** The TCP fan-out: nothing raises in its first loop. *)
Lemma tcp_fan_spec o sched :
  let f := tcp_fan w options o sched in
  fan_times f ≡ₚ tcp_successes w options o ∧
  fan_result f = mean (fan_times f) ∧
  ∀ e, e ∈ fan_log f → is_head e = false ∧ is_get e = false ∧ is_content e = false.
Proof.
  intros f.
  destruct (fan_out_times N_samples (λ _, Ok ()) (λ _, []) (tcp_time w o)
              (EvConnect (ip_address o) 80) sched) as [Hp Hr]; [done|].
  split_and!; [done | done |].
  intros [t e] He. apply fan_out_events in He.
  destruct He as [[i He]|[[i ->]|[[k ->]|[[xs ->]|[i ->]]]]]; try done.
  by apply elem_of_nil in He.
Qed.

Lemma content_fan_events o sched e :
  e ∈ fan_log (content_fan w options o sched) → is_head e = false ∧ is_connect e = false.
Proof.
  destruct e as [t e]. intros He. apply fan_out_events in He.
  destruct He as [[i He]|[[i ->]|[[k ->]|[[xs ->]|[i ->]]]]]; try done.
  by apply list_elem_of_singleton in He as ->.
Qed.

(** The content fan-out when every GET returns a response. *)
Lemma content_fan_ok o sched :
  (∀ j, (j < N_samples)%nat → get_stream w o j = Ok ()) →
  let f := content_fan w options o sched in
  fan_times f ≡ₚ content_successes w options o ∧
  fan_result f = mean (fan_times f).
Proof.
  intros Hpre.
  exact (fan_out_times N_samples (get_stream w o) _ (time_content w o) EvContent sched Hpre).
Qed.

(** [get_http] never touches another key of [performance_output]. *)
Lemma get_http_other o sched k :
  k ≠ "HTTP Response Code" → k ≠ "Number of Redirects" →
  k ≠ "Average Content Load Time" →
  performance_output (get_http w options o sched).2.1 !! k = performance_output o !! k.
Proof.
  intros H1 H2 H3. unfold get_http.
  destruct (requests_head w (ip_to_url o) (c_header o)) as [resp|e]; [|done].
  destruct (status_code resp =? 200)%Z.
  - destruct (fan_result _); simpl; by rewrite ?lookup_insert_ne.
  - simpl. by rewrite ?lookup_insert_ne.
Qed.

(** Exactly one HEAD is issued by [get_http], first of all. *)
Lemma get_http_head o sched :
  filter is_head (get_http w options o sched).1 =
  [(Prober, EvHead (ip_to_url o) (c_header o) true)].
Proof.
  assert (filter is_head (fan_log (content_fan w options o sched)) = []) as Hnil.
  { apply filter_none. intros e He.
    apply content_fan_events in He as [He _]. rewrite He. exact id. }
  unfold get_http.
  destruct (requests_head w (ip_to_url o) (c_header o)) as [resp|e]; simpl.
  - destruct (status_code resp =? 200)%Z; simpl.
    + destruct (fan_result _); simpl; by rewrite filter_cons_True, Hnil.
    + by rewrite filter_cons_True.
  - by rewrite filter_cons_True.
Qed.

(** [test_all], by whether a TCP sample succeeded. *)
Lemma test_all_none o c :
  tcp_successes w options o = [] →
  test_all w options o c =
    (fan_log (tcp_fan w options o (tcp_sched c)), (o, Raise StatisticsError)).
Proof.
  intros Hnil. unfold test_all.
  destruct (tcp_fan_spec o (tcp_sched c)) as (Hp & Hr & _).
  rewrite Hnil in Hp. apply Permutation_nil_r in Hp.
  rewrite Hr, Hp. done.
Qed.

Lemma test_all_some o c :
  tcp_successes w options o ≠ [] →
  ∃ m, is_mean m (tcp_successes w options o) ∧
       let o1 := set_output o "Average TCP Time" (VFloat m) in
       test_all w options o c =
         (fan_log (tcp_fan w options o (tcp_sched c)) ++
            (get_http w options o1 (content_sched c)).1,
          (get_http w options o1 (content_sched c)).2).
Proof.
  intros Hne. unfold test_all.
  destruct (tcp_fan_spec o (tcp_sched c)) as (Hp & Hr & _).
  rewrite Hr.
  destruct (mean (fan_times (tcp_fan w options o (tcp_sched c)))) as [m|e] eqn:Em.
  - exists m. split; [by eapply mean_perm_ok|].
    simpl. by destruct (get_http _ _ _ _).
  - eapply mean_perm_raise in Em as [Hnil _]; [|done]. done.
Qed.
End ProbeFacts.

(** ** The claims about one probe *)

Lemma init_resolved w options h t0 t1 ip :
  gethostbyname w h = TDone t0 t1 ip →
  ∃ o, init w options h = ([(Prober, EvResolve h)], Ok o) ∧
       hostname o = h ∧ ip_address o = ip ∧
       performance_output o =
         <["IP of Domain" := VStr ip]> (<["DNS Time" := VFloat (fsub t1 t0)]> ∅).
Proof. intros H. unfold init. rewrite H. eauto. Qed.

Lemma probe_resolved w options h c o :
  init w options h = ([(Prober, EvResolve h)], Ok o) →
  probe w options h c =
    ((Prober, EvResolve h) :: (test_all w options o c).1,
     match (test_all w options o c).2.2 with
     | Ok _ => Ok (performance_output (test_all w options o c).2.1)
     | Raise e => Raise e
     end).
Proof.
  intros Hi. unfold probe. rewrite Hi.
  destruct (test_all w options o c) as [l [o' [[]|e]]]; done.
Qed.

(** C3, as amended: for a hostname that resolves, the [Average TCP Time]
    of the probe is what [statistics.mean] gives for the durations of the
    TCP samples that succeeded, failed samples ignored: their arithmetic
    mean rounded to the nearest float, whatever the order in which the
    sample threads end; the field is absent exactly when no sample
    succeeded.  In that case the probe does not go on: the
    reduction raises [StatisticsError], no HEAD request is issued and the
    probe has no result.  When a sample succeeded the probe goes on to the
    HEAD request against the resolved IP. *)
Theorem C3_tcp_average w options h c t0 t1 ip :
  gethostbyname w h = TDone t0 t1 ip →
  ∃ o, init w options h = ([(Prober, EvResolve h)], Ok o) ∧ ip_address o = ip ∧
    let succ := tcp_successes w options o in
    let r := test_all w options o c in
    (performance_output r.2.1 !! "Average TCP Time" = None ↔ succ = []) ∧
    (∀ v, performance_output r.2.1 !! "Average TCP Time" = Some v →
          ∃ m, v = VFloat m ∧ is_mean m succ) ∧
    (∀ l out, probe w options h c = (l, Ok out) →
          ∃ m, out !! "Average TCP Time" = Some (VFloat m) ∧ is_mean m succ) ∧
    (succ = [] →
       r.2.2 = Raise StatisticsError ∧ filter is_head r.1 = [] ∧
       ∃ l, probe w options h c = (l, Raise StatisticsError)) ∧
    (succ ≠ [] →
       filter is_head r.1 = [(Prober, EvHead ("http://" +:+ ip +:+ "/") (c_header o) true)]).
Proof.
  intros Hdns.
  destruct (init_resolved w options h t0 t1 ip Hdns) as (o & Hinit & Hh & Hip & Hout).
  exists o. split_and!; [done | done |]. intros succ r.
  assert (performance_output o !! "Average TCP Time" = None) as Hfresh.
  { rewrite Hout. by rewrite !lookup_insert_ne. }
  assert (∀ e, e ∈ fan_log (tcp_fan w options o (tcp_sched c)) → ¬ is_head e) as Hnohead.
  { intros e He. destruct (tcp_fan_spec w options o (tcp_sched c)) as (_ & _ & Hev).
    destruct (Hev e He) as [-> _]. exact id. }
  destruct (decide (succ = [])) as [Hnil|Hne].
  - assert (r = (fan_log (tcp_fan w options o (tcp_sched c)), (o, Raise StatisticsError)))
      as Hr by (by apply test_all_none).
    rewrite (probe_resolved w options h c o Hinit). fold r.
    rewrite Hr. simpl. split_and!.
    + done.
    + intros v Hv. congruence.
    + intros l out [=].
    + intros _. split_and!; [done | by apply filter_none | eauto].
    + done.
  - destruct (test_all_some w options o c Hne) as (m & Hm & Hr). simpl in Hr. fold r in Hr.
    assert (performance_output r.2.1 !! "Average TCP Time" = Some (VFloat m)) as Hfield.
    { rewrite Hr. simpl. rewrite get_http_other by done. simpl. apply lookup_insert_eq. }
    split_and!.
    + rewrite Hfield. split; done.
    + intros v Hv. rewrite Hfield in Hv. injection Hv as <-. eauto.
    + intros l out. rewrite (probe_resolved w options h c o Hinit). fold r.
      destruct (r.2.2) as [[]|e]; [|done]. intros [= _ <-]. eauto.
    + done.
    + intros _. rewrite Hr. simpl. rewrite filter_app, get_http_head.
      rewrite (filter_none _ _ Hnohead). simpl. unfold ip_to_url. simpl. by rewrite Hip.
Qed.

Lemma C3_witness :
  gethostbyname world_ok "good.example" = TDone 0 (1 # 8) "10.0.0.1" ∧
  tcp_successes world_ok (opts 1 2 0) good_object = [fsub (1 # 8) 0; fsub (2 # 8) 0] ∧
  (∃ m, performance_output (test_all world_ok (opts 1 2 0) good_object no_choice).2.1
          !! "Average TCP Time" = Some (VFloat m) ∧
        is_mean m [fsub (1 # 8) 0; fsub (2 # 8) 0] ∧ (m == 3 # 16)%Q) ∧
  (∃ m, performance_output (test_all world_tenths (opts 1 2 0) good_object no_choice).2.1
          !! "Average TCP Time" = Some (VFloat m) ∧
        (m == 1351079888211149 # 9007199254740992)%Q ∧
        ¬ (m * 2 == round64 (1 # 10) + round64 (2 # 10))%Q).
Proof.
  split; [reflexivity|]. split; [reflexivity|]. split.
  - destruct (C3_tcp_average world_ok (opts 1 2 0) "good.example" no_choice
                0 (1 # 8) "10.0.0.1" eq_refl) as (o & Hi & _ & _ & Hmean & _).
    injection Hi as <-.
    destruct (performance_output (test_all world_ok (opts 1 2 0) good_object no_choice).2.1
                !! "Average TCP Time") as [v|] eqn:E.
    + destruct (Hmean v E) as (m & -> & Hm). exists m.
      split; [reflexivity|]. split; [exact Hm|].
      destruct Hm as [_ ->]. vm_compute. reflexivity.
    + exfalso.
      assert (bool_decide (is_Some (performance_output
                (test_all world_ok (opts 1 2 0) good_object no_choice).2.1
                !! "Average TCP Time")) = true) as Hb by (vm_compute; reflexivity).
      apply bool_decide_eq_true in Hb as [v Hv]. congruence.
  - destruct (C3_tcp_average world_tenths (opts 1 2 0) "good.example" no_choice
                0 (1 # 8) "10.0.0.1" eq_refl) as (o & Hi & _ & _ & Hmean & _).
    injection Hi as <-.
    destruct (performance_output (test_all world_tenths (opts 1 2 0) good_object no_choice).2.1
                !! "Average TCP Time") as [v|] eqn:E.
    + destruct (Hmean v E) as (m & -> & Hm). exists m.
      split; [reflexivity|]. destruct Hm as [_ Hm].
      split; [rewrite Hm; vm_compute; reflexivity|].
      rewrite Hm. vm_compute. discriminate.
    + exfalso.
      assert (bool_decide (is_Some (performance_output
                (test_all world_tenths (opts 1 2 0) good_object no_choice).2.1
                !! "Average TCP Time")) = true) as Hb by (vm_compute; reflexivity).
      apply bool_decide_eq_true in Hb as [v Hv]. congruence.
Defined.

(** C3 as stated fails: the name resolves, both TCP samples fail, and the
    probe does not reach the HTTP step: no HEAD request, no result. *)
Lemma C3_counterexample :
  ∃ t0 t1 ip, gethostbyname world_no_tcp "good.example" = TDone t0 t1 ip ∧
  (∀ i, connect world_no_tcp ip 80 i = TFail OSError) ∧
  ∀ c, filter is_head (probe world_no_tcp (opts 1 2 0) "good.example" c).1 = [] ∧
       (probe world_no_tcp (opts 1 2 0) "good.example" c).2 = Raise StatisticsError.
Proof.
  exists 0%Q, (1 # 8)%Q, "10.0.0.1". split_and!; [reflexivity | done |].
  intros c.
  destruct (init_resolved world_no_tcp (opts 1 2 0) "good.example" 0 (1 # 8) "10.0.0.1" eq_refl)
    as (o & Hinit & _ & Hip & _).
  rewrite (probe_resolved _ _ _ c o Hinit).
  rewrite test_all_none by reflexivity. simpl. split; [|done].
  rewrite filter_cons_False by exact id.
  apply filter_none. intros e He.
  destruct (tcp_fan_spec world_no_tcp (opts 1 2 0) o (tcp_sched c)) as (_ & _ & Hev).
  destruct (Hev e He) as [-> _]. exact id.
Qed.

Lemma output_set_eq o k v : performance_output (set_output o k v) !! k = Some v.
Proof. apply lookup_insert_eq. Qed.

Lemma output_set_ne o k k' v :
  k ≠ k' → performance_output (set_output o k v) !! k' = performance_output o !! k'.
Proof. intros. by apply lookup_insert_ne. Qed.

(** What [get_http] has recorded when it returns. *)
Lemma get_http_ok w options o sched :
  (get_http w options o sched).2.2 = Ok () →
  let out := performance_output (get_http w options o sched).2.1 in
  ∃ resp, requests_head w (ip_to_url o) (c_header o) = Ok resp ∧
    out !! "HTTP Response Code" = Some (VInt (status_code resp)) ∧
    out !! "Number of Redirects" = Some (VInt (Z.of_nat (length (history resp)))) ∧
    (status_code resp = 200 →
       ∃ m, out !! "Average Content Load Time" = Some (VFloat m) ∧
            is_mean m (content_successes w options o)) ∧
    (status_code resp ≠ 200 →
       out !! "Average Content Load Time" =
       performance_output o !! "Average Content Load Time").
Proof.
  unfold get_http.
  destruct (requests_head w (ip_to_url o) (c_header o)) as [resp|e]; [|done].
  set (o2 := set_output (set_output o "HTTP Response Code" (VInt (status_code resp)))
               "Number of Redirects" (VInt (Z.of_nat (length (history resp))))).
  assert (performance_output o2 !! "HTTP Response Code" = Some (VInt (status_code resp))) as Hc.
  { unfold o2. rewrite output_set_ne by done. apply output_set_eq. }
  assert (performance_output o2 !! "Number of Redirects"
          = Some (VInt (Z.of_nat (length (history resp))))) as Hn.
  { unfold o2. apply output_set_eq. }
  destruct (Z.eqb_spec (status_code resp) 200) as [H200|Hne]; cbn [fst snd].
  - destruct (fan_result (content_fan w options o sched)) as [m|e] eqn:Em; cbn [fst snd]; [|done].
    intros _. exists resp. apply fan_result_ok in Em as [_ Hm].
    rewrite !output_set_eq, !(output_set_ne _ "Average Content Load Time") by done.
    split_and!; try done. eauto.
  - intros _. exists resp. split_and!; try done.
    intros _. unfold o2. by rewrite !output_set_ne.
Qed.

(** The result of a probe that has one: the name resolved, a TCP sample
    succeeded, HEAD returned, and all of it is in the record. *)
Lemma probe_ok_fields w options h c l out :
  probe w options h c = (l, Ok out) →
  ∃ t0 t1 ip o m resp,
    gethostbyname w h = TDone t0 t1 ip ∧
    init w options h = ([(Prober, EvResolve h)], Ok o) ∧ ip_address o = ip ∧
    requests_head w ("http://" +:+ ip +:+ "/") (c_header o) = Ok resp ∧
    out !! "DNS Time" = Some (VFloat (fsub t1 t0)) ∧
    out !! "IP of Domain" = Some (VStr ip) ∧
    out !! "Average TCP Time" = Some (VFloat m) ∧
    is_mean m (tcp_successes w options o) ∧
    out !! "HTTP Response Code" = Some (VInt (status_code resp)) ∧
    out !! "Number of Redirects" = Some (VInt (Z.of_nat (length (history resp)))) ∧
    (status_code resp = 200 →
       ∃ m', out !! "Average Content Load Time" = Some (VFloat m') ∧
             is_mean m' (successes (samples options) (content w ("http://" +:+ ip +:+ "/")))) ∧
    (status_code resp ≠ 200 → out !! "Average Content Load Time" = None).
Proof.
  intros Hp.
  destruct (gethostbyname w h) as [t0 t1 ip|e] eqn:Hdns;
    [|unfold probe, init in Hp; rewrite Hdns in Hp; done].
  destruct (init_resolved w options h t0 t1 ip Hdns) as (o & Hinit & _ & Hip & Hout).
  rewrite (probe_resolved w options h c o Hinit) in Hp.
  destruct (decide (tcp_successes w options o = [])) as [Hnil|Hne].
  { rewrite test_all_none in Hp by done. done. }
  destruct (test_all_some w options o c Hne) as (m & Hm & Hr). cbn zeta in Hr.
  rewrite Hr in Hp. cbn [fst snd] in Hp.
  set (o1 := set_output o "Average TCP Time" (VFloat m)) in *.
  destruct ((get_http w options o1 (content_sched c)).2.2) as [[]|e] eqn:Hg; [|done].
  injection Hp as _ <-.
  destruct (get_http_ok w options o1 (content_sched c) Hg) as (resp & Hhead & Hc & Hn & H200 & Hne200).
  assert (ip_to_url o1 = "http://" +:+ ip +:+ "/") as Hurl.
  { unfold ip_to_url, o1. simpl. by rewrite Hip. }
  rewrite Hurl in Hhead.
  exists t0, t1, ip, o, m, resp.
  split_and!; try done.
  - rewrite get_http_other by done. unfold o1. rewrite output_set_ne by done.
    rewrite Hout. by rewrite lookup_insert_ne, lookup_insert_eq.
  - rewrite get_http_other by done. unfold o1. rewrite output_set_ne by done.
    rewrite Hout. by rewrite lookup_insert_eq.
  - rewrite get_http_other by done. unfold o1. apply output_set_eq.
  - intros Hs. destruct (H200 Hs) as (m' & Hf & Hm'). exists m'. split; [done|].
    unfold content_successes, time_content in Hm'.
    by rewrite <- Hurl.
  - intros Hs. rewrite (Hne200 Hs). unfold o1. rewrite output_set_ne by done.
    rewrite Hout. by rewrite !lookup_insert_ne.
Qed.

(** What [get_http] leaves in [performance_output] about the content
    load time, whether it returns or not. *)
Lemma get_http_content_field w options o sched resp :
  requests_head w (ip_to_url o) (c_header o) = Ok resp →
  performance_output o !! "Average Content Load Time" = None →
  let r := get_http w options o sched in
  let field := performance_output r.2.1 !! "Average Content Load Time" in
  let succ := content_successes w options o in
  (∀ v, field = Some v → ∃ m, v = VFloat m ∧ status_code resp = 200 ∧ is_mean m succ) ∧
  (status_code resp ≠ 200 → field = None ∧ r.2.2 = Ok ()) ∧
  (status_code resp = 200 → succ = [] → field = None ∧ ∃ e, r.2.2 = Raise e) ∧
  (status_code resp = 200 → succ = [] →
   (∀ j, (j < samples options)%nat → get_stream w o j = Ok ()) →
   r.2.2 = Raise StatisticsError).
Proof.
  intros Hhead Hfresh r field succ. unfold field, r, get_http. rewrite Hhead.
  set (o2 := set_output (set_output o "HTTP Response Code" (VInt (status_code resp)))
               "Number of Redirects" (VInt (Z.of_nat (length (history resp))))).
  assert (performance_output o2 !! "Average Content Load Time" = None) as Hf.
  { unfold o2. by rewrite !output_set_ne. }
  destruct (Z.eqb_spec (status_code resp) 200) as [H200|Hne]; cbn [fst snd].
  - destruct (fan_result (content_fan w options o sched)) as [m|e] eqn:Em; cbn [fst snd].
    + apply fan_result_ok in Em as [_ Hm].
      rewrite output_set_eq.
      split_and!; try done.
      * intros v [= <-]. eauto.
      * intros _ Hnil. by destruct Hm.
      * intros _ Hnil. by destruct Hm.
    + rewrite Hf. split_and!; try done; [eauto|].
      intros _ Hnil Hget.
      destruct (content_fan_ok w options o sched Hget) as [Hp Hr].
      rewrite Hr in Em. eapply mean_perm_raise in Em as [_ ->]; [done | exact Hp].
  - rewrite Hf. split_and!; done.
Qed.

(** C2, as amended: in the result of every probe that has one, the
    [Average Content Load Time] is present if and only if the recorded
    status code is 200 and a content sample succeeded, and it is then what
    [statistics.mean] gives for the successful content samples, their mean
    rounded to the nearest float; for a final status other than 200 it is
    absent.  When the status is 200 and every content sample fails, the
    field is never set and the probe has no result: an exception leaves
    it, and when every GET of the content loop returned a response that
    exception is the [StatisticsError] of the mean of an empty list. *)
Theorem C2_content_field w options h c o :
  init w options h = ([(Prober, EvResolve h)], Ok o) →
  let r := probe w options h c in
  let succ := content_successes w options o in
  (∀ out, r.2 = Ok out →
     ∃ resp, requests_head w (ip_to_url o) (c_header o) = Ok resp ∧
       out !! "HTTP Response Code" = Some (VInt (status_code resp)) ∧
       (is_Some (out !! "Average Content Load Time") ↔ status_code resp = 200 ∧ succ ≠ []) ∧
       (status_code resp ≠ 200 → out !! "Average Content Load Time" = None) ∧
       (∀ v, out !! "Average Content Load Time" = Some v → ∃ m, v = VFloat m ∧ is_mean m succ)) ∧
  (∀ resp, requests_head w (ip_to_url o) (c_header o) = Ok resp →
     status_code resp = 200 → succ = [] →
     performance_output (test_all w options o c).2.1 !! "Average Content Load Time" = None ∧
     (∃ e, r.2 = Raise e) ∧
     ((∀ j, (j < samples options)%nat → get_stream w o j = Ok ()) →
      r.2 = Raise StatisticsError)).
Proof.
  intros Hinit r succ. split.
  - intros out Hout.
    destruct r as [l r2] eqn:Hr. simpl in Hout. subst r2.
    destruct (probe_ok_fields w options h c l out Hr)
      as (t0 & t1 & ip & o' & m & resp & _ & Hinit' & Hip & Hhead & _ & _ & _ & _ & Hc & _ & H200 & Hne).
    assert (o' = o) as -> by congruence.
    assert (ip_to_url o = "http://" +:+ ip +:+ "/") as Hurl.
    { unfold ip_to_url. by rewrite Hip. }
    unfold succ, content_successes, time_content. rewrite Hurl.
    exists resp. split_and!; try done.
    + destruct (decide (status_code resp = 200)) as [Hs|Hs].
      * destruct (H200 Hs) as (m' & -> & [Hm' _]). split; [done | eauto].
      * rewrite (Hne Hs). split; [by intros [? [=]] | by intros [? _]].
    + intros v Hv. destruct (decide (status_code resp = 200)) as [Hs|Hs].
      * destruct (H200 Hs) as (m' & Hf & Hm'). rewrite Hf in Hv. injection Hv as <-. eauto.
      * rewrite (Hne Hs) in Hv. done.
  - intros resp Hhead H200 Hnil. unfold r.
    rewrite (probe_resolved w options h c o Hinit).
    assert (performance_output o !! "Average Content Load Time" = None) as Hfresh0.
    { unfold init in Hinit. destruct (gethostbyname w h); [|done].
      injection Hinit as <-. simpl. by rewrite !lookup_insert_ne. }
    destruct (decide (tcp_successes w options o = [])) as [Ht|Ht].
    { rewrite test_all_none by done. simpl. split_and!; [done | eauto | done]. }
    destruct (test_all_some w options o c Ht) as (m & _ & ->). cbn [fst snd].
    set (o1 := set_output o "Average TCP Time" (VFloat m)).
    assert (performance_output o1 !! "Average Content Load Time" = None) as Hfresh.
    { unfold o1. by rewrite output_set_ne. }
    destruct (get_http_content_field w options o1 (content_sched c) resp Hhead Hfresh)
      as (_ & _ & Hraise & Hstat).
    destruct (Hraise H200 Hnil) as (Hfield & e & He).
    split_and!; [exact Hfield | rewrite He; eauto |].
    intros Hget. by rewrite (Hstat H200 Hnil Hget).
Qed.

Lemma C2_witness :
  init world_500 (opts 1 2 0) "good.example"
    = ([(Prober, EvResolve "good.example")], Ok good_object) ∧
  ∃ out, (probe world_500 (opts 1 2 0) "good.example" no_choice).2 = Ok out ∧
         out !! "HTTP Response Code" = Some (VInt 500) ∧
         out !! "Average Content Load Time" = None.
Proof.
  split; [reflexivity|].
  destruct ((probe world_500 (opts 1 2 0) "good.example" no_choice).2) as [out|e] eqn:E.
  - exists out. split; [reflexivity|].
    destruct (proj1 (C2_content_field world_500 (opts 1 2 0) "good.example" no_choice
                       good_object eq_refl) out E) as (resp & Hhead & Hcode & _ & Hne & _).
    injection Hhead as <-. split; [exact Hcode|]. apply Hne. discriminate.
  - vm_compute in E. discriminate E.
Defined.

(** C2 as stated fails: HEAD answers 200, every content sample fails, and
    the probe does not survive: [StatisticsError] leaves it. *)
Lemma C2_counterexample :
  requests_head world_no_content "http://10.0.0.1/" {[ "host" := "good.example" ]} = Ok ok200 ∧
  (∀ url i, content world_no_content url i = TFail RequestException) ∧
  ∀ c, (probe world_no_content (opts 1 2 0) "good.example" c).2 = Raise StatisticsError.
Proof.
  split_and!; [reflexivity | done |]. intros c.
  destruct (init_resolved world_no_content (opts 1 2 0) "good.example" 0 (1 # 8) "10.0.0.1" eq_refl)
    as (o & Hinit & _ & Hip & _).
  rewrite (probe_resolved _ _ _ c o Hinit).
  destruct (test_all_some world_no_content (opts 1 2 0) o c) as (m & _ & ->); [done|].
  simpl. unfold get_http. simpl.
  destruct (content_fan_ok world_no_content (opts 1 2 0)
              (set_output o "Average TCP Time" (VFloat m)) (content_sched c)) as [Hp Hr]; [done|].
  apply Permutation_nil_r in Hp. rewrite Hr, Hp. done.
Qed.

(** [get_http] records the status and the redirect count as soon as HEAD
    has returned, whatever happens in the content loop. *)
Lemma get_http_recorded w options o sched resp :
  requests_head w (ip_to_url o) (c_header o) = Ok resp →
  let out := performance_output (get_http w options o sched).2.1 in
  out !! "HTTP Response Code" = Some (VInt (status_code resp)) ∧
  out !! "Number of Redirects" = Some (VInt (Z.of_nat (length (history resp)))).
Proof.
  intros Hhead. unfold get_http. rewrite Hhead.
  destruct (status_code resp =? 200)%Z; cbn [fst snd].
  - destruct (fan_result _); cbn [fst snd];
      rewrite ?(output_set_ne _ "Average Content Load Time") by done;
      rewrite output_set_eq, output_set_ne, output_set_eq by done; done.
  - rewrite output_set_eq, output_set_ne, output_set_eq by done. done.
Qed.

(** C7: a probe that reaches the HTTP step (the name resolved and a TCP
    sample succeeded) issues exactly one HEAD request, to
    [http://<resolved IP>/], with redirects followed, and with the headers
    [host], set to the original hostname, and [User-agent], set only when a
    user agent is configured; the status of the final response is recorded
    as [HTTP Response Code] and the length of its redirect history as
    [Number of Redirects].  A server that chains three redirects to a
    final 200 gives a response with status 200 and a history of three. *)
Theorem C7_head_request w options h c o :
  init w options h = ([(Prober, EvResolve h)], Ok o) →
  tcp_successes w options o ≠ [] →
  let r := test_all w options o c in
  let url := "http://" +:+ ip_address o +:+ "/" in
  c_header o !! "host" = Some h ∧
  (∀ a ua, user_agent options = Some (String a ua) →
           c_header o !! "User-agent" = Some (String a ua)) ∧
  (user_agent options = None ∨ user_agent options = Some EmptyString →
           c_header o !! "User-agent" = None) ∧
  (∀ k, k ≠ "host" → k ≠ "User-agent" → c_header o !! k = None) ∧
  filter is_head r.1 = [(Prober, EvHead url (c_header o) true)] ∧
  (∀ resp, requests_head w url (c_header o) = Ok resp →
     performance_output r.2.1 !! "HTTP Response Code" = Some (VInt (status_code resp)) ∧
     performance_output r.2.1 !! "Number of Redirects"
       = Some (VInt (Z.of_nat (length (history resp))))) ∧
  (∀ headers, requests_over chain3 "http://10.0.0.1/" headers
              = Ok {| status_code := 200; history := [301; 302; 307] |}).
Proof.
  intros Hinit Hne r url.
  assert (c_header o =
          match user_agent options with
          | Some (String a ua) => <["User-agent" := String a ua]> {[ "host" := h ]}
          | _ => {[ "host" := h ]}
          end) as Hhdr.
  { unfold init in Hinit. destruct (gethostbyname w h); [|done]. by injection Hinit as <-. }
  destruct (test_all_some w options o c Hne) as (m & _ & Hr). cbn zeta in Hr. fold r in Hr.
  set (o1 := set_output o "Average TCP Time" (VFloat m)) in Hr.
  assert (∀ e, e ∈ fan_log (tcp_fan w options o (tcp_sched c)) → ¬ is_head e) as Hnohead.
  { intros e He. destruct (tcp_fan_spec w options o (tcp_sched c)) as (_ & _ & Hev).
    destruct (Hev e He) as [-> _]. exact id. }
  split_and!.
  - rewrite Hhdr. destruct (user_agent options) as [[|a ua]|].
    + apply lookup_singleton_eq.
    + rewrite lookup_insert_ne by done. apply lookup_singleton_eq.
    + apply lookup_singleton_eq.
  - intros a ua Hua. rewrite Hhdr, Hua. apply lookup_insert_eq.
  - intros [Hua|Hua]; rewrite Hhdr, Hua; by apply lookup_singleton_ne.
  - intros k Hk1 Hk2. rewrite Hhdr. destruct (user_agent options) as [[|a ua]|].
    + by apply lookup_singleton_ne.
    + rewrite lookup_insert_ne by done. by apply lookup_singleton_ne.
    + by apply lookup_singleton_ne.
  - rewrite Hr. cbn [fst]. rewrite filter_app, get_http_head.
    by rewrite (filter_none _ _ Hnohead).
  - intros resp Hhead. rewrite Hr. cbn [snd].
    by apply (get_http_recorded w options o1).
  - reflexivity.
Qed.

Lemma C7_witness :
  init world_redirects (opts 1 2 0) "good.example"
    = ([(Prober, EvResolve "good.example")], Ok good_object) ∧
  tcp_successes world_redirects (opts 1 2 0) good_object ≠ [] ∧
  let out := performance_output (test_all world_redirects (opts 1 2 0) good_object no_choice).2.1 in
  out !! "HTTP Response Code" = Some (VInt 200) ∧
  out !! "Number of Redirects" = Some (VInt 3).
Proof.
  split; [reflexivity|]. split; [discriminate|].
  exact (proj1 (proj2 (proj2 (proj2 (proj2 (proj2
    (C7_head_request world_redirects (opts 1 2 0) "good.example" no_choice good_object
       eq_refl ltac:(discriminate)))))))
    {| status_code := 200; history := [301; 302; 307] |} eq_refl).
Defined.

(** C4, as amended: under every schedule the TCP fan-out starts exactly
    [N] sample threads, all of them before its first join, and takes the
    mean only after all [N] have ended, however many of them failed; the
    content fan-out does the same provided each of its [N] GET requests,
    which it issues itself one after the other before starting the
    sample's thread, returns a response.  A fan-out that returns a value
    returns what [statistics.mean] gives for the durations of the samples
    that succeeded: their arithmetic mean, rounded to the nearest float. *)
Theorem C4_fan_out w options o sched :
  let N := samples options in
  let f := tcp_fan w options o sched in
  let g := content_fan w options o sched in
  (all_ended N f ∧
   prober_log f = (EvStart <$> seq 0 N) ++ (EvJoin <$> seq 0 N) ++ [EvMean (fan_times f)] ∧
   (∃ l, fan_log f = l ++ [(Prober, EvMean (fan_times f))] ∧
         omap sampler_of l ≡ₚ seq 0 N) ∧
   fan_times f ≡ₚ tcp_successes w options o ∧
   fan_result f = mean (fan_times f) ∧
   ∀ m, fan_result f = Ok m → is_mean m (tcp_successes w options o)) ∧
  ((∀ j, (j < N)%nat → get_stream w o j = Ok ()) →
   all_ended N g ∧
   prober_log g = (seq 0 N ≫= λ i, [EvGet (ip_to_url o) (c_header o) true i; EvStart i]) ++
                  (EvJoin <$> seq 0 N) ++ [EvMean (fan_times g)] ∧
   (∃ l, fan_log g = l ++ [(Prober, EvMean (fan_times g))] ∧
         omap sampler_of l ≡ₚ seq 0 N) ∧
   fan_times g ≡ₚ content_successes w options o ∧
   fan_result g = mean (fan_times g)) ∧
  (∀ m, fan_result g = Ok m →
        (∀ j, (j < N)%nat → get_stream w o j = Ok ()) ∧
        is_mean m (content_successes w options o)).
Proof.
  intros N f g. split; [|split].
  - destruct (fan_out_ok N (λ _, Ok ()) (λ _, []) (tcp_time w o)
                (EvConnect (ip_address o) 80) sched) as (Hall & Hpc & _ & _ & Hlog & Hpl); [done|].
    destruct (tcp_fan_spec w options o sched) as (Hp & Hr & _).
    refine (conj Hall (conj _ (conj Hlog (conj Hp (conj Hr _))))).
    + rewrite (Hpl : prober_log f = _). by f_equal.
    + intros m Hm. fold f in Hr. rewrite Hr in Hm. by eapply mean_perm_ok.
  - intros Hpre.
    destruct (fan_out_ok N (get_stream w o) (λ i, [EvGet (ip_to_url o) (c_header o) true i])
                (time_content w o) EvContent sched Hpre) as (Hall & Hpc & _ & _ & Hlog & Hpl).
    destruct (content_fan_ok w options o sched Hpre) as (Hp & Hr).
    exact (conj Hall (conj Hpl (conj Hlog (conj Hp Hr)))).
  - intros m Hm. by apply fan_result_ok in Hm.
Qed.

Lemma C4_witness :
  all_ended 2 (content_fan world_ok (opts 1 2 0) good_object []).
Proof.
  refine (proj1 (proj1 (proj2 (C4_fan_out world_ok (opts 1 2 0) good_object [])) _)).
  intros j Hj. reflexivity.
Defined.

(** C4 as stated fails for the content fan-out: with two samples and the
    second GET failing, under every schedule only one sample thread is
    started, nothing is joined and no mean is taken. *)
Lemma C4_counterexample :
  samples (opts 1 2 0) = 2%nat ∧
  ∀ sched,
    let g := content_fan world_get_fails (opts 1 2 0) good_object sched in
    length (fan_threads g) = 1%nat ∧
    fan_result g = Raise RequestException ∧
    prober_log g = [EvGet "http://10.0.0.1/" {[ "host" := "good.example" ]} true 0;
                    EvStart 0;
                    EvGet "http://10.0.0.1/" {[ "host" := "good.example" ]} true 1].
Proof.
  split; [reflexivity|]. intros sched g.
  destruct (fan_out_raise 2 (get_stream world_get_fails good_object)
              (λ i, [EvGet (ip_to_url good_object) (c_header good_object) true i])
              (time_content world_get_fails good_object) EvContent sched 1 RequestException)
    as (Hpc & Hlen & Hpl).
  - lia.
  - reflexivity.
  - intros j Hj. assert (j = 0%nat) as -> by lia. reflexivity.
  - split_and!; [done | by apply fan_result_returned | exact Hpl].
Qed.

(** C8, as amended: in the content fan-out every GET is performed by the
    probing thread itself, never by a sample thread; a sample thread
    performs one thing, the read of the body of its response.  When every
    GET returns, the probing thread has issued GET 0, started thread 0,
    issued GET 1, started thread 1, and so on, before joining; every sample
    thread has run once; and the durations collected are those of the body
    reads alone, between the two clock readings of [time_content]. *)
Theorem C8_content_samples w options o sched :
  let N := samples options in
  let g := content_fan w options o sched in
  (∀ t e, (t, e) ∈ fan_log g → is_get (t, e) → t = Prober) ∧
  (∀ i e, (Sampler i, e) ∈ fan_log g → e = EvContent i) ∧
  ((∀ j, (j < N)%nat → get_stream w o j = Ok ()) →
   prober_log g = (seq 0 N ≫= λ i, [EvGet (ip_to_url o) (c_header o) true i; EvStart i]) ++
                  (EvJoin <$> seq 0 N) ++ [EvMean (fan_times g)] ∧
   done_order g ≡ₚ seq 0 N ∧
   fan_times g = omap (λ i, duration (content w (ip_to_url o) i)) (done_order g)).
Proof.
  intros N g.
  assert (∀ i e, (Sampler i, e) ∈ fan_log g → e = EvContent i) as Hsam.
  { intros i e. apply fan_out_sampler_entries. }
  split_and!; [|done|].
  - intros [|i] e He Hget; [done|]. apply Hsam in He as ->. done.
  - intros Hpre.
    destruct (fan_out_ok N (get_stream w o) (λ i, [EvGet (ip_to_url o) (c_header o) true i])
                (time_content w o) EvContent sched Hpre) as (_ & _ & Hperm & Htimes & _ & Hpl).
    split_and!; done.
Qed.

Lemma C8_witness :
  done_order (content_fan world_ok (opts 1 2 0) good_object []) ≡ₚ [0; 1]%nat.
Proof.
  refine (proj1 (proj2 (proj2 (proj2
    (C8_content_samples world_ok (opts 1 2 0) good_object [])) _))).
  intros j Hj. reflexivity.
Defined.

(** When the probe has a result: the name resolves, a TCP sample succeeds,
    HEAD returns, and for a status of 200 every GET returns and a body is
    read to its end. *)
Lemma probe_returns w options h c o resp :
  init w options h = ([(Prober, EvResolve h)], Ok o) →
  tcp_successes w options o ≠ [] →
  requests_head w (ip_to_url o) (c_header o) = Ok resp →
  (status_code resp ≠ 200 ∨
   ((∀ j, (j < samples options)%nat → get_stream w o j = Ok ()) ∧
    content_successes w options o ≠ [])) →
  ∃ l out, probe w options h c = (l, Ok out).
Proof.
  intros Hinit Htcp Hhead Hcontent.
  rewrite (probe_resolved w options h c o Hinit).
  destruct (test_all_some w options o c Htcp) as (m & _ & ->). cbn [fst snd].
  set (o1 := set_output o "Average TCP Time" (VFloat m)).
  assert ((get_http w options o1 (content_sched c)).2.2 = Ok ()) as ->; [|eauto].
  unfold get_http.
  change (ip_to_url o1) with (ip_to_url o). change (c_header o1) with (c_header o).
  rewrite Hhead.
  destruct (Z.eqb_spec (status_code resp) 200) as [H200|Hne]; [|done].
  destruct Hcontent as [?|[Hget Hsucc]]; [done|].
  destruct (content_fan_ok w options o1 (content_sched c) Hget) as [Hp Hr].
  rewrite Hr.
  destruct (mean _) as [m'|e] eqn:Em; [done|].
  eapply mean_perm_raise in Em as [Hnil _]; [|exact Hp]. done.
Qed.

(** C8 as stated fails: with one sample, a GET that takes 5 s to return
    the response headers and a body that takes 1 s more, the operation the
    specification describes lasts 6 s, and the probe records 1 s. *)
Lemma C8_counterexample :
  omap (spec_content_sample world_ok good_object) (seq 0 1) = [fsub 6 0] ∧
  (fsub 6 0 == 6)%Q ∧
  ∀ c, ∃ l out m,
    probe world_ok (opts 1 1 0) "good.example" c = (l, Ok out) ∧
    out !! "Average Content Load Time" = Some (VFloat m) ∧
    (m == 1)%Q ∧ ¬ (m == fsub 6 0)%Q.
Proof.
  split; [reflexivity|]. split; [vm_compute; reflexivity|]. intros c.
  destruct (probe_returns world_ok (opts 1 1 0) "good.example" c good_object ok200)
    as (l & out & Hp); [reflexivity | discriminate | reflexivity | |].
  { right. split; [intros j Hj; reflexivity | discriminate]. }
  exists l, out.
  destruct (probe_ok_fields _ _ _ _ _ _ Hp)
    as (t0 & t1 & ip & o & m & resp & Hdns & _ & _ & Hhead & _ & _ & _ & _ & _ & _ & H200 & _).
  injection Hdns as <- <- <-. injection Hhead as <-.
  destruct (H200 eq_refl) as (m' & Hf & _ & Hm').
  change (successes _ _) with [fsub 6 5] in Hm'.
  exists m'. split_and!; [done | done | |].
  - rewrite Hm'. vm_compute. reflexivity.
  - rewrite Hm'. vm_compute. discriminate.
Qed.

(** With no sample thread to start, the TCP fan-out connects to nothing. *)
Lemma tcp_fan_no_samples w options o sched e :
  samples options = 0%nat →
  e ∈ fan_log (tcp_fan w options o sched) → ¬ is_connect e.
Proof.
  intros H0 He.
  destruct (fan_out_ok (samples options) (λ _, Ok ()) (λ _, []) (tcp_time w o)
              (EvConnect (ip_address o) 80) sched) as (_ & _ & Hperm & _ & _ & Hpl); [done|].
  destruct e as [[|i] ev].
  - apply prober_entry_log in He. unfold tcp_fan in He. rewrite Hpl, H0 in He.
    apply list_elem_of_singleton in He as ->. exact id.
  - assert (i ∈ done_order (tcp_fan w options o sched)) as Hi.
    { apply list_elem_of_omap. by exists (Sampler i, ev). }
    unfold tcp_fan in Hi. rewrite Hperm, H0 in Hi. by apply elem_of_nil in Hi.
Qed.

(** C9, as amended: a sample count of 0 (or less) is not rejected before
    the run starts: once the options are parsed and the host file is read,
    [main] starts the run, whatever the count is.  The count surfaces at
    fan-out time, inside the probes, during the run: every probe of a name
    that resolves raises [StatisticsError] in the TCP fan-out, having
    connected to nothing and issued no HEAD request, and that exception
    ends the worker that ran the probe. *)
Theorem C9_sample_count_zero w options :
  (test_threads options ≤ 0)%Z →
  (∀ fs z_s sched name lines,
     hostname_file options = Some name → fs name = Ok lines →
     main w (Ok options) fs z_s sched
     = Ok (run w options z_s (rstrip <$> lines) sched)) ∧
  (∀ h c t0 t1 ip, gethostbyname w h = TDone t0 t1 ip →
     (probe w options h c).2 = Raise StatisticsError ∧
     filter is_connect (probe w options h c).1 = [] ∧
     filter is_head (probe w options h c).1 = []) ∧
  (∀ z_s wk c s h t0 t1 ip, gethostbyname w h = TDone t0 t1 ip →
     exited s = false → threads s !! wk = Some (WWork h) →
     worker_step w options z_s wk c s
     = Some (goes wk (WDied h StatisticsError) [PProbe wk h (probe w options h c).1] s)).
Proof.
  intros Hzero.
  assert (samples options = 0%nat) as H0 by (unfold samples; lia).
  assert (∀ h c t0 t1 ip, gethostbyname w h = TDone t0 t1 ip →
            (probe w options h c).2 = Raise StatisticsError ∧
            filter is_connect (probe w options h c).1 = [] ∧
            filter is_head (probe w options h c).1 = []) as Hprobe.
  { intros h c t0 t1 ip Hdns.
    destruct (init_resolved w options h t0 t1 ip Hdns) as (o & Hinit & _).
    rewrite (probe_resolved w options h c o Hinit).
    assert (tcp_successes w options o = []) as Hnil.
    { unfold tcp_successes, successes. by rewrite H0. }
    rewrite test_all_none by done. cbn [fst snd].
    split_and!; [done | |].
    + rewrite filter_cons_False by exact id.
      apply filter_none. intros e He. by eapply tcp_fan_no_samples.
    + rewrite filter_cons_False by exact id.
      apply filter_none. intros e He.
      destruct (tcp_fan_spec w options o (tcp_sched c)) as (_ & _ & Hev).
      destruct (Hev e He) as [-> _]. exact id. }
  split_and!.
  - intros fs z_s sched name lines Hfile Hfs. unfold main, read_hosts.
    by rewrite Hfile, Hfs.
  - exact Hprobe.
  - intros z_s wk c s h t0 t1 ip Hdns Halive Hth.
    destruct (Hprobe h c t0 t1 ip Hdns) as (Hr & _).
    unfold worker_step. rewrite Halive, Hth.
    destruct (probe w options h c) as [l r]. simpl in Hr. by rewrite Hr.
Qed.

Lemma C9_witness :
  main world_ok (Ok (opts 1 0 0)) (hosts_txt ["good.example" +:+ nl; "bad.example  "]) 0 []
  = Ok (run world_ok (opts 1 0 0) 0 (rstrip <$> ["good.example" +:+ nl; "bad.example  "]) []) ∧
  rstrip <$> ["good.example" +:+ nl; "bad.example  "] = ["good.example"; "bad.example"].
Proof.
  split; [|reflexivity].
  exact (proj1 (C9_sample_count_zero world_ok (opts 1 0 0) ltac:(simpl; lia))
           (hosts_txt ["good.example" +:+ nl; "bad.example  "]) 0%Q []
           "hosts.txt" ["good.example" +:+ nl; "bad.example  "] eq_refl eq_refl).
Defined.

(** C9 as stated fails: with a sample count of 0 the options and the host
    file are read without complaint and the run starts; the failure comes
    up at fan-out time, inside the probe of a name that resolves, and ends
    the worker that ran it. *)
Lemma C9_counterexample :
  test_threads (opts 1 0 0) = 0 ∧
  read_hosts (hosts_txt ["good.example" +:+ nl]) (opts 1 0 0) = Ok ["good.example"] ∧
  (∃ s, main world_ok (Ok (opts 1 0 0)) (hosts_txt ["good.example" +:+ nl]) 0
          one_worker_sched = Ok s ∧
        threads s = [WDied "good.example" StatisticsError] ∧
        host_perfs s = ∅ ∧ main_pc s = MJoinQ) ∧
  ∀ c, probe world_ok (opts 1 0 0) "good.example" c
       = ([(Prober, EvResolve "good.example"); (Prober, EvMean [])], Raise StatisticsError).
Proof.
  split_and!; [reflexivity | reflexivity | |].
  { eexists. split; [reflexivity|]. vm_compute. repeat split. }
  intros c.
  rewrite (probe_resolved world_ok (opts 1 0 0) "good.example" c good_object eq_refl).
  rewrite test_all_none by reflexivity. cbn [fst snd]. f_equal. f_equal.
  destruct (fan_out_ok 0 (λ _, Ok ()) (λ _, []) (tcp_time world_ok good_object)
              (EvConnect "10.0.0.1" 80) (tcp_sched c)) as (_ & _ & _ & Htimes & (l & Hlog & Hl) & Hpl);
    [done|].
  change (tcp_fan world_ok (opts 1 0 0) good_object (tcp_sched c))
    with (fan_out 0 (λ _, Ok ()) (λ _, []) (tcp_time world_ok good_object)
            (EvConnect "10.0.0.1" 80) (tcp_sched c)).
  set (f := fan_out _ _ _ _ _ _) in *.
  apply Permutation_nil_r in Hl.
  assert (fan_times f = []) as Ht.
  { rewrite Htimes. unfold done_order. rewrite Hlog, omap_app, Hl. done. }
  rewrite Ht in Hlog, Hpl.
  assert (l = []) as ->; [|done].
  unfold prober_log in Hpl. rewrite Hlog, omap_app in Hpl. simpl in Hpl.
  apply (f_equal length) in Hpl. rewrite length_app in Hpl. simpl in Hpl.
  destruct l as [|[t ev] l]; [done|]. exfalso.
  destruct t as [|i].
  - simpl in Hpl. lia.
  - simpl in Hl. done.
Qed.

(** ** The pool *)

Lemma occ_app h l1 l2 : occ h (l1 ++ l2) = (occ h l1 + occ h l2)%nat.
Proof. induction l1 as [|x l1 IH]; simpl; [done|]. rewrite IH. lia. Qed.

Lemma occ_elem_of h l : h ∈ l ↔ (0 < occ h l)%nat.
Proof.
  induction l as [|x l IH]; simpl.
  - split; [intros H; by apply elem_of_nil in H | lia].
  - rewrite elem_of_cons, IH. destruct (decide (x = h)) as [->|Hne]; [split; [lia | by left]|].
    split; [intros [->|?]; [done | lia] | intros ?; right; lia].
Qed.

Lemma total_app f ts1 ts2 : total f (ts1 ++ ts2) = (total f ts1 + total f ts2)%nat.
Proof. apply sum_list_with_app. Qed.

Lemma total_insert f ts i old new :
  ts !! i = Some old →
  (total f (<[i := new]> ts) + f old = total f ts + f new)%nat.
Proof.
  intros Hi. apply lookup_lt_Some in Hi as Hlt.
  rewrite insert_take_drop by done.
  rewrite <- (take_drop_middle ts i old Hi) at 3.
  rewrite !total_app. unfold total. simpl. lia.
Qed.

Lemma total_le f g ts : (∀ st, f st ≤ g st)%nat → (total f ts ≤ total g ts)%nat.
Proof.
  intros Hfg. unfold total. induction ts as [|x ts IH]; simpl; [done|].
  specialize (Hfg x). lia.
Qed.

Lemma holds_owed h st : (occ h (holds st) ≤ owed st)%nat.
Proof. destruct st; simpl; try lia; case_decide; lia. Qed.

Lemma stored_app tr1 tr2 : stored (tr1 ++ tr2) = stored tr1 ++ stored tr2.
Proof. apply omap_app. Qed.

Lemma queued_app q1 q2 : queued (q1 ++ q2) = queued q1 ++ queued q2.
Proof. apply omap_app. Qed.

(** The cases of a step of a worker, of the main thread. *)
Ltac worker_cases Hstep :=
  unfold worker_step in Hstep;
  destruct (exited _) eqn:Hex; [discriminate|];
  destruct (threads _ !! _) as [[| |h0|h0 out0|h0| |h0 e0|e0]|] eqn:Hth; try discriminate;
  [ destruct (timeout_check _ _ _) as [| | |e0] eqn:Hck
  | destruct (q _) as [|item rest] eqn:Hq; [discriminate|]
  | destruct (probe _ _ _ _) as [l0 [out0|e0]] eqn:Hprobe
  | | ];
  injection Hstep as <-.

Ltac main_cases Hstep :=
  unfold main_step in Hstep;
  destruct (exited _) eqn:Hex; [discriminate|];
  destruct (main_pc _) as [|[|item rest]| |k|k|] eqn:Hpc; try discriminate;
  [ match type of Hstep with
    | context [(length ?ts <? ?n)%nat] =>
        destruct (Nat.ltb_spec (length ts) n) as [Hlt|Hge]
    end
  | | | destruct (unfinished_tasks _) as [|n] eqn:Hun; [|discriminate]
  | match type of Hstep with
    | context [(k <? ?n)%nat] => destruct (Nat.ltb_spec k n) as [Hlt|Hge]
    end
  | destruct (threads _ !! k) as [st|] eqn:Hth;
    [destruct (joinable st) eqn:Hjoin; [|discriminate]|] ];
  injection Hstep as <-.

Section PoolFacts.
Variable w : World.
Variable options : Options.
Variable z_s : Q.
Variable host_list : list string.

Local Abbreviation wstep := (worker_step w options z_s).
Local Abbreviation mstep := (main_step options host_list).
Local Abbreviation pstep := (pool_step w options z_s host_list).
Local Abbreviation pexec := (pool_exec w options z_s host_list).

Lemma pool_init_accounted : accounted host_list pool_init.
Proof.
  unfold accounted, pool_init; simpl. split_and!; done.
Qed.

Lemma worker_step_accounted wk c s s' :
  accounted host_list s → wstep wk c s = Some s' → accounted host_list s'.
Proof.
  intros (Hocc & Hun & Hdom) Hstep. unfold accounted.
  worker_cases Hstep; simpl;
    rewrite ?stored_app; simpl; rewrite ?app_nil_r;
    try (pose proof (total_insert owed _ _ _ WGet Hth) as Ho1);
    try (pose proof (total_insert owed _ _ _ WBroke Hth) as Ho2);
    try (pose proof (total_insert owed _ _ _ WHead Hth) as Ho3);
    try (pose proof (total_insert owed _ _ _ (WTaskDone h0) Hth) as Ho4);
    try (pose proof (λ out, total_insert owed _ _ _ (WStore h0 out) Hth) as Ho5);
    try (pose proof (λ e, total_insert owed _ _ _ (WDied h0 e) Hth) as Ho6);
    try (pose proof (λ h, total_insert owed _ _ _ (WWork h) Hth) as Ho7);
    try (pose proof (λ e, total_insert owed _ _ _ (WCrashed e) Hth) as Ho8);
    simpl in *.
  - (* check skipped *)
    split_and!; [|destruct (dispatching (main_pc s)); [lia | split; [tauto | lia]]|done].
    intros h. specialize (Hocc h).
    pose proof (total_insert (λ st, occ h (holds st)) _ _ _ WGet Hth). simpl in *. lia.
  - (* os._exit *)
    split_and!; done.
  - (* check passed *)
    split_and!; [|destruct (dispatching (main_pc s)); [lia | split; [tauto | lia]]|done].
    intros h. specialize (Hocc h).
    pose proof (total_insert (λ st, occ h (holds st)) _ _ _ WGet Hth). simpl in *. lia.
  - (* the check raised *)
    specialize (Ho8 e0).
    split_and!; [|destruct (dispatching (main_pc s)); [lia | split; [tauto | lia]]|done].
    intros h. specialize (Hocc h).
    pose proof (total_insert (λ st, occ h (holds st)) _ _ _ (WCrashed e0) Hth).
    simpl in *. lia.
  - (* q.get() *)
    destruct item as [hq|]; simpl in *.
    + split_and!; [| |done].
      * intros h. specialize (Hocc h).
        pose proof (total_insert (λ st, occ h (holds st)) _ _ _ (WWork hq) Hth).
        simpl in *. lia.
      * specialize (Ho7 hq). destruct (dispatching (main_pc s)); [lia | by destruct Hun].
    + split_and!; [| |done].
      * intros h. specialize (Hocc h).
        pose proof (total_insert (λ st, occ h (holds st)) _ _ _ WBroke Hth).
        simpl in *. lia.
      * destruct (dispatching (main_pc s)); [lia | split; [tauto | lia]].
  - (* the probe returned *)
    split_and!; [| |done].
    + intros h. specialize (Hocc h).
      pose proof (total_insert (λ st, occ h (holds st)) _ _ _ (WStore h0 out0) Hth).
      simpl in *. lia.
    + specialize (Ho5 out0). destruct (dispatching (main_pc s)); [lia | split; [tauto | lia]].
  - (* the probe raised *)
    split_and!; [| |done].
    + intros h. specialize (Hocc h).
      pose proof (total_insert (λ st, occ h (holds st)) _ _ _ (WDied h0 e0) Hth).
      simpl in *. lia.
    + specialize (Ho6 e0). destruct (dispatching (main_pc s)); [lia | split; [tauto | lia]].
  - (* host_perfs[h] = ... *)
    split_and!.
    + intros h. specialize (Hocc h). rewrite occ_app. simpl.
      pose proof (total_insert (λ st, occ h (holds st)) _ _ _ (WTaskDone h0) Hth).
      simpl in *. lia.
    + destruct (dispatching (main_pc s)); [lia | split; [tauto | lia]].
    + rewrite dom_insert_L, list_to_set_app_L, Hdom. simpl.
      by rewrite union_empty_r_L, (comm_L (∪)).
  - (* q.task_done() *)
    split_and!; [| |done].
    + intros h. specialize (Hocc h).
      pose proof (total_insert (λ st, occ h (holds st)) _ _ _ WHead Hth).
      simpl in *. lia.
    + destruct (dispatching (main_pc s)); [lia | split; [tauto | lia]].
Qed.
Lemma main_step_accounted s s' :
  accounted host_list s → mstep s = Some s' → accounted host_list s'.
Proof.
  intros (Hocc & Htasks & Hdom) Hstep. unfold accounted.
  main_cases Hstep; simpl in *; rewrite ?Hpc in *; simpl in *.
  - (* a worker is started *)
    rewrite total_app. split_and!; [|simpl; lia|done].
    intros h. specialize (Hocc h). rewrite total_app. simpl. lia.
  - (* all workers are started *)
    split_and!; done.
  - (* the last item is in the queue *)
    split_and!; done.
  - (* q.put(item) *)
    rewrite queued_app. simpl. split_and!; [| |done].
    + intros h. specialize (Hocc h). rewrite occ_app. simpl in *. lia.
    + rewrite length_app. simpl. lia.
  - (* q.join() returns *)
    split_and!; [| | |done].
    + intros h. specialize (Hocc h). lia.
    + destruct (queued (q s)); [done | simpl in Htasks; lia].
    + lia.
  - (* q.put(None) *)
    rewrite queued_app. simpl. rewrite app_nil_r. split_and!; try done; tauto.
  - split_and!; try done; tauto.
  - split_and!; try done; tauto.
  - split_and!; try done; tauto.
Qed.

Lemma pool_step_accounted a s s' :
  accounted host_list s → pstep a s = Some s' → accounted host_list s'.
Proof.
  destruct a; [apply main_step_accounted | apply worker_step_accounted].
Qed.

Lemma pool_exec_inv (P : pool → Prop) sched s :
  (∀ a s s', P s → pstep a s = Some s' → P s') → P s → P (pexec sched s).
Proof.
  intros Hstep. revert s. induction sched as [|a sched IH]; intros s Hs; [done|].
  unfold pool_exec in *. simpl. apply IH.
  destruct (pstep a s) as [s'|] eqn:E; [|done].
  simpl. by eapply Hstep.
Qed.

Lemma run_accounted sched : accounted host_list (run w options z_s host_list sched).
Proof.
  unfold run.
  apply (pool_exec_inv (accounted host_list));
    [apply pool_step_accounted | apply pool_init_accounted].
Qed.

(** Past [q.join()] every input hostname has been stored, once for each
    of its occurrences. *)
Lemma joined_all_stored s h :
  accounted host_list s → dispatching (main_pc s) = false →
  occ h (stored (trace s)) = occ h host_list.
Proof.
  intros (Hocc & Hun & _) Hd. rewrite Hd in Hun. destruct Hun as [Hq Ho].
  specialize (Hocc h). rewrite Hq in Hocc.
  pose proof (total_le (λ st, occ h (holds st)) owed (threads s) (holds_owed h)).
  destruct (main_pc s); try done; simpl in *; lia.
Qed.
Lemma pool_init_stored_ok : stored_ok w options pool_init.
Proof.
  unfold stored_ok, pool_init; simpl. split_and!.
  - intros i wk h out Hin. done.
  - intros wk h out Hin. done.
  - intros h out Hin. by rewrite lookup_empty in Hin.
Qed.

(** A step that moves a worker, logs no store, and leaves [host_perfs]. *)
Lemma stored_ok_move s s' wk new evs :
  stored_ok w options s →
  threads s' = <[wk := new]> (threads s) ∨ threads s' = threads s →
  trace s' = trace s ++ evs →
  host_perfs s' = host_perfs s →
  (∀ wk' h out, PStore wk' h out ∉ evs) →
  (∀ h out, new = WStore h out →
     ∃ c l, probe w options h c = (l, Ok out) ∧ PProbe wk h l ∈ evs) →
  stored_ok w options s'.
Proof.
  intros (Htr & Hth & Hhp) Ethreads Etrace Ehp Hevs Hnew.
  unfold stored_ok. rewrite Etrace, Ehp. split_and!.
  - intros i wk' h out [Hin|[_ Hin]]%lookup_app_Some.
    + destruct (Htr _ _ _ _ Hin) as (c & l & j & Hp & Hj & Hl). exists c, l, j.
      split_and!; [done | done |]. by apply lookup_app_l_Some.
    + apply list_elem_of_lookup_2 in Hin. by apply Hevs in Hin.
  - assert (∀ wk' h out, threads s !! wk' = Some (WStore h out) →
              ∃ c l j, probe w options h c = (l, Ok out) ∧
                       (trace s ++ evs) !! j = Some (PProbe wk' h l)) as Hold.
    { intros wk' h out Hlk.
      destruct (Hth _ _ _ Hlk) as (c & l & j & Hp & Hl). exists c, l, j.
      split; [done|]. by apply lookup_app_l_Some. }
    destruct Ethreads as [->| ->]; [|done].
    intros wk' h out [(-> & -> & _)|(_ & Hlk)]%list_lookup_insert_Some; [|by apply Hold].
    destruct (Hnew h out eq_refl) as (c & l & Hp & Hl).
    apply list_elem_of_lookup_1 in Hl as [j Hj].
    exists c, l, (length (trace s) + j)%nat. split; [done|].
    rewrite lookup_app_r by lia. rewrite <- Hj. f_equal. lia.
  - intros h out Hin. destruct (Hhp _ _ Hin) as (i & wk' & Hwk). exists i, wk'.
    by apply lookup_app_l_Some.
Qed.

Lemma worker_step_stored_ok wk c s s' :
  stored_ok w options s → wstep wk c s = Some s' → stored_ok w options s'.
Proof.
  intros Hok Hstep.
  worker_cases Hstep.
  - eapply (stored_ok_move s _ wk WGet []); try done; [by left|].
    intros ??? Hin. by apply elem_of_nil in Hin.
  - eapply (stored_ok_move s _ wk WHead [PCheck wk (now c); PExit wk]); try done; [by right|].
    intros ??? Hin. apply elem_of_cons in Hin as [?|Hin]; [done|].
    by apply list_elem_of_singleton in Hin.
  - eapply (stored_ok_move s _ wk WGet [PCheck wk (now c)]); try done; [by left|].
    intros ??? Hin. by apply list_elem_of_singleton in Hin.
  - eapply (stored_ok_move s _ wk (WCrashed e0) []); try done; [by left|].
    intros ??? Hin. by apply elem_of_nil in Hin.
  - eapply (stored_ok_move s _ wk _ [PGet wk item]); try done; [by left | |].
    + intros ??? Hin. by apply list_elem_of_singleton in Hin.
    + intros h out. by destruct item.
  - eapply (stored_ok_move s _ wk (WStore h0 out0) [PProbe wk h0 l0]); try done; [by left | |].
    + intros ??? Hin. by apply list_elem_of_singleton in Hin.
    + intros h out [= <- <-]. exists c, l0. split; [done|].
      by apply list_elem_of_singleton.
  - eapply (stored_ok_move s _ wk (WDied h0 e0) [PProbe wk h0 l0]); try done; [by left|].
    intros ??? Hin. by apply list_elem_of_singleton in Hin.
  - destruct Hok as (Htr & Hth' & Hhp). unfold stored_ok. simpl.
    destruct (Hth' _ _ _ Hth) as (c0 & l & j0 & Hp & Hl).
    apply lookup_lt_Some in Hl as Hj0.
    split_and!.
    + intros i wk' h out [Hin|[Hi Hin]]%lookup_app_Some.
      * destruct (Htr _ _ _ _ Hin) as (c' & l' & j & Hp' & Hj & Hl'). exists c', l', j.
        split_and!; [done | done |]. by apply lookup_app_l_Some.
      * destruct (i - length (trace s))%nat eqn:Ei; [|done].
        simpl in Hin. injection Hin as -> -> ->.
        exists c0, l, j0. split_and!; [done | lia |]. by apply lookup_app_l_Some.
    + intros wk' h out [(_ & [=] & _)|(_ & Hlk)]%list_lookup_insert_Some.
      destruct (Hth' _ _ _ Hlk) as (c' & l' & j & Hp' & Hl'). exists c', l', j.
      split; [done|]. by apply lookup_app_l_Some.
    + intros h out. destruct (decide (h = h0)) as [->|Hne].
      * rewrite lookup_insert_eq. intros [= <-]. exists (length (trace s)), wk.
        rewrite lookup_app_r by lia. by rewrite Nat.sub_diag.
      * rewrite lookup_insert_ne by done. intros Hin.
        destruct (Hhp _ _ Hin) as (i & wk' & Hwk). exists i, wk'.
        by apply lookup_app_l_Some.
  - eapply (stored_ok_move s _ wk WHead [PTaskDone wk]); try done; [by left|].
    intros ??? Hin. by apply list_elem_of_singleton in Hin.
Qed.

Lemma main_step_stored_ok s s' :
  stored_ok w options s → mstep s = Some s' → stored_ok w options s'.
Proof.
  intros (Htr & Hth' & Hhp) Hstep.
  main_cases Hstep; unfold stored_ok; simpl; split_and!; try done.
  intros wk h out [Hlk|[_ Hlk]]%lookup_app_Some; [by eapply Hth'|].
  destruct (wk - length (threads s))%nat; simplify_eq/=.
Qed.

Lemma run_stored_ok sched : stored_ok w options (run w options z_s host_list sched).
Proof.
  unfold run. apply (pool_exec_inv (stored_ok w options)); [|apply pool_init_stored_ok].
  intros [|wk c] s s'; [apply main_step_stored_ok | apply worker_step_stored_ok].
Qed.

(** [os._exit] is never called when the timeout option is 0. *)
Lemma run_no_timeout sched :
  timeout options = 0 → exited (run w options z_s host_list sched) = false.
Proof.
  intros Hzero. unfold run.
  apply (pool_exec_inv (λ s, exited s = false)); [|done].
  intros [|wk c] s s' Halive Hstep; simpl in Hstep.
  - main_cases Hstep; done.
  - worker_cases Hstep; try done.
    unfold timeout_check in Hck. rewrite Hzero in Hck. done.
Qed.
End PoolFacts.

Lemma NoDup_occ l : NoDup l ↔ ∀ h, (occ h l ≤ 1)%nat.
Proof.
  induction l as [|x l IH]; simpl.
  - split; [intros _ h; lia | intros _; constructor].
  - rewrite NoDup_cons, IH. split.
    + intros [Hx Hl] h. specialize (Hl h). case_decide as Hd; [|lia].
      subst. destruct (occ h l) as [|n] eqn:E; [lia|].
      exfalso. apply Hx, occ_elem_of. lia.
    + intros Hall. split.
      * intros Hx%occ_elem_of. specialize (Hall x). rewrite decide_True in Hall by done. lia.
      * intros h. specialize (Hall h). lia.
Qed.

Lemma Qltb_lt x y : Qltb x y = true ↔ (x < y)%Q.
Proof.
  unfold Qltb. rewrite negb_true_iff. split.
  - intros Hb. apply Qnot_le_lt. intros Hle. apply Qle_bool_iff in Hle. congruence.
  - intros Hlt. destruct (Qle_bool y x) eqn:E; [|done].
    apply Qle_bool_iff in E. by apply Qlt_not_le in Hlt.
Qed.

(** The four outcomes of the timeout check. *)
Lemma float_of_int_raise n e : float_of_int n = Raise e → e = OverflowError.
Proof. unfold float_of_int. destruct (Qle_bool _ _); [by intros [= <-] | done]. Qed.

Lemma check_skipped options z_s t :
  timeout_check options z_s t = Skipped ↔ timeout options = 0.
Proof.
  unfold timeout_check. destruct (Z.eqb_spec (timeout options) 0) as [E|E]; [done|].
  destruct (float_of_int _); [destruct (Qltb _ _)|]; split; done.
Qed.

Lemma check_fired options z_s t :
  timeout_check options z_s t = Fired ↔
  timeout options ≠ 0 ∧ ∃ x, float_of_int (timeout options) = Ok x ∧ (fadd z_s x < t)%Q.
Proof.
  unfold timeout_check. destruct (Z.eqb_spec (timeout options) 0) as [E|E].
  { split; [done | by intros [? _]]. }
  destruct (float_of_int _) as [x|e]; [|split; [done | by intros (_ & ? & ? & _)]].
  destruct (Qltb _ _) eqn:Hlt.
  - apply Qltb_lt in Hlt. split; [eauto | done].
  - split; [done|]. intros (_ & y & [= <-] & Hy). apply Qltb_lt in Hy. congruence.
Qed.

Lemma check_passed options z_s t :
  timeout_check options z_s t = Passed ↔
  timeout options ≠ 0 ∧ ∃ x, float_of_int (timeout options) = Ok x ∧ ¬ (fadd z_s x < t)%Q.
Proof.
  unfold timeout_check. destruct (Z.eqb_spec (timeout options) 0) as [E|E].
  { split; [done | by intros [? _]]. }
  destruct (float_of_int _) as [x|e]; [|split; [done | by intros (_ & ? & ? & _)]].
  destruct (Qltb _ _) eqn:Hlt.
  - apply Qltb_lt in Hlt. split; [done|]. by intros (_ & y & [= <-] & Hy).
  - split; [|done]. intros _. split; [done|]. exists x. split; [done|].
    intros Hy. apply Qltb_lt in Hy. congruence.
Qed.

Lemma check_broken options z_s t e :
  timeout_check options z_s t = Broken e ↔
  timeout options ≠ 0 ∧ float_of_int (timeout options) = Raise e.
Proof.
  unfold timeout_check. destruct (Z.eqb_spec (timeout options) 0) as [E|E].
  { split; [done | by intros [? _]]. }
  destruct (float_of_int _) as [x|e']; [destruct (Qltb _ _)|]; split;
    try done; try (by intros [_ ?]).
  - intros [= <-]. done.
  - intros [_ [= <-]]. done.
Qed.

(** ** The claims about the run *)

(** C10: every record in [host_perfs], at any moment of any run, is the
    output of a probe of that hostname that ran to its end without an
    exception, and was assigned by the worker that ran the probe, after
    the probe; it has the five fields [DNS Time], [IP of Domain],
    [Average TCP Time], [HTTP Response Code] and [Number of Redirects]. *)
Theorem C10_complete_records w options z_s host_list sched h out :
  let s := run w options z_s host_list sched in
  host_perfs s !! h = Some out →
  complete out ∧
  ∃ wk c l i j,
    probe w options h c = (l, Ok out) ∧
    trace s !! j = Some (PProbe wk h l) ∧
    trace s !! i = Some (PStore wk h out) ∧ (j < i)%nat.
Proof.
  intros s Hout.
  destruct (run_stored_ok w options z_s host_list sched) as (Htr & _ & Hhp).
  destruct (Hhp h out Hout) as (i & wk & Hi).
  destruct (Htr i wk h out Hi) as (c & l & j & Hp & Hj & Hl).
  split; [|by exists wk, c, l, i, j].
  destruct (probe_ok_fields w options h c l out Hp)
    as (t0 & t1 & ip & o & m & resp & _ & _ & _ & _ & H1 & H2 & H3 & _ & H4 & H5 & _).
  unfold complete. eauto 10.
Qed.

Lemma C10_witness :
  ∃ out, host_perfs (run world_ok (opts 1 2 0) 0 ["good.example"] one_worker_sched)
           !! "good.example" = Some out ∧ complete out.
Proof.
  assert (is_Some (host_perfs (run world_ok (opts 1 2 0) 0 ["good.example"] one_worker_sched)
                     !! "good.example")) as [out E].
  { vm_compute. eexists. reflexivity. }
  exists out. split; [exact E|].
  exact (proj1 (C10_complete_records world_ok (opts 1 2 0) 0 ["good.example"]
                  one_worker_sched "good.example" out E)).
Defined.

(** C6: the timeout is measured from the start of the run and checked
    only at the top of the worker loop, before the next hostname is
    dequeued.  The check compares the float sum [z_s + options.timeout],
    [z_s] being the clock at the start of [main], with the clock: a worker
    at the top of its loop, with a timeout other than 0, ends the process
    when the sum is below the clock and goes on to [q.get()] when it is
    not; when the sum is exact this is the comparison of the timeout with
    the time elapsed since the start.  The process exits in no other
    step, a worker enters [q.get()] only from a check that did not fire or
    was skipped because the timeout is 0, and the steps of a worker that
    is anywhere else do not depend on the clock.  With a timeout of 0 the
    process never exits, whatever the clock says.  (A timeout too large
    for a float makes the sum raise [OverflowError], which ends the worker
    at the check, not the process.) *)
Theorem C6_timeout w options z_s host_list :
  (timeout options = 0 →
     ∀ sched, exited (run w options z_s host_list sched) = false) ∧
  (∀ wk c s t, exited s = false → threads s !! wk = Some WHead →
     timeout options ≠ 0 → float_of_int (timeout options) = Ok t →
     ((fadd z_s t < now c)%Q →
        ∃ s', worker_step w options z_s wk c s = Some s' ∧ exited s' = true ∧
              trace s' = trace s ++ [PCheck wk (now c); PExit wk]) ∧
     (¬ (fadd z_s t < now c)%Q →
        worker_step w options z_s wk c s
        = Some (goes wk WGet [PCheck wk (now c)] s)) ∧
     (is_float (z_s + t) → (fadd z_s t < now c)%Q ↔ (t < now c - z_s)%Q)) ∧
  (∀ a s s', pool_step w options z_s host_list a s = Some s' → exited s' = true →
     ∃ wk c t, a = AWorker wk c ∧ threads s !! wk = Some WHead ∧
               timeout options ≠ 0 ∧ float_of_int (timeout options) = Ok t ∧
               (fadd z_s t < now c)%Q) ∧
  (∀ wk c s s', worker_step w options z_s wk c s = Some s' →
     threads s' !! wk = Some WGet →
     threads s !! wk = Some WHead ∧
     (timeout options = 0 ∨
      ∃ t, float_of_int (timeout options) = Ok t ∧ ¬ (fadd z_s t < now c)%Q)) ∧
  (∀ wk c t s, threads s !! wk ≠ Some WHead →
     worker_step w options z_s wk c s =
     worker_step w options z_s wk
       {| now := t; tcp_sched := tcp_sched c; content_sched := content_sched c |} s) ∧
  (∀ wk c s e, exited s = false → threads s !! wk = Some WHead →
     timeout options ≠ 0 → float_of_int (timeout options) = Raise e →
     e = OverflowError ∧
     worker_step w options z_s wk c s = Some (goes wk (WCrashed e) [] s)).
Proof.
  split_and!.
  - intros Hzero sched. by apply run_no_timeout.
  - intros wk c s t Halive Hth Hto Hconv. split_and!.
    + intros Hlt.
      assert (timeout_check options z_s (now c) = Fired) as Hck
        by (apply check_fired; eauto).
      unfold worker_step. rewrite Halive, Hth, Hck. eexists. split; [done|]. done.
    + intros Hge.
      assert (timeout_check options z_s (now c) = Passed) as Hck
        by (apply check_passed; eauto).
      unfold worker_step. by rewrite Halive, Hth, Hck.
    + intros Hfl. unfold fadd. unfold is_float in Hfl. rewrite Hfl. split; intros; lra.
  - intros [|wk c] s s' Hstep Hexit; simpl in Hstep.
    + main_cases Hstep; simpl in Hexit; congruence.
    + worker_cases Hstep; simpl in Hexit; try congruence.
      apply check_fired in Hck as (Hto & t & Hconv & Hlt).
      exists wk, c, t. split_and!; done.
  - intros wk c s s' Hstep Hget.
    worker_cases Hstep; simpl in Hget.
    + split; [done|]. left. by apply check_skipped in Hck.
    + rewrite Hth in Hget. done.
    + split; [done|]. right. apply check_passed in Hck as (_ & t & Hconv & Hge). eauto.
    + apply lookup_lt_Some in Hth. rewrite list_lookup_insert_eq in Hget by done. done.
    + apply lookup_lt_Some in Hth.
      rewrite list_lookup_insert_eq in Hget by done. by destruct item.
    + apply lookup_lt_Some in Hth. rewrite list_lookup_insert_eq in Hget by done. done.
    + apply lookup_lt_Some in Hth. rewrite list_lookup_insert_eq in Hget by done. done.
    + apply lookup_lt_Some in Hth. rewrite list_lookup_insert_eq in Hget by done. done.
    + apply lookup_lt_Some in Hth. rewrite list_lookup_insert_eq in Hget by done. done.
  - intros wk c t s Hne. unfold worker_step.
    destruct (exited s); [done|].
    destruct (threads s !! wk) as [[| |h|h out|h| |h e|e]|]; try done.
  - intros wk c s e Halive Hth Hto Hconv.
    split; [by apply float_of_int_raise in Hconv|].
    assert (timeout_check options z_s (now c) = Broken e) as Hck
      by (by apply check_broken).
    unfold worker_step. by rewrite Halive, Hth, Hck.
Qed.

Lemma C6_witness :
  let c := {| now := 6; tcp_sched := []; content_sched := [] |} in
  let s := run world_ok (opts 1 2 5) 0 ["good.example"] [AMain] in
  threads s = [WHead] ∧ float_of_int 5 = Ok 5%Q ∧ (fadd 0 5 == 5)%Q ∧
  ∃ s', worker_step world_ok (opts 1 2 5) 0 0 c s = Some s' ∧ exited s' = true ∧
        trace s' = [PCheck 0 6; PExit 0].
Proof.
  intros c s. split; [reflexivity|].
  assert (float_of_int 5 = Ok 5%Q) as Hconv by (vm_compute; reflexivity).
  assert (fadd 0 5 == 5)%Q as Hsum by (vm_compute; reflexivity).
  split; [exact Hconv|]. split; [exact Hsum|].
  refine (proj1 (proj1 (proj2 (C6_timeout world_ok (opts 1 2 5) 0 ["good.example"]))
                   0%nat c s 5%Q eq_refl eq_refl _ Hconv) _).
  - discriminate.
  - rewrite Hsum. reflexivity.
Defined.

(** C5, as amended: when a run has come to its end, the keys of the
    result map are exactly the input hostnames, one entry for each
    distinct hostname, and each key has been assigned once for every
    occurrence of the hostname in the input: exactly once when the input
    has no duplicates, and more than once for a duplicated hostname. *)
Theorem C5_result_map w options z_s host_list sched :
  let s := run w options z_s host_list sched in
  main_pc s = MDone →
  dom (host_perfs s) = list_to_set host_list ∧
  (∀ h, occ h (stored (trace s)) = occ h host_list) ∧
  (NoDup host_list → NoDup (stored (trace s))).
Proof.
  intros s Hdone.
  pose proof (run_accounted w options z_s host_list sched) as Hacc. fold s in Hacc.
  assert (∀ h, occ h (stored (trace s)) = occ h host_list) as Hocc.
  { intros h. apply joined_all_stored; [done|]. by rewrite Hdone. }
  split_and!; [|done|].
  - destruct Hacc as (_ & _ & ->). apply set_eq. intros h.
    rewrite !elem_of_list_to_set, !occ_elem_of, Hocc. done.
  - rewrite !NoDup_occ. intros Hnd h. rewrite Hocc. apply Hnd.
Qed.

Lemma C5_witness :
  main_pc (run world_ok (opts 1 2 0) 0 ["good.example"] one_worker_sched) = MDone ∧
  stored (trace (run world_ok (opts 1 2 0) 0 ["good.example"] one_worker_sched))
  = ["good.example"] ∧
  occ "good.example"
    (stored (trace (run world_ok (opts 1 2 0) 0 ["good.example"] one_worker_sched))) = 1%nat.
Proof.
  split; [vm_compute; reflexivity|]. split; [vm_compute; reflexivity|].
  exact (proj1 (proj2 (C5_result_map world_ok (opts 1 2 0) 0 ["good.example"]
                         one_worker_sched ltac:(vm_compute; reflexivity))) "good.example").
Defined.

(** C5 as stated fails: with the same hostname twice in the input and no
    timeout, the run ends with one entry in the map, and its key has been
    assigned twice. *)
Lemma C5_counterexample :
  let s := run world_ok (opts 1 2 0) 0 ["good.example"; "good.example"] one_worker_sched in
  timeout (opts 1 2 0) = 0 ∧ main_pc s = MDone ∧ exited s = false ∧
  size (host_perfs s) = 1%nat ∧
  stored (trace s) = ["good.example"; "good.example"] ∧
  occ "good.example" (stored (trace s)) = 2%nat.
Proof. vm_compute. repeat split. Qed.

(** C1, as amended: the probe of a hostname that does not resolve ends at
    once with the exception of the lookup: nothing but the lookup is
    attempted and no record is made.  Nothing catches the exception: it
    ends the worker thread that ran the probe, which never runs again and
    never marks the item done.  So no entry for the hostname is ever in the
    result map, and when such a hostname is in the input, [main] never
    comes back from [q.join()]: the run does not come to its end. *)
Theorem C1_dns_failure w options z_s host_list h e :
  gethostbyname w h = TFail e →
  (∀ c, probe w options h c = ([(Prober, EvResolve h)], Raise e)) ∧
  (∀ wk c s, exited s = false → threads s !! wk = Some (WWork h) →
     worker_step w options z_s wk c s
     = Some (goes wk (WDied h e) [PProbe wk h [(Prober, EvResolve h)]] s)) ∧
  (∀ wk c s h' e', threads s !! wk = Some (WDied h' e') →
     worker_step w options z_s wk c s = None) ∧
  (∀ sched, host_perfs (run w options z_s host_list sched) !! h = None) ∧
  (h ∈ host_list →
     ∀ sched, dispatching (main_pc (run w options z_s host_list sched)) = true).
Proof.
  intros Hdns.
  assert (∀ c, probe w options h c = ([(Prober, EvResolve h)], Raise e)) as Hprobe.
  { intros c. unfold probe, init. by rewrite Hdns. }
  assert (∀ sched wk i out,
            trace (run w options z_s host_list sched) !! i ≠ Some (PStore wk h out)) as Hnostore.
  { intros sched wk i out Hi.
    destruct (run_stored_ok w options z_s host_list sched) as (Htr & _ & _).
    destruct (Htr i wk h out Hi) as (c & l & j & Hp & _). rewrite Hprobe in Hp. done. }
  split_and!.
  - done.
  - intros wk c s Halive Hth. unfold worker_step. by rewrite Halive, Hth, Hprobe.
  - intros wk c s h' e' Hth. unfold worker_step. rewrite Hth. by destruct (exited s).
  - intros sched.
    destruct (host_perfs (run w options z_s host_list sched) !! h) as [out|] eqn:E; [|done].
    destruct (run_stored_ok w options z_s host_list sched) as (_ & _ & Hhp).
    destruct (Hhp h out E) as (i & wk & Hi). by apply Hnostore in Hi.
  - intros Hin sched.
    destruct (dispatching (main_pc (run w options z_s host_list sched))) eqn:Hd; [done|].
    exfalso.
    pose proof (joined_all_stored _ _ h (run_accounted w options z_s host_list sched) Hd) as Hocc.
    apply occ_elem_of in Hin. rewrite <- Hocc in Hin. apply occ_elem_of in Hin.
    unfold stored in Hin. apply list_elem_of_omap in Hin as (ev & Hev & Hkey).
    destruct ev; try done. simpl in Hkey. injection Hkey as ->.
    apply list_elem_of_lookup_1 in Hev as [i Hi]. by apply Hnostore in Hi.
Qed.

Lemma C1_witness :
  gethostbyname world_ok "bad.example" = TFail gaierror ∧
  ∀ c, probe world_ok (opts 1 2 0) "bad.example" c
       = ([(Prober, EvResolve "bad.example")], Raise gaierror).
Proof.
  split; [reflexivity|].
  exact (proj1 (C1_dns_failure world_ok (opts 1 2 0) 0 ["bad.example"; "good.example"]
                  "bad.example" gaierror eq_refl)).
Defined.

(** C1 as stated fails: with one worker and the input [bad.example],
    [good.example], under no schedule does the run come to its end; under
    the schedule that lets the worker run as far as it can, the lookup
    failure has ended the worker, [good.example] is still in the queue,
    and nothing about the failure is in the result map. *)
Lemma C1_counterexample :
  gethostbyname world_ok "bad.example" = TFail gaierror ∧
  (∀ sched, main_pc (run world_ok (opts 1 2 0) 0 ["bad.example"; "good.example"] sched)
            ≠ MDone) ∧
  let s := run world_ok (opts 1 2 0) 0 ["bad.example"; "good.example"] one_worker_sched in
  threads s = [WDied "bad.example" gaierror] ∧
  q s = [Some "good.example"] ∧
  host_perfs s = ∅ ∧
  main_pc s = MJoinQ.
Proof.
  split; [reflexivity|]. split.
  - intros sched Hdone.
    assert (dispatching (main_pc (run world_ok (opts 1 2 0) 0
                                    ["bad.example"; "good.example"] sched)) = false) as Hd
      by (by rewrite Hdone).
    pose proof (joined_all_stored _ _ "bad.example"
                  (run_accounted world_ok (opts 1 2 0) 0 ["bad.example"; "good.example"] sched)
                  Hd) as Hocc.
    change (occ "bad.example" ["bad.example"; "good.example"]) with 1%nat in Hocc.
    assert ("bad.example" ∈ stored (trace (run world_ok (opts 1 2 0) 0
                                             ["bad.example"; "good.example"] sched))) as Hin.
    { apply occ_elem_of. lia. }
    unfold stored in Hin. apply list_elem_of_omap in Hin as (ev & Hev & Hkey).
    destruct ev; try done. simpl in Hkey. injection Hkey as ->.
    apply list_elem_of_lookup_1 in Hev as [i Hi].
    destruct (run_stored_ok world_ok (opts 1 2 0) 0 ["bad.example"; "good.example"] sched)
      as (Htr & _ & _).
    destruct (Htr i _ _ _ Hi) as (c & l & j & Hp & _).
    unfold probe, init in Hp. simpl in Hp. done.
  - vm_compute. repeat split.
Qed.

(** * Further properties of the code *)

(** ** String append *)

Lemma append_empty t : EmptyString +:+ t = t.
Proof. reflexivity. Qed.

Lemma append_String a s t : String a s +:+ t = String a (s +:+ t).
Proof. reflexivity. Qed.

Lemma append_empty_r s : s +:+ EmptyString = s.
Proof. induction s as [|a s IH]; [done|]. by rewrite append_String, IH. Qed.

Lemma append_assoc s t u : (s +:+ t) +:+ u = s +:+ (t +:+ u).
Proof. induction s as [|a s IH]; [done|]. by rewrite !append_String, IH. Qed.

(** ** The name of the JSON file *)

Lemma is_dot_eq a : is_dot a = true → String a EmptyString = ".".
Proof. unfold is_dot. intros ->%Ascii.eqb_eq. reflexivity. Qed.

Lemma split_dot_cons s : ∃ piece pieces, split_dot s = piece :: pieces.
Proof.
  induction s as [|a s (p & ps & IH)]; simpl; [eauto|].
  destruct (is_dot a); [eauto|]. rewrite IH. eauto.
Qed.

Lemma join_dot_cons p q ps : join_dot (p :: q :: ps) = p +:+ "." +:+ join_dot (q :: ps).
Proof. reflexivity. Qed.

Lemma join_dot_String a p ps : join_dot (String a p :: ps) = String a (join_dot (p :: ps)).
Proof. destruct ps; [done|]. by rewrite !join_dot_cons, append_String. Qed.

Lemma join_split s : join_dot (split_dot s) = s.
Proof.
  induction s as [|a s IH]; simpl; [done|].
  destruct (split_dot_cons s) as (p & ps & Hs). rewrite Hs in *.
  destruct (is_dot a) eqn:Ea.
  - rewrite join_dot_cons, IH, append_empty.
    apply is_dot_eq in Ea. rewrite <- Ea. by rewrite append_String, append_empty.
  - by rewrite join_dot_String, IH.
Qed.

Lemma split_no_dot s : has_dot s = false → split_dot s = [s].
Proof.
  induction s as [|a s IH]; simpl; [done|].
  intros [Ha Hs]%orb_false_iff. rewrite Ha, IH; done.
Qed.

Lemma split_pieces s piece : piece ∈ split_dot s → has_dot piece = false.
Proof.
  revert piece. induction s as [|a s IH]; simpl; intros piece.
  - by intros ->%list_elem_of_singleton.
  - destruct (split_dot_cons s) as (p & ps & Hs). rewrite Hs in *.
    destruct (is_dot a) eqn:Ea.
    + intros [->|Hin]%elem_of_cons; [done | by apply IH].
    + intros [->|Hin]%elem_of_cons.
      * simpl. rewrite Ea. apply IH. by left.
      * apply IH. by right.
Qed.

Lemma split_stem_ext stem ext :
  has_dot ext = false → split_dot (stem +:+ "." +:+ ext) = split_dot stem ++ [ext].
Proof.
  intros Hext. induction stem as [|a stem IH].
  - rewrite append_empty. simpl. by rewrite split_no_dot.
  - rewrite append_String. simpl. rewrite IH.
    destruct (split_dot_cons stem) as (p & ps & Hs). rewrite Hs.
    by destruct (is_dot a).
Qed.

(** X2: the name of the JSON file is the name of the host file up to its
    last dot, followed by [_results.json]: for a name [stem.ext] it is
    [stem_results.json], whatever dots [stem] has, and for a name without a
    dot it is the whole name followed by [_results.json].  Splitting at the
    dots and joining again loses nothing, and no piece has a dot. *)
Theorem X2_json_name name :
  join_dot (split_dot name) = name ∧
  (∀ piece, piece ∈ split_dot name → has_dot piece = false) ∧
  (has_dot name = false → json_name name = name +:+ "_results.json") ∧
  (∀ stem ext, name = stem +:+ "." +:+ ext → has_dot ext = false →
     json_name name = stem +:+ "_results.json").
Proof.
  split_and!.
  - apply join_split.
  - apply split_pieces.
  - intros Hn. unfold json_name. by rewrite split_no_dot.
  - intros stem ext -> Hext. unfold json_name. rewrite split_stem_ext by done.
    destruct (split_dot_cons stem) as (p & ps & Hs).
    rewrite length_app. simpl.
    replace (length (split_dot stem) + 1 - 1)%nat with (length (split_dot stem)) by lia.
    rewrite take_app_length, join_split.
    destruct (Nat.ltb_spec 1 (length (split_dot stem) + 1)) as [_|Hle]; [done|].
    rewrite Hs in Hle. simpl in Hle. lia.
Qed.

Lemma X2_witness :
  json_name "dir/hosts.v2.txt" = "dir/hosts.v2_results.json" ∧
  json_name "hosts" = "hosts_results.json" ∧
  json_name ".hosts" = "_results.json".
Proof.
  split; [|split].
  - exact (proj2 (proj2 (proj2 (X2_json_name "dir/hosts.v2.txt")))
             "dir/hosts.v2" "txt" eq_refl eq_refl).
  - exact (proj1 (proj2 (proj2 (X2_json_name "hosts"))) eq_refl).
  - exact (proj2 (proj2 (proj2 (X2_json_name ".hosts"))) EmptyString "hosts" eq_refl eq_refl).
Defined.

(** ** The averages *)

Lemma inject_S k : (inject_Z (Z.of_nat (S k)) == inject_Z (Z.of_nat k) + 1)%Q.
Proof. rewrite Nat2Z.inj_succ. unfold Z.succ. by rewrite inject_Z_plus. Qed.

(** Some datum is at most the exact mean, and some datum at least. *)
Lemma Qsum_extremes xs :
  xs ≠ [] →
  ∃ a b, a ∈ xs ∧ b ∈ xs ∧
    (a * inject_Z (Z.of_nat (length xs)) <= Qsum xs)%Q ∧
    (Qsum xs <= b * inject_Z (Z.of_nat (length xs)))%Q.
Proof.
  induction xs as [|x xs IH]; [done|]. intros _.
  destruct xs as [|y ys].
  - exists x, x. cbn [length Qsum foldr]. change (inject_Z (Z.of_nat 1)) with 1%Q.
    split_and!; [by left | by left | lra | lra].
  - destruct IH as (a & b & Ha & Hb & Hlo & Hhi); [done|].
    remember (y :: ys) as zs eqn:Hzs. clear Hzs.
    assert (0 <= inject_Z (Z.of_nat (length zs)))%Q as Hn.
    { change 0%Q with (inject_Z 0). rewrite <- Zle_Qle. lia. }
    assert (Qsum (x :: zs) == x + Qsum zs)%Q as Hsum by reflexivity.
    assert (inject_Z (Z.of_nat (length (x :: zs)))
            == inject_Z (Z.of_nat (length zs)) + 1)%Q as Hlen by apply inject_S.
    set (n := inject_Z (Z.of_nat (length zs))) in *.
    exists (if Qle_bool x a then x else a), (if Qle_bool b x then x else b).
    split_and!.
    + destruct (Qle_bool x a); [by left | by right].
    + destruct (Qle_bool b x); [by left | by right].
    + rewrite Hsum, Hlen. destruct (Qle_bool x a) eqn:E.
      * apply Qle_bool_iff in E. nra.
      * assert (a <= x)%Q.
        { apply Qlt_le_weak, Qnot_le_lt. intros H. apply Qle_bool_iff in H. congruence. }
        nra.
    + rewrite Hsum, Hlen. destruct (Qle_bool b x) eqn:E.
      * apply Qle_bool_iff in E. nra.
      * assert (x <= b)%Q.
        { apply Qlt_le_weak, Qnot_le_lt. intros H. apply Qle_bool_iff in H. congruence. }
        nra.
Qed.

(** A measured duration is a float. *)
Lemma duration_float {A} (t : timed A) x : duration t = Some x → is_float x.
Proof.
  destruct t as [t0 t1 a|e]; [|done]. intros [= <-]. apply round64_idem.
Qed.

(** The mean of floats lies between the least and the greatest of them. *)
Lemma is_mean_bounds m xs lo hi :
  is_mean m xs → (∀ x, x ∈ xs → is_float x) →
  (∀ x, x ∈ xs → (lo <= x <= hi)%Q) → (lo <= m <= hi)%Q.
Proof.
  intros [Hne Hm] Hfl Hb.
  destruct (Qsum_extremes xs Hne) as (a & b & Ha & Hb' & Hlo & Hhi).
  assert (0 < inject_Z (Z.of_nat (length xs)))%Q as Hn.
  { destruct xs; [done|]. unfold Qlt. cbn [Qnum Qden inject_Z length]. lia. }
  apply Qle_shift_div_l in Hlo; [|exact Hn].
  apply Qle_shift_div_r in Hhi; [|exact Hn].
  apply round64_mono in Hlo, Hhi.
  rewrite <- Hm in Hlo, Hhi.
  pose proof (Hfl a Ha) as Hfa. pose proof (Hfl b Hb') as Hfb. unfold is_float in Hfa, Hfb.
  rewrite Hfa in Hlo. rewrite Hfb in Hhi.
  destruct (Hb a Ha) as [? _]. destruct (Hb b Hb') as [_ ?]. split; lra.
Qed.

Lemma elem_of_successes N op x :
  x ∈ successes N op ↔ ∃ i, (i < N)%nat ∧ duration (op i) = Some x.
Proof.
  unfold successes. rewrite list_elem_of_omap. split.
  - intros (i & Hi%elem_of_seq & Hx). exists i. split; [lia | done].
  - intros (i & Hi & Hx). exists i. split; [apply elem_of_seq; lia | done].
Qed.

(** X3: the averages of a record lie between the shortest and the longest
    of the samples they are taken from: if every TCP connect among the
    samples that succeeds is measured to take between [lo] and [hi], so
    does [Average TCP Time], and likewise [Average Content Load Time] for
    the body reads; the rounding of the mean does not take it out of the
    range of its data.  In particular neither is negative as long as the
    clock does not run backwards during a sample. *)
Theorem X3_average_bounds w options h c l out lo hi :
  probe w options h c = (l, Ok out) →
  (∀ ip i t0 t1 u, (i < samples options)%nat →
     connect w ip 80 i = TDone t0 t1 u → (lo <= fsub t1 t0 <= hi)%Q) →
  (∀ url i t0 t1 u, (i < samples options)%nat →
     content w url i = TDone t0 t1 u → (lo <= fsub t1 t0 <= hi)%Q) →
  (∃ m, out !! "Average TCP Time" = Some (VFloat m) ∧ (lo <= m <= hi)%Q) ∧
  (∀ v, out !! "Average Content Load Time" = Some v →
        ∃ m, v = VFloat m ∧ (lo <= m <= hi)%Q).
Proof.
  intros Hp Htcp Hcontent.
  destruct (probe_ok_fields w options h c l out Hp)
    as (t0 & t1 & ip & o & m & resp & _ & _ & _ & _ & _ & _ & Hf & Hm & _ & _ & H200 & Hne).
  split.
  - exists m. split; [done|]. apply (is_mean_bounds m _ lo hi Hm).
    + intros x (i & Hi & Hx)%elem_of_successes. by eapply duration_float.
    + intros x (i & Hi & Hx)%elem_of_successes. unfold tcp_time in Hx.
      destruct (connect w (ip_address o) 80 i) as [a b u|e] eqn:E; [|done].
      injection Hx as <-. by eapply Htcp.
  - intros v Hv. destruct (decide (status_code resp = 200)) as [Hs|Hs].
    + destruct (H200 Hs) as (m' & Hf' & Hm'). rewrite Hf' in Hv. injection Hv as <-.
      exists m'. split; [done|]. apply (is_mean_bounds m' _ lo hi Hm').
      * intros x (i & Hi & Hx)%elem_of_successes. by eapply duration_float.
      * intros x (i & Hi & Hx)%elem_of_successes.
        destruct (content w ("http://" +:+ ip +:+ "/") i) as [a b u|e] eqn:E; [|done].
        injection Hx as <-. by eapply Hcontent.
    + rewrite (Hne Hs) in Hv. done.
Qed.

Lemma X3_witness :
  ∃ l out m, probe world_ok (opts 1 2 0) "good.example" no_choice = (l, Ok out) ∧
             out !! "Average TCP Time" = Some (VFloat m) ∧ (0 <= m <= 1)%Q.
Proof.
  destruct (probe world_ok (opts 1 2 0) "good.example" no_choice) as [l [out|e]] eqn:E.
  - destruct (X3_average_bounds world_ok (opts 1 2 0) "good.example" no_choice l out 0 1 E)
      as [(m & Hm & Hb) _].
    + intros ip [|[|i]] t0 t1 u Hi;
        [| |change (samples (opts 1 2 0)) with 2%nat in Hi; lia];
        intros [= <- <-]; split; vm_compute; discriminate.
    + intros url i t0 t1 u Hi [= <- <-]. split; vm_compute; discriminate.
    + exists l, out, m. split; [reflexivity | split; [exact Hm | exact Hb]].
  - exfalso.
    assert (match (probe world_ok (opts 1 2 0) "good.example" no_choice).2 with
            | Ok _ => true
            | Raise _ => false
            end = true) as Hok by (vm_compute; reflexivity).
    rewrite E in Hok. discriminate Hok.
Defined.

(** ** The interleaving of the sample threads does not matter *)

Lemma is_mean_unique m m' xs : is_mean m xs → is_mean m' xs → (m == m')%Q.
Proof.
  intros [Hne Hm] [_ Hm']. by rewrite Hm, Hm'.
Qed.

(** What a fan-out gives back is the same under any two schedules. *)
Lemma fan_result_independent N pre pre_ev op op_ev sched sched' :
  match fan_result (fan_out N pre pre_ev op op_ev sched),
        fan_result (fan_out N pre pre_ev op op_ev sched') with
  | Ok m, Ok m' => (m == m')%Q
  | Raise e, Raise e' => e = e'
  | _, _ => False
  end.
Proof.
  destruct (first_raise N pre) as [Hok|(k & e & Hk & He & Hlt)].
  - destruct (fan_out_times N pre pre_ev op op_ev sched Hok) as [Hp ->].
    destruct (fan_out_times N pre pre_ev op op_ev sched' Hok) as [Hp' ->].
    destruct (mean (fan_times (fan_out N pre pre_ev op op_ev sched))) as [m|e] eqn:E;
      destruct (mean (fan_times (fan_out N pre pre_ev op op_ev sched'))) as [m'|e'] eqn:E'.
    + apply (is_mean_unique m m' (successes N op));
        [exact (mean_perm_ok _ _ _ Hp E) | exact (mean_perm_ok _ _ _ Hp' E')].
    + eapply mean_perm_ok in E as [Hne _]; [|exact Hp].
      eapply mean_perm_raise in E' as [Hnil _]; [|exact Hp']. done.
    + eapply mean_perm_ok in E' as [Hne _]; [|exact Hp'].
      eapply mean_perm_raise in E as [Hnil _]; [|exact Hp]. done.
    + apply mean_raise in E as [_ ->]. apply mean_raise in E' as [_ ->]. done.
  - destruct (fan_out_raise N pre pre_ev op op_ev sched k e Hk He Hlt) as (Hpc & _).
    destruct (fan_out_raise N pre pre_ev op op_ev sched' k e Hk He Hlt) as (Hpc' & _).
    apply fan_result_returned in Hpc, Hpc'. by rewrite Hpc, Hpc'.
Qed.

Lemma val_equiv_refl v : val_equiv v v.
Proof. destruct v; simpl; reflexivity. Qed.

Lemma out_equiv_refl out : out_equiv out out.
Proof. intros k. destruct (out !! k); constructor. apply val_equiv_refl. Qed.

Lemma out_equiv_insert k v v' out out' :
  val_equiv v v' → out_equiv out out' → out_equiv (<[k := v]> out) (<[k := v']> out').
Proof.
  intros Hv Ho k'. rewrite !lookup_insert.
  destruct (decide (k = k')); [by constructor | apply Ho].
Qed.

Lemma get_http_independent w options o o' sched sched' :
  ip_address o = ip_address o' → c_header o = c_header o' →
  out_equiv (performance_output o) (performance_output o') →
  match (get_http w options o sched).2.2, (get_http w options o' sched').2.2 with
  | Ok _, Ok _ =>
      out_equiv (performance_output (get_http w options o sched).2.1)
                (performance_output (get_http w options o' sched').2.1)
  | Raise e, Raise e' => e = e'
  | _, _ => False
  end.
Proof.
  intros Hip Hhdr Hout. unfold get_http, content_fan, get_stream, time_content, ip_to_url.
  rewrite <- Hip, <- Hhdr.
  destruct (requests_head w _ (c_header o)) as [resp|e]; [|done].
  destruct (status_code resp =? 200)%Z; cbn [fst snd].
  - pose proof (fan_result_independent (samples options)
                  (λ i, match requests_get w ("http://" +:+ ip_address o +:+ "/") (c_header o) i with
                        | TDone _ _ _ => Ok ()
                        | TFail e => Raise e
                        end)
                  (λ i, [EvGet ("http://" +:+ ip_address o +:+ "/") (c_header o) true i])
                  (λ i, content w ("http://" +:+ ip_address o +:+ "/") i)
                  EvContent sched sched') as Hind.
    destruct (fan_result _) as [m|e]; destruct (fan_result _) as [m'|e']; cbn [fst snd];
      try done.
    unfold set_output; cbn [performance_output].
    repeat apply out_equiv_insert; try done; apply val_equiv_refl.
  - unfold set_output; cbn [performance_output].
    repeat apply out_equiv_insert; try done; apply val_equiv_refl.
Qed.

(** X4: the outcome of a probe does not depend on the order in which its
    sample threads run: under any two interleavings the probe either
    raises the same exception, or returns records with the same keys and
    the same values, the two averages being equal as numbers. *)
Theorem X4_interleaving w options h c c' :
  outcome_equiv (probe w options h c).2 (probe w options h c').2.
Proof.
  destruct (gethostbyname w h) as [t0 t1 ip|e] eqn:Hdns.
  - destruct (init_resolved w options h t0 t1 ip Hdns) as (o & Hinit & _).
    rewrite !(probe_resolved w options h _ o Hinit). cbn [snd].
    destruct (decide (tcp_successes w options o = [])) as [Hnil|Hne].
    + rewrite !test_all_none by done. done.
    + destruct (test_all_some w options o c Hne) as (m & Hm & ->).
      destruct (test_all_some w options o c' Hne) as (m' & Hm' & ->).
      cbn [fst snd].
      pose proof (get_http_independent w options
                    (set_output o "Average TCP Time" (VFloat m))
                    (set_output o "Average TCP Time" (VFloat m'))
                    (content_sched c) (content_sched c') eq_refl eq_refl) as Hind.
      destruct ((get_http w options _ (content_sched c)).2.2) as [[]|e];
        destruct ((get_http w options _ (content_sched c')).2.2) as [[]|e'];
        try (apply Hind); simpl.
      all: apply out_equiv_insert; [by eapply is_mean_unique | apply out_equiv_refl].
  - unfold probe, init. rewrite Hdns. done.
Qed.

(** ** What a probe does and records, case by case *)

(** The log of a probe, by how far the probe got. *)
Lemma probe_log_cases w options h c :
  (∃ e, gethostbyname w h = TFail e ∧
        probe w options h c = ([(Prober, EvResolve h)], Raise e)) ∨
  (∃ o, init w options h = ([(Prober, EvResolve h)], Ok o) ∧
        tcp_successes w options o = [] ∧
        probe w options h c =
          ((Prober, EvResolve h) :: fan_log (tcp_fan w options o (tcp_sched c)),
           Raise StatisticsError)) ∨
  (∃ o m, init w options h = ([(Prober, EvResolve h)], Ok o) ∧
        tcp_successes w options o ≠ [] ∧
        let o1 := set_output o "Average TCP Time" (VFloat m) in
        let r := get_http w options o1 (content_sched c) in
        probe w options h c =
          ((Prober, EvResolve h) :: fan_log (tcp_fan w options o (tcp_sched c)) ++ r.1,
           match r.2.2 with
           | Ok _ => Ok (performance_output r.2.1)
           | Raise e => Raise e
           end)).
Proof.
  destruct (gethostbyname w h) as [t0 t1 ip|e] eqn:Hdns.
  - right. destruct (init_resolved w options h t0 t1 ip Hdns) as (o & Hinit & _).
    rewrite (probe_resolved w options h c o Hinit).
    destruct (decide (tcp_successes w options o = [])) as [Hnil|Hne].
    + left. exists o. rewrite test_all_none by done. done.
    + right. destruct (test_all_some w options o c Hne) as (m & _ & ->).
      exists o, m. done.
  - left. exists e. unfold probe, init. by rewrite Hdns.
Qed.



(** X6: an exception in the HTTP step is the exception of the probe.  Once
    the name has resolved and a TCP sample has succeeded, a HEAD request
    that raises ends the probe with that exception; and with a HEAD that
    answered 200, the first GET that raises ends it with that exception,
    under every interleaving, whatever the other samples did. *)
Theorem X6_http_errors w options h c o :
  init w options h = ([(Prober, EvResolve h)], Ok o) →
  tcp_successes w options o ≠ [] →
  (∀ e, requests_head w (ip_to_url o) (c_header o) = Raise e →
        (probe w options h c).2 = Raise e) ∧
  (∀ resp k e, requests_head w (ip_to_url o) (c_header o) = Ok resp →
        status_code resp = 200 →
        (k < samples options)%nat → get_stream w o k = Raise e →
        (∀ j, (j < k)%nat → get_stream w o j = Ok ()) →
        (probe w options h c).2 = Raise e).
Proof.
  intros Hinit Hne.
  rewrite (probe_resolved w options h c o Hinit).
  destruct (test_all_some w options o c Hne) as (m & _ & ->). cbn [fst snd].
  unfold get_http.
  change (ip_to_url (set_output o "Average TCP Time" (VFloat m))) with (ip_to_url o).
  change (c_header (set_output o "Average TCP Time" (VFloat m))) with (c_header o).
  split.
  - intros e ->. done.
  - intros resp k e -> H200 Hk He Hlt. rewrite H200. cbn [Z.eqb Pos.eqb fst snd].
    destruct (fan_out_raise (samples options) (get_stream w o)
                (λ i, [EvGet (ip_to_url o) (c_header o) true i])
                (time_content w o) EvContent (content_sched c) k e Hk He Hlt) as (Hpc & _).
    apply fan_result_returned in Hpc.
    change (content_fan w options (set_output o "Average TCP Time" (VFloat m)) (content_sched c))
      with (fan_out (samples options) (get_stream w o)
              (λ i, [EvGet (ip_to_url o) (c_header o) true i])
              (time_content w o) EvContent (content_sched c)).
    by rewrite Hpc.
Qed.

Lemma X6_witness :
  (probe world_get_fails (opts 1 2 0) "good.example" no_choice).2 = Raise RequestException.
Proof.
  refine (proj2 (X6_http_errors world_get_fails (opts 1 2 0) "good.example" no_choice
                   good_object eq_refl _) ok200 1%nat RequestException eq_refl eq_refl _ eq_refl _).
  - discriminate.
  - change (samples (opts 1 2 0)) with 2%nat. lia.
  - intros j Hj. assert (j = 0%nat) as -> by lia. reflexivity.
Defined.

Lemma get_http_dom w options o sched :
  (get_http w options o sched).2.2 = Ok () →
  ∃ resp, requests_head w (ip_to_url o) (c_header o) = Ok resp ∧
    dom (performance_output (get_http w options o sched).2.1) =
      (if decide (status_code resp = 200)
       then {[ "Average Content Load Time" ]} else ∅) ∪
      {[ "Number of Redirects" ]} ∪ {[ "HTTP Response Code" ]} ∪
      dom (performance_output o).
Proof.
  unfold get_http.
  destruct (requests_head w (ip_to_url o) (c_header o)) as [resp|e]; [|done].
  destruct (Z.eqb_spec (status_code resp) 200) as [H200|Hne]; cbn [fst snd].
  - destruct (fan_result (content_fan w options o sched)) as [m|e]; cbn [fst snd]; [|done].
    intros _. exists resp. split; [done|]. rewrite decide_True by done.
    unfold set_output; cbn [performance_output]. rewrite !dom_insert_L.
    by rewrite !(assoc_L (∪)).
  - intros _. exists resp. split; [done|]. rewrite decide_False by done.
    unfold set_output; cbn [performance_output]. rewrite !dom_insert_L.
    by rewrite !(assoc_L (∪)), (left_id_L ∅ (∪)).
Qed.

(** X7: the record of a probe has the keys [DNS Time], [IP of Domain],
    [Average TCP Time], [HTTP Response Code] and [Number of Redirects],
    the key [Average Content Load Time] when and only when the recorded
    status is 200, and no other key. *)
Theorem X7_record_keys w options h c l out :
  probe w options h c = (l, Ok out) →
  ∃ st, out !! "HTTP Response Code" = Some (VInt st) ∧
    dom out =
      (if decide (st = 200) then {[ "Average Content Load Time" ]} else ∅) ∪
      ({[ "Number of Redirects" ]} ∪ {[ "HTTP Response Code" ]} ∪
       {[ "Average TCP Time" ]} ∪ {[ "IP of Domain" ]} ∪ {[ "DNS Time" ]} : gset string).
Proof.
  intros Hp.
  destruct (probe_ok_fields w options h c l out Hp)
    as (t0 & t1 & ip & o & m & resp & Hdns & Hinit & _ & Hhead & _ & _ & _ & _ & Hc & _).
  exists (status_code resp). split; [done|].
  destruct (probe_log_cases w options h c)
    as [(e' & _ & Hp')|[(o' & _ & _ & Hp')|(o' & m' & Hinit' & Hne & Hp')]]; cbn zeta in *;
    rewrite Hp in Hp'; try done.
  assert (o' = o) as -> by congruence.
  injection Hp' as _ Hout.
  destruct ((get_http w options (set_output o "Average TCP Time" (VFloat m'))
               (content_sched c)).2.2) as [[]|e] eqn:Hg; [|done].
  injection Hout as ->.
  destruct (get_http_dom w options _ _ Hg) as (resp' & Hhead' & ->).
  change (ip_to_url (set_output o "Average TCP Time" (VFloat m'))) with (ip_to_url o) in Hhead'.
  change (c_header (set_output o "Average TCP Time" (VFloat m'))) with (c_header o) in Hhead'.
  destruct (init_resolved w options h t0 t1 ip Hdns) as (o2 & Hinit2 & _ & Hip & Hout).
  assert (o2 = o) as -> by congruence.
  assert (resp' = resp) as ->.
  { unfold ip_to_url in Hhead'. rewrite Hip in Hhead'. congruence. }
  unfold set_output; cbn [performance_output]. rewrite Hout, !dom_insert_L, dom_empty_L.
  by rewrite (right_id_L ∅ (∪)), !(assoc_L (∪)).
Qed.

Lemma X7_witness :
  ∃ l out, probe world_500 (opts 1 2 0) "good.example" no_choice = (l, Ok out) ∧
    dom out = ({[ "Number of Redirects" ]} ∪ {[ "HTTP Response Code" ]} ∪
               {[ "Average TCP Time" ]} ∪ {[ "IP of Domain" ]} ∪ {[ "DNS Time" ]} : gset string).
Proof.
  destruct (probe world_500 (opts 1 2 0) "good.example" no_choice) as [l [out|e]] eqn:E.
  - exists l, out. split; [reflexivity|].
    destruct (X7_record_keys world_500 (opts 1 2 0) "good.example" no_choice l out E)
      as (st & Hst & ->).
    destruct (probe_ok_fields _ _ _ _ _ _ E)
      as (t0 & t1 & ip & o & m & resp & Hdns & _ & _ & Hhead & _ & _ & _ & _ & Hc & _).
    injection Hhead as <-. rewrite Hc in Hst. injection Hst as <-.
    rewrite decide_False by discriminate. by rewrite (left_id_L ∅ (∪)).
  - exfalso. vm_compute in E. discriminate E.
Defined.

(** ** More about the run *)

(** X8: at every moment of every run, the keys of the result map are
    input hostnames, and no hostname has been assigned more often than it
    occurs in the input. *)
Theorem X8_only_input_hosts w options z_s host_list sched :
  let s := run w options z_s host_list sched in
  (∀ h, (occ h (stored (trace s)) ≤ occ h host_list)%nat) ∧
  (∀ h out, host_perfs s !! h = Some out → h ∈ host_list).
Proof.
  intros s.
  destruct (run_accounted w options z_s host_list sched) as (Hocc & _ & Hdom). fold s in Hocc, Hdom.
  assert (∀ h, (occ h (stored (trace s)) ≤ occ h host_list)%nat) as Hle.
  { intros h. specialize (Hocc h). lia. }
  split; [done|]. intros h out Hout.
  assert (h ∈ dom (host_perfs s)) as Hin by (apply elem_of_dom; eauto).
  rewrite Hdom, elem_of_list_to_set, occ_elem_of in Hin.
  apply occ_elem_of. specialize (Hle h). lia.
Qed.

(** X9: a hostname whose probe raises, for whatever reason and under
    every interleaving, never gets an entry in the result map, and when it
    is in the input [main] never comes back from [q.join()]. *)
Theorem X9_failed_probe_blocks w options z_s host_list h :
  (∀ c, ∃ l e, probe w options h c = (l, Raise e)) →
  (∀ sched, host_perfs (run w options z_s host_list sched) !! h = None) ∧
  (h ∈ host_list →
     ∀ sched, dispatching (main_pc (run w options z_s host_list sched)) = true).
Proof.
  intros Hraise.
  assert (∀ sched wk i out,
            trace (run w options z_s host_list sched) !! i ≠ Some (PStore wk h out)) as Hnostore.
  { intros sched wk i out Hi.
    destruct (run_stored_ok w options z_s host_list sched) as (Htr & _ & _).
    destruct (Htr i wk h out Hi) as (c & l & j & Hp & _).
    destruct (Hraise c) as (l' & e & Hp'). congruence. }
  split.
  - intros sched.
    destruct (host_perfs (run w options z_s host_list sched) !! h) as [out|] eqn:E; [|done].
    destruct (run_stored_ok w options z_s host_list sched) as (_ & _ & Hhp).
    destruct (Hhp h out E) as (i & wk & Hi). by apply Hnostore in Hi.
  - intros Hin sched.
    destruct (dispatching (main_pc (run w options z_s host_list sched))) eqn:Hd; [done|].
    exfalso.
    pose proof (joined_all_stored _ _ h (run_accounted w options z_s host_list sched) Hd) as Hocc.
    apply occ_elem_of in Hin. rewrite <- Hocc in Hin. apply occ_elem_of in Hin.
    unfold stored in Hin. apply list_elem_of_omap in Hin as (ev & Hev & Hkey).
    destruct ev; try done. simpl in Hkey. injection Hkey as ->.
    apply list_elem_of_lookup_1 in Hev as [i Hi]. by apply Hnostore in Hi.
Qed.

Lemma X9_witness :
  dispatching (main_pc (run world_no_tcp (opts 1 2 0) 0 ["good.example"] one_worker_sched))
  = true.
Proof.
  refine (proj2 (X9_failed_probe_blocks world_no_tcp (opts 1 2 0) 0 ["good.example"]
                   "good.example" _) _ one_worker_sched).
  - intros c. rewrite (probe_resolved world_no_tcp (opts 1 2 0) "good.example" c good_object eq_refl).
    rewrite test_all_none by reflexivity. eauto.
  - by left.
Defined.

(** X10: with a number of worker threads of 0 or less no worker is started:
    nothing is ever probed or stored, and unless the input is empty [main]
    never comes back from [q.join()]. *)
Theorem X10_no_workers w options z_s host_list sched :
  (num_threads options ≤ 0)%Z →
  let s := run w options z_s host_list sched in
  threads s = [] ∧ trace s = [] ∧ host_perfs s = ∅ ∧
  (host_list ≠ [] → dispatching (main_pc s) = true).
Proof.
  intros Hk s.
  assert (threads s = [] ∧ trace s = [] ∧ host_perfs s = ∅) as (Hth & Htr & Hhp).
  { unfold s, run.
    apply (pool_exec_inv w options z_s host_list
             (λ s, threads s = [] ∧ trace s = [] ∧ host_perfs s = ∅)); [|done].
    intros [|wk c] s0 s' (Hnone & Htr & Hhp) Hstep; simpl in Hstep.
    - main_cases Hstep; simpl; try done.
      rewrite Hnone in Hlt. simpl in Hlt. lia.
    - unfold worker_step in Hstep. rewrite Hnone in Hstep.
      by destruct (exited s0). }
  split_and!; try done.
  intros Hne. destruct (dispatching (main_pc s)) eqn:Hd; [done|]. exfalso.
  destruct host_list as [|h rest]; [done|].
  pose proof (joined_all_stored _ _ h (run_accounted w options z_s (h :: rest) sched) Hd) as Hocc.
  fold s in Hocc. rewrite Htr in Hocc. simpl in Hocc. rewrite decide_True in Hocc by done. lia.
Qed.

Lemma X10_witness :
  dispatching (main_pc (run world_ok (opts 0 2 0) 0 ["good.example"] one_worker_sched)) = true.
Proof.
  refine (proj2 (proj2 (proj2 (X10_no_workers world_ok (opts 0 2 0) 0 ["good.example"]
                                 one_worker_sched _))) _).
  - simpl. lia.
  - discriminate.
Defined.

Lemma total_lookup_le f ts i st : ts !! i = Some st → (f st ≤ total f ts)%nat.
Proof. intros Hi. apply sum_list_with_in. by eapply list_elem_of_lookup_2. Qed.

Lemma queued_length q : (length (queued q) ≤ length q)%nat.
Proof. induction q as [|[h|] q IH]; simpl; lia. Qed.

Lemma not_joinable_step w options z_s wk c s s' st :
  worker_step w options z_s wk c s = Some s' → threads s !! wk = Some st →
  joinable st = false.
Proof.
  intros Hstep Hst. unfold worker_step in Hstep. rewrite Hst in Hstep.
  destruct (exited s); [done|]. by destruct st.
Qed.

(** Every step of a worker leaves the other workers where they are. *)
Lemma worker_step_others w options z_s wk c s s' j :
  worker_step w options z_s wk c s = Some s' → j ≠ wk →
  threads s' !! j = threads s !! j.
Proof.
  intros Hstep Hne. worker_cases Hstep; simpl; try done;
    by rewrite list_lookup_insert_ne.
Qed.

Lemma pool_step_joined_ok w options z_s host_list a s s' :
  joined_ok s → pool_step w options z_s host_list a s = Some s' → joined_ok s'.
Proof.
  intros [Hj Hx] Hstep. destruct a as [|wk c]; simpl in Hstep.
  - main_cases Hstep; unfold joined_ok; simpl; rewrite ?Hex; (split; [|done]); try done.
    + intros j st' Hlt Hlk. lia.
    + intros j st' Hlt Hlk.
      destruct (decide (j = k)) as [->|Hne]; [congruence|].
      apply (Hj j); [lia | done].
    + intros j st' Hlk. apply (Hj j); [|done].
      apply lookup_ge_None in Hth. apply lookup_lt_Some in Hlk. lia.
  - assert (main_pc s' = main_pc s) as Hpc by (worker_cases Hstep; done).
    assert (∀ st, threads s !! wk = Some st → joinable st = false) as Hwk.
    { intros st. by eapply not_joinable_step. }
    assert (∀ j st, threads s' !! j = Some st → j ≠ wk → threads s !! j = Some st) as Hother.
    { intros j st Hlk Hne. by rewrite <- (worker_step_others _ _ _ _ _ _ _ j Hstep Hne). }
    assert (is_Some (threads s !! wk)) as [st0 Hst0].
    { unfold worker_step in Hstep. destruct (exited s); [done|].
      destruct (threads s !! wk); [eauto | done]. }
    unfold joined_ok. rewrite Hpc. split.
    + destruct (main_pc s) as [| | | |k|] eqn:E; try done.
      * intros j st Hlt Hlk. destruct (decide (j = wk)) as [->|Hne].
        -- pose proof (Hj wk st0 Hlt Hst0). pose proof (Hwk st0 Hst0). congruence.
        -- by apply (Hj j st Hlt), Hother.
      * intros j st Hlk. destruct (decide (j = wk)) as [->|Hne].
        -- pose proof (Hj wk st0 Hst0). pose proof (Hwk st0 Hst0). congruence.
        -- by apply (Hj j st), Hother.
    + intros _ Hdone. rewrite Hdone in Hj.
      specialize (Hj wk st0 Hst0). specialize (Hwk st0 Hst0). congruence.
Qed.

Lemma run_joined_ok w options z_s host_list sched :
  joined_ok (run w options z_s host_list sched).
Proof.
  unfold run. apply (pool_exec_inv w options z_s host_list joined_ok).
  - intros a s s'. apply pool_step_joined_ok.
  - split; [done|]. simpl. done.
Qed.

Lemma frozen w options z_s host_list s more :
  (∀ a, pool_step w options z_s host_list a s = None) →
  pool_exec w options z_s host_list more s = s.
Proof.
  intros Hnone. induction more as [|a more IH]; [done|].
  unfold pool_exec in *. simpl. by rewrite Hnone.
Qed.

(** X11: a run that the timeout has ended never reaches the output of the
    results, and nothing moves after the exit; and a run that has reached
    the output of the results was not ended by the timeout and cannot be
    any more: every thread has ended and nothing moves. *)
Theorem X11_exit_and_output w options z_s host_list sched :
  let s := run w options z_s host_list sched in
  (exited s = true →
     main_pc s ≠ MDone ∧ ∀ more, pool_exec w options z_s host_list more s = s) ∧
  (main_pc s = MDone →
     exited s = false ∧ ∀ more, pool_exec w options z_s host_list more s = s).
Proof.
  intros s. destruct (run_joined_ok w options z_s host_list sched) as [Hj Hx].
  fold s in Hj, Hx. split.
  - intros Hex. split; [by apply Hx|]. intros more. apply frozen.
    intros [|wk c]; simpl; [unfold main_step | unfold worker_step]; by rewrite Hex.
  - intros Hdone. split.
    + destruct (exited s) eqn:Hex; [|done]. by destruct (Hx eq_refl).
    + intros more. apply frozen. rewrite Hdone in Hj.
      intros [|wk c]; simpl.
      * unfold main_step. rewrite Hdone. by destruct (exited s).
      * unfold worker_step. destruct (exited s); [done|].
        destruct (threads s !! wk) as [st|] eqn:Hst; [|done].
        specialize (Hj wk st Hst). by destruct st.
Qed.

Lemma X11_witness :
  exited (run world_ok (opts 1 2 0) 0 ["good.example"] one_worker_sched) = false.
Proof.
  exact (proj1 (proj2 (X11_exit_and_output world_ok (opts 1 2 0) 0 ["good.example"]
                         one_worker_sched) ltac:(vm_compute; reflexivity))).
Defined.

Lemma pool_step_sentinel w options z_s host_list a s s' :
  accounted host_list s → sentinel_inv (Z.to_nat (num_threads options)) s →
  pool_step w options z_s host_list a s = Some s' →
  sentinel_inv (Z.to_nat (num_threads options)) s'.
Proof.
  intros (_ & Htasks & _) (Hlen & Hstart & Hk & Hphase) Hstep.
  unfold sentinel_inv. destruct a as [|wk c]; simpl in Hstep.
  - pose proof (queued_length (q s)) as Hql.
    main_cases Hstep; simpl in *; rewrite ?Hpc in *; simpl in *;
      rewrite ?queued_app, ?length_app, ?total_app; simpl;
      split_and!; try done; try lia; try tauto.
    all: intros _; by apply Hstart.
  - pose proof (queued_length (q s)) as Hql.
    worker_cases Hstep; simpl in *; rewrite ?length_insert;
      try (pose proof (total_insert broke _ _ _ WGet Hth) as Hb1);
      try (pose proof (total_insert broke _ _ _ WBroke Hth) as Hb2);
      try (pose proof (total_insert broke _ _ _ WHead Hth) as Hb3);
      try (pose proof (total_insert broke _ _ _ (WTaskDone h0) Hth) as Hb4);
      try (pose proof (λ out, total_insert broke _ _ _ (WStore h0 out) Hth) as Hb5);
      try (pose proof (λ e, total_insert broke _ _ _ (WDied h0 e) Hth) as Hb6);
      try (pose proof (λ h, total_insert broke _ _ _ (WWork h) Hth) as Hb7);
      try (pose proof (λ e, total_insert broke _ _ _ (WCrashed e) Hth) as Hb8);
      pose proof (total_lookup_le owed _ _ _ Hth) as Howed;
      try (pose proof (queued_length rest) as Hqr);
      try (specialize (Hb5 out0)); try (specialize (Hb6 e0)); try (specialize (Hb8 e0));
      try (destruct item as [hq|]; [specialize (Hb7 hq)|]);
      simpl in *;
      (split_and!; [done | done | done |]);
      (destruct (dispatching (main_pc s));
       [destruct Hphase as [Hp1 Hp2]
       |destruct Htasks as [Hqnil Hno]; destruct Hphase as [Hp1 Hp2]]);
      try done; try (split; lia).
Qed.

Lemma run_sentinel w options z_s host_list sched :
  sentinel_inv (Z.to_nat (num_threads options)) (run w options z_s host_list sched).
Proof.
  unfold run.
  apply (pool_exec_inv w options z_s host_list
           (λ s, accounted host_list s ∧ sentinel_inv (Z.to_nat (num_threads options)) s)).
  - intros a s s' [Hacc Hsen] Hstep. split.
    + by eapply pool_step_accounted.
    + by eapply pool_step_sentinel.
  - split; [apply pool_init_accounted|].
    unfold sentinel_inv. simpl. split_and!; try done. lia.
Qed.

Lemma all_same {A} (l : list A) (a : A) :
  (∀ j x, l !! j = Some x → x = a) → l = replicate (length l) a.
Proof.
  induction l as [|x l IH]; intros Hall; [done|].
  simpl. rewrite (Hall 0%nat x eq_refl). f_equal.
  apply IH. intros j y Hj. by apply (Hall (S j)).
Qed.

Lemma total_broke_replicate n : total broke (replicate n WBroke) = n.
Proof. induction n as [|n IH]; [done|]. unfold total in *. simpl. by rewrite IH. Qed.

(** A step of the pool never leaves a worker in [WCrashed] when the
    timeout check cannot raise. *)
Lemma run_no_crash w options z_s host_list sched j e :
  timeout options = 0 ∨ (∃ t, float_of_int (timeout options) = Ok t) →
  threads (run w options z_s host_list sched) !! j ≠ Some (WCrashed e).
Proof.
  intros Hsafe. revert j e. unfold run.
  apply (pool_exec_inv w options z_s host_list
           (λ s, ∀ j e, threads s !! j ≠ Some (WCrashed e))).
  - intros [|wk c] s s' Hinv Hstep j e; simpl in Hstep.
    + main_cases Hstep; simpl; try apply Hinv.
      intros [Hj|[_ Hj]]%lookup_app_Some; [by eapply Hinv|].
      destruct (j - length (threads s))%nat; simplify_eq/=.
    + worker_cases Hstep; simpl; try apply Hinv.
      all: try (intros [(_ & Hnew & _)|(_ & Hold)]%list_lookup_insert_Some;
                [try done; by destruct item | by eapply Hinv]).
      apply check_broken in Hck as (Hto & Hconv).
      destruct Hsafe as [?|[t Ht]]; [done | congruence].
  - intros j e Hj. simpl in Hj. done.
Qed.

(** X12: when a run has come to its end, exactly the configured number of
    worker threads exist and every one of them has ended, none through an
    exception of a probe; [unfinished_tasks] equals the number of workers,
    because the [None] items are never marked done.  When the timeout is 0
    or fits a float, each worker has left its loop by reading a [None] and
    the queue is empty. *)
Theorem X12_end_state w options z_s host_list sched :
  let s := run w options z_s host_list sched in
  main_pc s = MDone →
  length (threads s) = Z.to_nat (num_threads options) ∧
  unfinished_tasks s = Z.to_nat (num_threads options) ∧
  (∀ j st, threads s !! j = Some st → st = WBroke ∨ ∃ e, st = WCrashed e) ∧
  (timeout options = 0 ∨ (∃ t, float_of_int (timeout options) = Ok t) →
   threads s = replicate (Z.to_nat (num_threads options)) WBroke ∧ q s = []).
Proof.
  intros s Hdone.
  destruct (run_joined_ok w options z_s host_list sched) as [Hj _].
  destruct (run_accounted w options z_s host_list sched) as (_ & Htasks & _).
  destruct (run_sentinel w options z_s host_list sched) as (_ & Hstart & _ & Hphase).
  fold s in Hj, Htasks, Hstart, Hphase. rewrite Hdone in *. simpl in *.
  destruct Htasks as [_ Howed]. destruct Hphase as [Hq Hun].
  assert (∀ j st, threads s !! j = Some st → st = WBroke ∨ ∃ e, st = WCrashed e) as Hends.
  { intros j st Hst.
    pose proof (Hj j st Hst) as Hjoin.
    pose proof (total_lookup_le owed _ _ _ Hst) as Hle.
    destruct st; try done; [by left | simpl in Hle; lia | eauto]. }
  split_and!; [by apply Hstart | done | done |].
  intros Hsafe.
  assert (threads s = replicate (length (threads s)) WBroke) as Hth.
  { apply all_same. intros j st Hst.
    destruct (Hends j st Hst) as [?|[e ->]]; [done|].
    by apply (run_no_crash w options z_s host_list sched j e Hsafe) in Hst. }
  rewrite Hstart in Hth by done.
  split; [done|].
  rewrite Hth, total_broke_replicate in Hq.
  destruct (q s); [done | simpl in Hq; lia].
Qed.

Lemma X12_witness :
  threads (run world_ok (opts 1 2 0) 0 ["good.example"] one_worker_sched) = [WBroke] ∧
  unfinished_tasks (run world_ok (opts 1 2 0) 0 ["good.example"] one_worker_sched) = 1%nat.
Proof.
  destruct (X12_end_state world_ok (opts 1 2 0) 0 ["good.example"] one_worker_sched
              ltac:(vm_compute; reflexivity)) as (_ & Hun & _ & Hsafe).
  split; [exact (proj1 (Hsafe (or_introl eq_refl))) | exact Hun].
Defined.

(** X14: with a timeout that is too large for a float, the sum in the
    timeout check raises [OverflowError] in every worker at its first
    check: no worker ever gets to [q.get()], nothing is probed or stored,
    the process does not exit, and unless the input is empty [main] never
    comes back from [q.join()]. *)
Theorem X14_timeout_overflow w options z_s host_list sched e :
  timeout options ≠ 0 → float_of_int (timeout options) = Raise e →
  let s := run w options z_s host_list sched in
  trace s = [] ∧ host_perfs s = ∅ ∧ exited s = false ∧
  (∀ j st, threads s !! j = Some st → st = WHead ∨ st = WCrashed OverflowError) ∧
  (host_list ≠ [] → dispatching (main_pc s) = true).
Proof.
  intros Hto Hconv s.
  assert (e = OverflowError) as -> by (by apply float_of_int_raise in Hconv).
  assert (trace s = [] ∧ host_perfs s = ∅ ∧ exited s = false ∧
          ∀ j st, threads s !! j = Some st → st = WHead ∨ st = WCrashed OverflowError)
    as (Htr & Hhp & Hex & Hth).
  { unfold s, run.
    apply (pool_exec_inv w options z_s host_list
             (λ s, trace s = [] ∧ host_perfs s = ∅ ∧ exited s = false ∧
                   ∀ j st, threads s !! j = Some st →
                           st = WHead ∨ st = WCrashed OverflowError)).
    - intros [|wk c] s0 s' (Htr & Hhp & Halive & Hall) Hstep; simpl in Hstep.
      + main_cases Hstep; simpl; split_and!; try done.
        intros j st [Hj|[_ Hj]]%lookup_app_Some; [by eapply Hall|].
        destruct (j - length (threads s0))%nat; simplify_eq/=. by left.
      + unfold worker_step in Hstep. rewrite Halive in Hstep.
        destruct (threads s0 !! wk) as [st|] eqn:Hwk; [|done].
        destruct (Hall wk st Hwk) as [->| ->]; [|done].
        assert (timeout_check options z_s (now c) = Broken OverflowError) as Hck
          by (by apply check_broken).
        rewrite Hck in Hstep. injection Hstep as <-. simpl.
        split_and!; try done; [by rewrite app_nil_r|].
        intros j st [(_ & <- & _)|(_ & Hold)]%list_lookup_insert_Some;
          [by right | by eapply Hall].
    - split_and!; try done; intros j st Hj; simpl in Hj; done. }
  split_and!; try done.
  intros Hne. destruct (dispatching (main_pc s)) eqn:Hd; [done|]. exfalso.
  destruct host_list as [|h rest]; [done|].
  pose proof (joined_all_stored _ _ h (run_accounted w options z_s (h :: rest) sched) Hd) as Hocc.
  fold s in Hocc. rewrite Htr in Hocc. simpl in Hocc. rewrite decide_True in Hocc by done. lia.
Qed.

Lemma X14_witness :
  float_of_int (2 ^ 1024) = Raise OverflowError ∧
  let s := run world_ok (opts 1 2 (2 ^ 1024)) 0 ["good.example"] one_worker_sched in
  threads s = [WCrashed OverflowError] ∧ dispatching (main_pc s) = true.
Proof.
  assert (float_of_int (2 ^ 1024) = Raise OverflowError) as Hconv
    by (vm_compute; reflexivity).
  split; [exact Hconv|]. intros s. split; [vm_compute; reflexivity|].
  refine (proj2 (proj2 (proj2 (proj2
    (X14_timeout_overflow world_ok (opts 1 2 (2 ^ 1024)) 0 ["good.example"]
       one_worker_sched OverflowError _ Hconv)))) _).
  - vm_compute. discriminate.
  - discriminate.
Defined.

(** ** A run that comes to its end *)

Section Completes.
Variable w : World.
Variable options : Options.
Variable z_s : Q.
Variable host_list : list string.
Variable c : choice.
Hypothesis no_timeout : timeout options = 0.

Local Abbreviation K := (Z.to_nat (num_threads options)).
Local Abbreviation exec := (pool_exec w options z_s host_list).
Local Abbreviation wstep := (worker_step w options z_s).
Local Abbreviation mstep := (main_step options host_list).

Lemma exec_app l1 l2 s : exec (l1 ++ l2) s = exec l2 (exec l1 s).
Proof. apply foldl_app. Qed.

Lemma exec_main s s' more : mstep s = Some s' → exec (AMain :: more) s = exec more s'.
Proof. intros Hs. unfold pool_exec. simpl. by rewrite Hs. Qed.

Lemma exec_worker wk s s' more :
  wstep wk c s = Some s' → exec (AWorker wk c :: more) s = exec more s'.
Proof. intros Hs. unfold pool_exec. simpl. by rewrite Hs. Qed.

(** The steps of a worker. *)
Lemma step_head qv u ts hp pc s wk :
  state_is qv u ts hp pc s → ts !! wk = Some WHead →
  ∃ s', wstep wk c s = Some s' ∧ state_is qv u (<[wk := WGet]> ts) hp pc s'.
Proof.
  intros (Hq & Hu & Hts & Hhp & Hpc & Hex) Hwk. unfold worker_step, timeout_check.
  rewrite Hex, Hts, Hwk, no_timeout. simpl. eexists. split; [done|].
  unfold state_is, goes. simpl. by rewrite Hts.
Qed.

Lemma step_get item qv u ts hp pc s wk :
  state_is (item :: qv) u ts hp pc s → ts !! wk = Some WGet →
  ∃ s', wstep wk c s = Some s' ∧
        state_is qv u (<[wk := match item with Some h => WWork h | None => WBroke end]> ts)
          hp pc s'.
Proof.
  intros (Hq & Hu & Hts & Hhp & Hpc & Hex) Hwk. unfold worker_step.
  rewrite Hex, Hts, Hwk, Hq. eexists. split; [done|].
  unfold state_is. simpl. done.
Qed.

Lemma step_work h l out qv u ts hp pc s wk :
  state_is qv u ts hp pc s → ts !! wk = Some (WWork h) →
  probe w options h c = (l, Ok out) →
  ∃ s', wstep wk c s = Some s' ∧ state_is qv u (<[wk := WStore h out]> ts) hp pc s'.
Proof.
  intros (Hq & Hu & Hts & Hhp & Hpc & Hex) Hwk Hp. unfold worker_step.
  rewrite Hex, Hts, Hwk, Hp. eexists. split; [done|].
  unfold state_is, goes. simpl. by rewrite Hts.
Qed.

Lemma step_store h out qv u ts hp pc s wk :
  state_is qv u ts hp pc s → ts !! wk = Some (WStore h out) →
  ∃ s', wstep wk c s = Some s' ∧
        state_is qv u (<[wk := WTaskDone h]> ts) (<[h := out]> hp) pc s'.
Proof.
  intros (Hq & Hu & Hts & Hhp & Hpc & Hex) Hwk. unfold worker_step.
  rewrite Hex, Hts, Hwk. eexists. split; [done|].
  unfold state_is. simpl. by rewrite Hhp.
Qed.

Lemma step_task_done h qv u ts hp pc s wk :
  state_is qv u ts hp pc s → ts !! wk = Some (WTaskDone h) →
  ∃ s', wstep wk c s = Some s' ∧ state_is qv (Nat.pred u) (<[wk := WHead]> ts) hp pc s'.
Proof.
  intros (Hq & Hu & Hts & Hhp & Hpc & Hex) Hwk. unfold worker_step.
  rewrite Hex, Hts, Hwk. eexists. split; [done|].
  unfold state_is. simpl. by rewrite Hu.
Qed.

(** Worker 0 serves one item. *)
Lemma serve_one h l out qv u ts hp s :
  state_is (Some h :: qv) (S u) ts hp MJoinQ s → ts !! 0%nat = Some WHead →
  probe w options h c = (l, Ok out) →
  state_is qv u ts (<[h := out]> hp) MJoinQ (exec (replicate 5 (AWorker 0 c)) s).
Proof.
  intros Hs Hwk Hp. destruct ts as [|t0 ts]; [done|]. injection Hwk as ->.
  destruct (step_head _ _ _ _ _ _ 0%nat Hs eq_refl) as (s1 & E1 & H1).
  destruct (step_get _ _ _ _ _ _ _ 0%nat H1 eq_refl) as (s2 & E2 & H2).
  destruct (step_work h l out _ _ _ _ _ _ 0%nat H2 eq_refl Hp) as (s3 & E3 & H3).
  destruct (step_store h out _ _ _ _ _ _ 0%nat H3 eq_refl) as (s4 & E4 & H4).
  destruct (step_task_done h _ _ _ _ _ _ 0%nat H4 eq_refl) as (s5 & E5 & H5).
  simpl replicate.
  rewrite (exec_worker _ _ _ _ E1), (exec_worker _ _ _ _ E2), (exec_worker _ _ _ _ E3),
    (exec_worker _ _ _ _ E4), (exec_worker _ _ _ _ E5).
  exact H5.
Qed.

Lemma replicate_5_S n (a : actor) :
  replicate (5 * S n) a = replicate 5 a ++ replicate (5 * n) a.
Proof. rewrite <- replicate_add. f_equal. lia. Qed.

(** Worker 0 serves the whole queue. *)
Lemma serve_queue hosts ts hp s :
  (∀ h, h ∈ hosts → ∃ l out, probe w options h c = (l, Ok out)) →
  state_is (Some <$> hosts) (length hosts) ts hp MJoinQ s → ts !! 0%nat = Some WHead →
  state_is [] 0 ts (stored_all w options c hosts hp) MJoinQ
    (exec (replicate (5 * length hosts) (AWorker 0 c)) s).
Proof.
  revert hp s. induction hosts as [|h hosts IH]; intros hp s Hok Hs Hwk; [done|].
  destruct (Hok h) as (l & out & Hp); [by left|].
  cbn [length]. rewrite replicate_5_S, exec_app.
  assert (out_of w options c h = out) as Hout by (unfold out_of; by rewrite Hp).
  cbn [stored_all foldl]. rewrite Hout. apply IH; [|by eapply serve_one|done].
  intros h' Hh'. apply Hok. by right.
Qed.

(** The steps of the main thread. *)
Lemma m_start j hp s :
  state_is [] 0 (replicate j WHead) hp MStart s → (j < K)%nat →
  ∃ s', mstep s = Some s' ∧ state_is [] 0 (replicate (S j) WHead) hp MStart s'.
Proof.
  intros (Hq & Hu & Hts & Hhp & Hpc & Hex) Hj. unfold main_step.
  rewrite Hex, Hpc, Hts, length_replicate.
  destruct (Nat.ltb_spec j K) as [_|?]; [|lia].
  eexists. split; [done|]. unfold state_is. simpl.
  by rewrite <- replicate_S_end.
Qed.

Lemma start_all d j hp s :
  (j + d = K)%nat → state_is [] 0 (replicate j WHead) hp MStart s →
  state_is [] 0 (replicate K WHead) hp MStart (exec (replicate d AMain) s).
Proof.
  revert j s. induction d as [|d IH]; intros j s Hd Hs.
  - simpl. by replace K with j by lia.
  - destruct (m_start j hp s Hs) as (s' & E & Hs'); [lia|].
    simpl replicate. rewrite (exec_main _ _ _ E). apply (IH (S j)); [lia | done].
Qed.

Lemma m_to_put qv u ts hp s :
  state_is qv u ts hp MStart s → length ts = K →
  ∃ s', mstep s = Some s' ∧ state_is qv u ts hp (MPut host_list) s'.
Proof.
  intros (Hq & Hu & Hts & Hhp & Hpc & Hex) Hlen. unfold main_step.
  rewrite Hex, Hpc, Hts, Hlen.
  destruct (Nat.ltb_spec K K) as [?|_]; [lia|].
  eexists. split; [done|]. unfold state_is, main_goes. simpl. done.
Qed.

Lemma m_put h rest qv u ts hp s :
  state_is qv u ts hp (MPut (h :: rest)) s →
  ∃ s', mstep s = Some s' ∧ state_is (qv ++ [Some h]) (S u) ts hp (MPut rest) s'.
Proof.
  intros (Hq & Hu & Hts & Hhp & Hpc & Hex). unfold main_step.
  rewrite Hex, Hpc. eexists. split; [done|].
  unfold state_is, main_goes, put. simpl. by rewrite Hq, Hu.
Qed.

Lemma put_all rest qv u ts hp s :
  state_is qv u ts hp (MPut rest) s →
  state_is (qv ++ (Some <$> rest)) (u + length rest) ts hp (MPut [])
    (exec (replicate (length rest) AMain) s).
Proof.
  revert qv u s. induction rest as [|h rest IH]; intros qv u s Hs.
  - simpl. by rewrite app_nil_r, Nat.add_0_r.
  - destruct (m_put _ _ _ _ _ _ _ Hs) as (s' & E & Hs').
    cbn [length replicate]. rewrite (exec_main _ _ _ E).
    specialize (IH _ _ _ Hs'). rewrite <- app_assoc in IH. simpl in IH.
    by replace (u + S (length rest))%nat with (S u + length rest)%nat by lia.
Qed.

Lemma m_wait qv u ts hp s :
  state_is qv u ts hp (MPut []) s →
  ∃ s', mstep s = Some s' ∧ state_is qv u ts hp MJoinQ s'.
Proof.
  intros (Hq & Hu & Hts & Hhp & Hpc & Hex). unfold main_step.
  rewrite Hex, Hpc. eexists. split; [done|]. unfold state_is, main_goes. simpl. done.
Qed.

Lemma m_joined qv ts hp s :
  state_is qv 0 ts hp MJoinQ s →
  ∃ s', mstep s = Some s' ∧ state_is qv 0 ts hp (MPoison 0) s'.
Proof.
  intros (Hq & Hu & Hts & Hhp & Hpc & Hex). unfold main_step.
  rewrite Hex, Hpc, Hu. eexists. split; [done|]. unfold state_is, main_goes. simpl. done.
Qed.

Lemma m_poison k qv u ts hp s :
  state_is qv u ts hp (MPoison k) s → (k < K)%nat →
  ∃ s', mstep s = Some s' ∧ state_is (qv ++ [None]) (S u) ts hp (MPoison (S k)) s'.
Proof.
  intros (Hq & Hu & Hts & Hhp & Hpc & Hex) Hk. unfold main_step.
  rewrite Hex, Hpc. destruct (Nat.ltb_spec k K) as [_|?]; [|lia].
  eexists. split; [done|]. unfold state_is, main_goes, put. simpl. by rewrite Hq, Hu.
Qed.

Lemma poison_all d k qv u ts hp s :
  (k + d = K)%nat → state_is qv u ts hp (MPoison k) s →
  state_is (qv ++ replicate d None) (u + d) ts hp (MPoison K)
    (exec (replicate d AMain) s).
Proof.
  revert k qv u s. induction d as [|d IH]; intros k qv u s Hd Hs.
  - simpl. rewrite app_nil_r, Nat.add_0_r. by replace K with k by lia.
  - destruct (m_poison _ _ _ _ _ _ Hs) as (s' & E & Hs'); [lia|].
    simpl replicate. rewrite (exec_main _ _ _ E).
    specialize (IH (S k) _ _ _ ltac:(lia) Hs'). rewrite <- app_assoc in IH. simpl in IH.
    by replace (u + S d)%nat with (S u + d)%nat by lia.
Qed.

Lemma m_to_join qv u ts hp s :
  state_is qv u ts hp (MPoison K) s →
  ∃ s', mstep s = Some s' ∧ state_is qv u ts hp (MJoinT 0) s'.
Proof.
  intros (Hq & Hu & Hts & Hhp & Hpc & Hex). unfold main_step.
  rewrite Hex, Hpc. destruct (Nat.ltb_spec K K) as [?|_]; [lia|].
  eexists. split; [done|]. unfold state_is, main_goes. simpl. done.
Qed.

(** Worker [i] takes a [None] and leaves. *)
Lemma break_one i qv u ts hp pc s :
  state_is (None :: qv) u ts hp pc s → ts !! i = Some WHead →
  state_is qv u (<[i := WBroke]> ts) hp pc (exec [AWorker i c; AWorker i c] s).
Proof.
  intros Hs Hwk. apply lookup_lt_Some in Hwk as Hlt.
  destruct (step_head _ _ _ _ _ _ i Hs Hwk) as (s1 & E1 & H1).
  destruct (step_get _ _ _ _ _ _ _ i H1) as (s2 & E2 & H2);
    [by apply list_lookup_insert_eq|].
  rewrite (exec_worker _ _ _ _ E1), (exec_worker _ _ _ _ E2).
  by rewrite list_insert_insert_eq in H2.
Qed.

Lemma breaks_S i ts :
  breaks K i ts → (i < K)%nat → breaks K (S i) (<[i := WBroke]> ts).
Proof.
  intros [Hlen Hall] Hi. split; [by rewrite length_insert|].
  intros j Hj. destruct (decide (j = i)) as [->|Hne].
  - rewrite list_lookup_insert_eq by lia. by rewrite decide_True by lia.
  - rewrite list_lookup_insert_ne by done. rewrite (Hall j Hj).
    destruct (decide (j < i)%nat), (decide (j < S i)%nat); try done; lia.
Qed.

Lemma break_all d i u ts hp pc s :
  (i + d = K)%nat → breaks K i ts →
  state_is (replicate d None) u ts hp pc s →
  ∃ ts', breaks K K ts' ∧
         state_is [] u ts' hp pc (exec (seq i d ≫= λ j, [AWorker j c; AWorker j c]) s).
Proof.
  revert i ts s. induction d as [|d IH]; intros i ts s Hd Hb Hs.
  - assert (i = K) as -> by lia. by exists ts.
  - assert (ts !! i = Some WHead) as Hwk.
    { destruct Hb as [_ Hall]. rewrite (Hall i) by lia. by rewrite decide_False by lia. }
    pose proof (break_one i _ _ _ _ _ _ Hs Hwk) as Hs'.
    cbn [seq mbind list_bind]. change (?a :: ?b :: ?l) with ([a; b] ++ l).
    rewrite exec_app.
    apply (IH (S i) (<[i := WBroke]> ts)); [lia | apply breaks_S; [done | lia] | done].
Qed.

Lemma m_join k qv u ts hp s :
  state_is qv u ts hp (MJoinT k) s → ts !! k = Some WBroke →
  ∃ s', mstep s = Some s' ∧ state_is qv u ts hp (MJoinT (S k)) s'.
Proof.
  intros (Hq & Hu & Hts & Hhp & Hpc & Hex) Hk. unfold main_step.
  rewrite Hex, Hpc, Hts, Hk. eexists. split; [done|].
  unfold state_is, main_goes. simpl. done.
Qed.

Lemma join_all d k qv u ts hp s :
  (k + d = K)%nat → breaks K K ts → state_is qv u ts hp (MJoinT k) s →
  state_is qv u ts hp MDone (exec (replicate (S d) AMain) s).
Proof.
  revert k s. induction d as [|d IH]; intros k s Hd [Hlen Hall] Hs.
  - destruct Hs as (Hq & Hu & Hts & Hhp & Hpc & Hex).
    assert (mstep s = Some (main_goes MDone s)) as E.
    { unfold main_step. rewrite Hex, Hpc, Hts.
      rewrite (proj2 (lookup_ge_None ts k)) by lia. done. }
    simpl replicate. rewrite (exec_main _ _ _ E). unfold state_is, main_goes. simpl. done.
  - destruct (m_join k _ _ _ _ _ Hs) as (s' & E & Hs').
    { rewrite (Hall k) by lia. by rewrite decide_True by lia. }
    change (replicate (S (S d)) AMain) with (AMain :: replicate (S d) AMain).
    rewrite (exec_main _ _ _ E). apply (IH (S k)); [lia | done | done].
Qed.

Lemma stored_all_lookup hosts hp h :
  h ∈ hosts → stored_all w options c hosts hp !! h = Some (out_of w options c h).
Proof.
  revert hp. induction hosts as [|x hosts IH]; intros hp Hin.
  - by apply elem_of_nil in Hin.
  - cbn [stored_all foldl]. destruct (decide (h ∈ hosts)) as [Hh|Hh]; [by apply IH|].
    apply elem_of_cons in Hin as [->|?]; [|done].
    clear IH. revert hp. induction hosts as [|y hosts IH]; intros hp.
    + simpl. apply lookup_insert_eq.
    + cbn [foldl]. rewrite not_elem_of_cons in Hh. destruct Hh as [Hne Hh].
      rewrite insert_insert_ne by done. by apply IH.
Qed.
(** The whole run under [serve_all]. *)
Lemma completes :
  (1 ≤ K)%nat → (∀ h, h ∈ host_list → ∃ l out, probe w options h c = (l, Ok out)) →
  ∃ ts, breaks K K ts ∧
        state_is [] K ts (stored_all w options c host_list ∅) MDone
          (exec (serve_all K (length host_list) c) (pool_init)).
Proof.
  intros HK Hok. unfold serve_all. rewrite !exec_app.
  assert (state_is [] 0 (replicate 0 WHead) ∅ MStart pool_init) as H0 by done.
  apply (start_all K 0) in H0; [|lia].
  destruct (m_to_put _ _ _ _ _ H0) as (s2 & E2 & H2); [by rewrite length_replicate|].
  rewrite (exec_main _ _ [] E2). change (exec [] s2) with s2.
  apply put_all in H2. simpl in H2.
  destruct (m_wait _ _ _ _ _ H2) as (s4 & E4 & H4).
  rewrite (exec_main _ _ [] E4). change (exec [] s4) with s4.
  apply serve_queue in H4; [|done|by apply lookup_replicate_2; lia].
  destruct (m_joined _ _ _ _ H4) as (s6 & E6 & H6).
  rewrite (exec_main _ _ [] E6). change (exec [] s6) with s6.
  apply (poison_all K 0) in H6; [|lia]. simpl in H6.
  destruct (m_to_join _ _ _ _ _ H6) as (s8 & E8 & H8).
  rewrite (exec_main _ _ [] E8). change (exec [] s8) with s8.
  assert (breaks K 0 (replicate K WHead)) as Hb0.
  { split; [by rewrite length_replicate|].
    intros j Hj. rewrite lookup_replicate_2 by done. by rewrite decide_False by lia. }
  destruct (break_all K 0 _ _ _ _ _ eq_refl Hb0 H8) as (ts & Hb & H9).
  exists ts. split; [done|]. by apply (join_all K 0).
Qed.

End Completes.

(** X13: the run can come to its end.  There is a schedule (the main thread
    starts the workers and fills the queue, the first worker serves every
    item, the main thread puts one [None] per worker, every worker takes
    one and leaves, the main thread joins them) under which, with at least
    one worker, no timeout and every probe returning a record, the main
    thread reaches the end of the pool phase, the process has not exited,
    and the record of every host name of the input, also of one that occurs
    twice, is in [host_perfs]. *)
Theorem X13_run_completes w options z_s host_list c :
  (1 ≤ num_threads options)%Z → timeout options = 0 →
  (∀ h, h ∈ host_list → ∃ l out, probe w options h c = (l, Ok out)) →
  let s := run w options z_s host_list
             (serve_all (Z.to_nat (num_threads options)) (length host_list) c) in
  main_pc s = MDone ∧ exited s = false ∧ q s = [] ∧
  ∀ h l out, h ∈ host_list → probe w options h c = (l, Ok out) →
             host_perfs s !! h = Some out.
Proof.
  intros HK Hto Hok s.
  destruct (completes w options z_s host_list c Hto ltac:(lia) Hok)
    as (ts & _ & Hq & _ & _ & Hhp & Hpc & Hex).
  fold (run w options z_s host_list
          (serve_all (Z.to_nat (num_threads options)) (length host_list) c)) in *.
  fold s in Hq, Hhp, Hpc, Hex.
  split_and!; try done.
  intros h l out Hin Hp. rewrite Hhp, stored_all_lookup by done.
  unfold out_of. by rewrite Hp.
Qed.

Lemma X13_witness :
  main_pc (run world_ok (opts 1 2 0) 0 ["good.example"; "good.example"]
             (serve_all 1 2 no_choice)) = MDone.
Proof.
  refine (proj1 (X13_run_completes world_ok (opts 1 2 0) 0
                   ["good.example"; "good.example"] no_choice _ _ _)).
  - vm_compute. discriminate.
  - reflexivity.
  - intros h Hh.
    assert (h = "good.example") as ->.
    { apply elem_of_cons in Hh as [->|Hh]; [done|]. by apply list_elem_of_singleton in Hh. }
    assert (match (probe world_ok (opts 1 2 0) "good.example" no_choice).2 with
            | Ok _ => true
            | Raise _ => false
            end = true) as Hok by (vm_compute; reflexivity).
    destruct (probe world_ok (opts 1 2 0) "good.example" no_choice) as [l [out|e]];
      [by exists l, out | discriminate Hok].
Defined.
